(** * dhcp_miner: classification of DHCP reservations and lease change detection

    A shallow embedding of the two programs of the repository,
    [MiceAndMenSpy.py] (reservation mining, vendor classification, per-lab
    report) and [dhcpspy.py] (lease polling and change detection), with the
    properties their specification states about them. *)

From Stdlib Require Import ZArith List String Ascii Bool Lia PrimFloat.
From stdpp Require Import base option gmap strings list fin_maps.

(** ** Python runtime: exceptions *)

(** The exceptions the two programs can leave a function with.  [SystemExit]
    is what [sys.exit()] raises. *)
Inductive exn : Type :=
  | KeyError
  | ValueError
  | AttributeError
  | SystemExit
  | FileNotFoundError.

Inductive result (A : Type) : Type :=
  | Ok (a : A)
  | Raise (e : exn).
Arguments Ok {A} a.
Arguments Raise {A} e.

#[global] Instance result_ret : MRet result := fun A a => Ok a.
#[global] Instance result_bind : MBind result := fun A B k m =>
  match m with
  | Ok a => k a
  | Raise e => Raise e
  end.

#[global] Instance result_fmap : FMap result := fun A B f m =>
  match m with
  | Ok a => Ok (f a)
  | Raise e => Raise e
  end.

Definition is_Ok {A} (r : result A) : bool :=
  match r with Ok _ => true | Raise _ => false end.

(** ** Python runtime: [str] *)

Module Str.

(** [c.lower()] on one character.  Strings are modelled as sequences of
    8-bit characters; only [A]..[Z] have a lower-case form, as for ASCII
    text (hardware addresses and vendor prefixes are hexadecimal digits and
    separators). *)
Definition lower_ascii (c : ascii) : ascii :=
  let n := nat_of_ascii c in
  if (65 <=? n)%nat && (n <=? 90)%nat then ascii_of_nat (n + 32) else c.

(** [s.lower()] *)
Fixpoint lower (s : string) : string :=
  match s with
  | EmptyString => EmptyString
  | String c s' => String (lower_ascii c) (lower s')
  end.

(** [s[:n]]: the first [n] characters, the whole string when it is shorter. *)
Fixpoint slice_to (n : nat) (s : string) : string :=
  match n, s with
  | O, _ => EmptyString
  | S _, EmptyString => EmptyString
  | S n', String c s' => String c (slice_to n' s')
  end.

(** [s.startswith(p)] *)
Fixpoint startswith (p s : string) : bool :=
  match p, s with
  | EmptyString, _ => true
  | String _ _, EmptyString => false
  | String a p', String b s' => Ascii.eqb a b && startswith p' s'
  end.

(** [needle in hay]: [needle] occurs in [hay] as a contiguous substring. *)
Fixpoint contains (needle hay : string) : bool :=
  startswith needle hay ||
  match hay with
  | EmptyString => false
  | String _ hay' => contains needle hay'
  end.

(** [s.replace(a, b)] for one-character [a] and [b]. *)
Fixpoint replace_char (a b : ascii) (s : string) : string :=
  match s with
  | EmptyString => EmptyString
  | String c s' => String (if Ascii.eqb c a then b else c) (replace_char a b s')
  end.

End Str.

(** ** Python runtime: [dict]

    A Python [dict] iterates in insertion order, and assigning to a key that
    is already present keeps the key's position.  The programs depend on that
    order (first matching vendor category; order of the networks of a
    duplicated address), so a dictionary with string keys is an association
    list kept free of duplicate keys by [set]. *)

Module Dict.

Definition t (V : Type) : Type := list (string * V).

(** [d.get(k)]; [None] stands for an absent key. *)
Fixpoint get {V} (k : string) (d : t V) : option V :=
  match d with
  | [] => None
  | (k', v) :: d' => if String.eqb k k' then Some v else get k d'
  end.

(** [k in d] *)
Definition mem {V} (k : string) (d : t V) : bool :=
  match get k d with Some _ => true | None => false end.

(** [d[k] = v] *)
Fixpoint set {V} (k : string) (v : V) (d : t V) : t V :=
  match d with
  | [] => [(k, v)]
  | (k', v') :: d' =>
      if String.eqb k k' then (k, v) :: d' else (k', v') :: set k v d'
  end.

(** [d[k]], which raises [KeyError] on an absent key. *)
Definition item {V} (k : string) (d : t V) : result V :=
  match get k d with
  | Some v => Ok v
  | None => Raise KeyError
  end.

(** [list(d)]: the keys in iteration order. *)
Definition keys {V} (d : t V) : list string := map fst d.

(** [len(d)] *)
Definition len {V} (d : t V) : nat := length d.

End Dict.

(** ** Python runtime: [datetime] and [dateutil.relativedelta] *)

Module DateTime.

Local Open Scope Z_scope.

(** A naive [datetime.datetime]. *)
Record datetime : Type := mkdatetime {
  year : Z;
  month : Z;
  day : Z;
  hour : Z;
  minute : Z;
  second : Z;
  microsecond : Z
}.

(** [calendar.isleap] *)
Definition isleap (y : Z) : bool :=
  (y mod 4 =? 0) && (negb (y mod 100 =? 0) || (y mod 400 =? 0)).

(** [calendar.monthrange(y, m)[1]]: the number of days of month [m] of year
    [y], from the table [calendar.mdays]. *)
Definition monthrange_days (y m : Z) : Z :=
  match m with
  | 1 => 31
  | 2 => if isleap y then 29 else 28
  | 3 => 31
  | 4 => 30
  | 5 => 31
  | 6 => 30
  | 7 => 31
  | 8 => 31
  | 9 => 30
  | 10 => 31
  | 11 => 30
  | 12 => 31
  | _ => 0
  end.

(** The constructor's range checks: what every [datetime] object satisfies. *)
Definition validb (d : datetime) : bool :=
  (1 <=? year d) && (year d <=? 9999) &&
  (1 <=? month d) && (month d <=? 12) &&
  (1 <=? day d) && (day d <=? monthrange_days (year d) (month d)) &&
  (0 <=? hour d) && (hour d <? 24) &&
  (0 <=? minute d) && (minute d <? 60) &&
  (0 <=? second d) && (second d <? 60) &&
  (0 <=? microsecond d) && (microsecond d <? 1000000).

Definition valid (d : datetime) : Prop := validb d = true.

(** Comparison of two naive datetimes: field by field, most significant
    first ([datetime._cmp]). *)
Definition cmp (a b : datetime) : comparison :=
  match year a ?= year b with
  | Eq =>
    match month a ?= month b with
    | Eq =>
      match day a ?= day b with
      | Eq =>
        match hour a ?= hour b with
        | Eq =>
          match minute a ?= minute b with
          | Eq =>
            match second a ?= second b with
            | Eq => microsecond a ?= microsecond b
            | c => c
            end
          | c => c
          end
        | c => c
        end
      | c => c
      end
    | c => c
    end
  | c => c
  end.

(** [a > b] *)
Definition gt (a b : datetime) : bool :=
  match cmp a b with Gt => true | _ => false end.

(** [relativedelta]: only the relative [years] and [months] are ever set by
    the program; all other fields keep their defaults (zero or [None]). *)
Record relativedelta : Type := mkrelativedelta {
  years : Z;
  months : Z
}.

(** [relativedelta(months=m)]: the constructor stores [m] and calls [_fix],
    which carries whole years out of the months. *)
Definition relativedelta_months (m : Z) : relativedelta :=
  if 11 <? Z.abs m then
    let s := Z.sgn m in
    {| years := ((m * s) / 12) * s; months := ((m * s) mod 12) * s |}
  else {| years := 0; months := m |}.

(** [relativedelta.__neg__] *)
Definition neg (r : relativedelta) : relativedelta :=
  {| years := - years r; months := - months r |}.

(** [relativedelta.__radd__]: [dt + r].  The year and month are moved, the
    day is clipped to the length of the target month, and [dt.replace]
    raises [ValueError] when the year leaves [1, 9999]. *)
Definition radd (dt : datetime) (r : relativedelta) : result datetime :=
  let y := year dt + years r in
  let m := month dt in
  let '(y, m) :=
    if months r =? 0 then (y, m)
    else
      let m := m + months r in
      if 12 <? m then (y + 1, m - 12)
      else if m <? 1 then (y - 1, m + 12)
      else (y, m) in
  let d := Z.min (monthrange_days y m) (day dt) in
  if (1 <=? y) && (y <=? 9999) then
    Ok (mkdatetime y m d (hour dt) (minute dt) (second dt) (microsecond dt))
  else Raise ValueError.

(** [dt - r], which Python evaluates as [r.__rsub__(dt)], that is
    [(-r).__radd__(dt)]. *)
Definition sub (dt : datetime) (r : relativedelta) : result datetime :=
  radd dt (neg r).

(** *** The time line

    [toordinal] and the count of microseconds since the start of year 1 place
    a datetime on a linear time line; the properties of the time-window filter
    are stated on it. *)

Definition days_before_year (y : Z) : Z :=
  let y := y - 1 in y * 365 + y / 4 - y / 100 + y / 400.

Definition days_before_month (y m : Z) : Z :=
  let leap := if isleap y then 1 else 0 in
  match m with
  | 1 => 0
  | 2 => 31
  | 3 => 59 + leap
  | 4 => 90 + leap
  | 5 => 120 + leap
  | 6 => 151 + leap
  | 7 => 181 + leap
  | 8 => 212 + leap
  | 9 => 243 + leap
  | 10 => 273 + leap
  | 11 => 304 + leap
  | 12 => 334 + leap
  | _ => 0
  end.

(** [d.toordinal()] *)
Definition toordinal (d : datetime) : Z :=
  days_before_year (year d) + days_before_month (year d) (month d) + day d.

(** Microseconds elapsed since 0001-01-01 00:00:00. *)
Definition to_micros (d : datetime) : Z :=
  ((((toordinal d - 1) * 24 + hour d) * 60 + minute d) * 60 + second d)
  * 1000000 + microsecond d.

Definition usec_per_day : Z := 86400000000.

End DateTime.

Import DateTime.

(** ** MiceAndMenSpy.py *)

Module MiceAndMenSpy.

(** One DHCP reservation record of the inventory system, with the two fields
    the program reads. *)
Record IpamRecord : Type := mkIpamRecord {
  lastKnownClientIdentifier : string;
  lastSeenDate : string
}.

(** What [getInfoBlockForNetwork] returns: category -> address -> record. *)
Definition RetMap : Type := Dict.t (Dict.t IpamRecord).

(** The vendor table [OUI_MAP]: category -> prefixes. *)
Definition OuiMap : Type := Dict.t (list string).

(** The part of a [Ranges] answer that is read: [rangeData['ranges']] when
    the key is there, and for each of its entries the value of ['ref'] when
    that key is there. *)
Record RangeData : Type := mkRangeData {
  ranges : option (list (option string))
}.

(** An [IPAMRecords] answer, a dictionary read at ['ipamRecords']. *)
Definition RespData : Type := Dict.t (list IpamRecord).

(** Outcome of [open] followed by [json.load]. *)
Inductive loaded (A : Type) : Type :=
  | Loaded (a : A)
  | LoadError.
Arguments Loaded {A} a.
Arguments LoadError {A}.

(** [readMapFromJsonFile]: any exception of the load gives the empty map. *)
Definition readMapFromJsonFile {V} (file : loaded (Dict.t V)) : Dict.t V :=
  match file with
  | Loaded m => m
  | LoadError => []
  end.

(** Everything outside the process that one run reads or writes: the
    environment variables, the JSON files by name, the answers of the REST
    service ([getResponseData], which calls [sys.exit()] on a failed request)
    and the clock, as the sequence of values successive calls of
    [datetime.now()] return.  Writing a file is assumed to succeed; what is
    printed for tracing is left out. *)
Record World : Type := mkWorld {
  getenv : string -> option string;
  network_files : string -> loaded (Dict.t (list string));
  oui_files : string -> loaded (Dict.t (list string));
  cache_files : string -> loaded (Dict.t RangeData);
  reservation_files : string -> loaded RespData;
  rest_Ranges : string -> result RangeData;
  rest_IPAMRecords : string -> result RespData;
  clock : nat -> datetime;
  ticks : nat
}.

Definition write_cache (fName : string) (d : Dict.t RangeData) (w : World)
  : World :=
  mkWorld (getenv w) (network_files w) (oui_files w)
    (fun f => if String.eqb f fName then Loaded d else cache_files w f)
    (reservation_files w) (rest_Ranges w) (rest_IPAMRecords w)
    (clock w) (ticks w).

Definition write_reservations (fName : string) (d : RespData) (w : World)
  : World :=
  mkWorld (getenv w) (network_files w) (oui_files w) (cache_files w)
    (fun f => if String.eqb f fName then Loaded d else reservation_files w f)
    (rest_Ranges w) (rest_IPAMRecords w) (clock w) (ticks w).

(** [datetime.now()] *)
Definition datetime_now (w : World) : datetime * World :=
  (clock w (ticks w),
   mkWorld (getenv w) (network_files w) (oui_files w) (cache_files w)
     (reservation_files w) (rest_Ranges w) (rest_IPAMRecords w)
     (clock w) (S (ticks w))).

(** [rangeData['ranges'][0]['ref']] inside [try]; [None] when it raises. *)
Definition rangeRef_of (rangeData : RangeData) : option string :=
  match ranges rangeData with
  | Some (Some ref :: _) => Some ref
  | _ => None
  end.

Section Classification.

(** [datetime.strptime(s, '%b %d, %Y %H:%M:%S')], which raises [ValueError]
    on text that does not follow the format. *)
Variable strptime : string -> result datetime.

(** The global [OUI_MAP]. *)
Variable OUI_MAP : OuiMap.

(** [macID.lower() in macAddr[:len(macID)].lower()] *)
Definition macID_matches (macID macAddr : string) : bool :=
  Str.contains (Str.lower macID)
               (Str.lower (Str.slice_to (String.length macID) macAddr)).

(** [retMap[ouiType][macAddr] = record] *)
Definition store (ouiType macAddr : string) (record : IpamRecord)
    (retMap : RetMap) : result RetMap :=
  inner ← Dict.item ouiType retMap;
  mret (Dict.set ouiType (Dict.set macAddr record inner) retMap).

(** [for macID in OUI_MAP[ouiType]: ...], on the pair [(retMap, foundMatch)]. *)
Fixpoint macID_loop (macIDs : list string) (ouiType macAddr : string)
    (record : IpamRecord) (st : RetMap * bool) : result (RetMap * bool) :=
  match macIDs with
  | [] => mret st
  | macID :: macIDs' =>
      st' ← (if macID_matches macID macAddr
             then retMap' ← store ouiType macAddr record (fst st);
                  mret (retMap', true)
             else mret st);
      macID_loop macIDs' ouiType macAddr record st'
  end.

(** [for ouiType in OUI_MAP: ...] *)
Fixpoint ouiType_loop (ouiTypes : list string) (macAddr : string)
    (record : IpamRecord) (st : RetMap * bool) : result (RetMap * bool) :=
  match ouiTypes with
  | [] => mret st
  | ouiType :: ouiTypes' =>
      let retMap := if Dict.mem ouiType (fst st) then fst st
                    else Dict.set ouiType [] (fst st) in
      st' ← (if negb (snd st)
             then macIDs ← Dict.item ouiType OUI_MAP;
                  macID_loop macIDs ouiType macAddr record (retMap, snd st)
             else mret (retMap, snd st));
      ouiType_loop ouiTypes' macAddr record st'
  end.

(** Lines 190-207: the record has passed the time check; file it. *)
Definition classify_record (record : IpamRecord) (retMap : RetMap)
  : result RetMap :=
  let macAddr := lastKnownClientIdentifier record in
  st ← ouiType_loop (Dict.keys OUI_MAP) macAddr record (retMap, false);
  retMap ← (if negb (snd st) then store "Other" macAddr record (fst st)
            else mret (fst st));
  store "All" macAddr record retMap.

(** [lastSeen > checkDate] *)
Definition isRecent (lastSeen checkDate : datetime) : bool :=
  DateTime.gt lastSeen checkDate.

(** The body of [for record in respData['ipamRecords']]. *)
Definition process_record (checkDate : datetime) (record : IpamRecord)
    (retMap : RetMap) : result RetMap :=
  if (0 <? String.length (lastKnownClientIdentifier record))%nat then
    lastSeen ← strptime (lastSeenDate record);
    if isRecent lastSeen checkDate then classify_record record retMap
    else mret retMap
  else mret retMap.

Fixpoint records_loop (checkDate : datetime) (records : list IpamRecord)
    (retMap : RetMap) : result RetMap :=
  match records with
  | [] => mret retMap
  | record :: records' =>
      retMap' ← process_record checkDate record retMap;
      records_loop checkDate records' retMap'
  end.

(** [datetime.now() - relativedelta(months=12)] *)
Definition checkDate_of (now : datetime) : result datetime :=
  DateTime.sub now (relativedelta_months 12).

(** Lines 150-160: the info block of the network, from the cache file or
    from the REST service. *)
Definition read_rangeData (networkSubnet cacheFile : string)
    (useLocalReservationCache : bool) (w : World)
  : result (RangeData * World) :=
  let RangeDict := readMapFromJsonFile (cache_files w cacheFile) in
  if negb (Dict.mem networkSubnet RangeDict) then
    rangeData ← rest_Ranges w networkSubnet;
    let RangeDict := Dict.set networkSubnet rangeData RangeDict in
    mret (rangeData,
          if useLocalReservationCache then write_cache cacheFile RangeDict w
          else w)
  else
    rangeData ← Dict.item networkSubnet RangeDict;
    mret (rangeData, w).

(** Lines 168-179: the reservations of the range, from the local file or
    from the REST service. *)
Definition read_respData (networkSubnet rangeRef : string)
    (useLocalReservationCache : bool) (w : World)
  : result (RespData * World) :=
  let fName := (Str.replace_char "/" "_" networkSubnet ++ ".json")%string in
  let respData := if useLocalReservationCache
                  then Some (readMapFromJsonFile (reservation_files w fName))
                  else None in
  match respData with
  | Some ((_ :: _) as respData) => mret (respData, w)
  | _ =>
      respData ← rest_IPAMRecords w rangeRef;
      mret (respData,
            if useLocalReservationCache then write_reservations fName respData w
            else w)
  end.

Definition getInfoBlockForNetwork (networkSubnet cacheFile : string)
    (useLocalReservationCache : bool) (w : World) : result (RetMap * World) :=
  let retMap : RetMap := [] in
  let retMap := Dict.set "Other" [] retMap in
  let retMap := Dict.set "All" [] retMap in
  let '(now, w) := datetime_now w in
  checkDate ← checkDate_of now;
  '(rangeData, w) ← read_rangeData networkSubnet cacheFile
                      useLocalReservationCache w;
  match rangeRef_of rangeData with
  | None => mret (retMap, w)
  | Some rangeRef =>
      '(respData, w) ← read_respData networkSubnet rangeRef
                         useLocalReservationCache w;
      records ← Dict.item "ipamRecords" respData;
      retMap ← records_loop checkDate records retMap;
      mret (retMap, w)
  end.

End Classification.

(** *** The list objects of [CreateCsvFiles]

    [CreateCsvFiles] stores one list object under two dictionaries
    ([labMacs[macAddr]] and [subnetMap['Duplicates'][macAddr]]) and appends
    to lists in place, so the lists live in a store and the dictionaries hold
    references to them. *)

Definition ref : Type := nat.
Definition Heap : Type := list (list string).

(** A new list object with the given content. *)
Definition new_list (l : list string) (h : Heap) : ref * Heap :=
  (length h, h ++ [l]).

(** [r.append(x)] *)
Definition list_append (r : ref) (x : string) (h : Heap) : Heap :=
  alter (fun l => l ++ [x]) r h.

Definition deref (h : Heap) (r : ref) : list string := default [] (h !! r).

(** [for x in xs: body], on a state that the body may leave by raising. *)
Fixpoint for_each {A S} (xs : list A) (body : A -> S -> result S) (s : S)
  : result S :=
  match xs with
  | [] => mret s
  | x :: xs' => s' ← body x s; for_each xs' body s'
  end.

(** The variables of one round of the [for lab in blockMap] loop. *)
Record LabState : Type := mkLabState {
  subnetMap : Dict.t (Dict.t ref);
  labMacs : Dict.t ref;
  heap : Heap
}.

(** The body of [for macAddr in blockMap[lab][subnet][type]]. *)
Definition macAddr_step (subnet type macAddr : string) (st : LabState)
  : result LabState :=
  byType ← Dict.item type (subnetMap st);
  let '(subnetMap1, heap1) :=
    if negb (Dict.mem subnet byType) then
      let '(r, h) := new_list [subnet] (heap st) in
      (Dict.set type (Dict.set subnet r byType) (subnetMap st), h)
    else (subnetMap st, heap st) in
  byType ← Dict.item type subnetMap1;
  r ← Dict.item subnet byType;
  let heap2 := list_append r macAddr heap1 in
  if Dict.mem macAddr (labMacs st) then
    r ← Dict.item macAddr (labMacs st);
    let heap3 := list_append r subnet heap2 in
    dups ← Dict.item "Duplicates" subnetMap1;
    mret (mkLabState
            (Dict.set "Duplicates" (Dict.set macAddr r dups) subnetMap1)
            (labMacs st) heap3)
  else
    let '(r, heap3) := new_list [] heap2 in
    let labMacs1 := Dict.set macAddr r (labMacs st) in
    mret (mkLabState subnetMap1 labMacs1 (list_append r subnet heap3)).

(** The body of [for type in blockMap[lab][subnet]]. *)
Definition type_step (info : RetMap) (subnet type : string) (st : LabState)
  : result LabState :=
  let st := if negb (Dict.mem type (subnetMap st))
            then mkLabState (Dict.set type [] (subnetMap st))
                            (labMacs st) (heap st)
            else st in
  macs ← Dict.item type info;
  for_each (Dict.keys macs) (macAddr_step subnet type) st.

(** The body of [for subnet in blockMap[lab]]. *)
Definition subnet_step (subnets : Dict.t RetMap) (subnet : string)
    (st : LabState) : result LabState :=
  info ← Dict.item subnet subnets;
  for_each (Dict.keys info) (type_step info subnet) st.

(** The lines of [DHCP_<lab>_<type>.csv]. *)
Definition csv_lines (h : Heap) (bySubnet : Dict.t ref) : list string :=
  map (fun subnet =>
         (String.concat "," (deref h (default 0%nat (Dict.get subnet bySubnet)))
          ++ String (ascii_of_nat 10) "")%string)
      (Dict.keys bySubnet).

(** The files written for one lab: one per type with a non-empty map. *)
Definition csv_files (lab : string) (st : LabState)
  : list (string * list string) :=
  flat_map (fun type =>
    let bySubnet := default [] (Dict.get type (subnetMap st)) in
    if (0 <? Dict.len bySubnet)%nat
    then [(("DHCP_" ++ lab ++ "_" ++ type ++ ".csv")%string,
           csv_lines (heap st) bySubnet)]
    else [])
    (Dict.keys (subnetMap st)).

(** The variables of [CreateCsvFiles]: [labMap], the files written so far
    and the store of list objects. *)
Record CsvState : Type := mkCsvState {
  labMap : Dict.t (Dict.t (Dict.t ref));
  files : list (string * list string);
  lists : Heap
}.

(** The body of [for lab in blockMap]. *)
Definition lab_step (blockMap : Dict.t (Dict.t RetMap)) (lab : string)
    (cs : CsvState) : result CsvState :=
  let subnetMap0 : Dict.t (Dict.t ref) := Dict.set "Duplicates" [] [] in
  subnets ← Dict.item lab blockMap;
  st ← for_each (Dict.keys subnets) (subnet_step subnets)
                (mkLabState subnetMap0 [] (lists cs));
  mret (mkCsvState (Dict.set lab (subnetMap st) (labMap cs))
                   (files cs ++ csv_files lab st)
                   (heap st)).

Definition CreateCsvFiles (blockMap : Dict.t (Dict.t RetMap))
  : result CsvState :=
  for_each (Dict.keys blockMap) (lab_step blockMap) (mkCsvState [] [] []).

(** The total that the summary of [main] computes for one type of a lab. *)
Definition type_total (h : Heap) (type : string) (subnetList : Dict.t ref)
  : nat :=
  if String.eqb type "Duplicates" then Dict.len subnetList
  else fold_left (fun total subnet =>
         (total + length (deref h (default 0%nat
                                      (Dict.get subnet subnetList))))%nat)
         (Dict.keys subnetList) 0%nat.

(** The summary lines of [main] for one lab: the types with a positive
    total, each with its total. *)
Definition lab_totals (h : Heap) (labMap : Dict.t (Dict.t ref))
  : list (string * nat) :=
  flat_map (fun '(type, subnetList) =>
    let total := type_total h type subnetList in
    if (0 <? total)%nat then [(type, total)] else [])
    labMap.

(** The report: lab -> type -> key -> list, the lists read in the store. *)
Definition resolve (cs : CsvState)
  : Dict.t (Dict.t (Dict.t (list string))) :=
  map (fun '(lab, byType) =>
    (lab, map (fun '(type, byKey) =>
            (type, map (fun '(k, r) => (k, deref (lists cs) r)) byKey))
          byType))
    (labMap cs).

Section Main.

Variable strptime : string -> result datetime.

(** The body of [for network in networkList]. *)
Definition network_step (OUI_MAP : OuiMap) (cache lab network : string)
    (st : Dict.t (Dict.t RetMap) * World)
  : result (Dict.t (Dict.t RetMap) * World) :=
  '(reservationBlockInfo, w) ←
     getInfoBlockForNetwork strptime OUI_MAP network cache true (snd st);
  let blockMap := if negb (Dict.mem lab (fst st))
                  then Dict.set lab [] (fst st) else fst st in
  byNetwork ← Dict.item lab blockMap;
  mret (Dict.set lab (Dict.set network reservationBlockInfo byNetwork)
                 blockMap, w).

(** What a run produces: the report, the CSV files and the printed summary
    (per lab, the lines "type - total"). *)
Record Output : Type := mkOutput {
  report : Dict.t (Dict.t (Dict.t (list string)));
  csv : list (string * list string);
  summary : list (string * list (string * nat))
}.

(** [main], on the parsed command line.  [None] is the early return taken
    when a credential is missing from the environment. *)
Definition main (networks_arg cache_arg oui_arg : string) (w : World)
  : result (option Output) :=
  match getenv w "ddi_username", getenv w "ddi_password" with
  | Some _, Some _ =>
      let networks := readMapFromJsonFile (network_files w networks_arg) in
      let OUI_MAP := readMapFromJsonFile (oui_files w oui_arg) in
      st ← for_each networks
             (fun '(lab, networkList) st =>
                for_each networkList (network_step OUI_MAP cache_arg lab) st)
             ([], w);
      retMap ← CreateCsvFiles (fst st);
      mret (Some (mkOutput
              (resolve retMap)
              (files retMap)
              (map (fun '(lab, labMap) => (lab, lab_totals (lists retMap) labMap))
                   (labMap retMap))))
  | _, _ => mret None
  end.

End Main.

(** *** The REST wrapper [get] *)

Definition ddiURL : string := "https://ipam.intel.com/mmws/api/".

(** One round of [for param, value in params.items()], on [paramList],
    which is [None] before the first round.  The values are the texts that
    the f-string puts in. *)
Definition paramList_step (paramList : option string)
    (entry : string * string) : option string :=
  let paramList := match paramList with
                   | None => "?"
                   | Some p => p ++ "&"
                   end%string in
  Some (paramList ++ (entry.1 ++ "=" ++ entry.2))%string.

(** The address that [get(api, **params)] requests and prints:
    [ddiURL + api + paramList].  With parameters the loop runs at least once,
    so [paramList] is a text when it ends. *)
Definition get_url (api : string) (params : Dict.t string) : string :=
  let paramList :=
    if (Dict.len params =? 0)%nat then ""%string
    else default ""%string (fold_left paramList_step params None) in
  (ddiURL ++ api ++ paramList)%string.

End MiceAndMenSpy.

(** ** dhcpspy.py *)

Module DhcpSpy.

(** A lease as the lease-file parser gives it.  [lease_start] and
    [lease_end] are [None] when the lease file has no such statement
    ([ends never]). *)
Record IscLease : Type := mkIscLease {
  lease_ethernet : string;
  lease_ip : string;
  lease_binding_state : string;
  lease_start : option datetime;
  lease_end : option datetime
}.

(** [LeaseObject]: the three attributes [getLeases] copies. *)
Record LeaseObject : Type := mkLeaseObject {
  ip : string;
  binding_state : string;
  start : option datetime
}.

#[global] Instance datetime_eq_dec : EqDecision datetime.
Proof. solve_decision. Defined.

#[global] Instance LeaseObject_eq_dec : EqDecision LeaseObject.
Proof. solve_decision. Defined.

(** The lease file at the time of one call of [getLeases]: [None] when the
    path is not a file, otherwise what [IscDhcpLeases.get()] and
    [IscDhcpLeases.get_current()] return for it. *)
Record LeaseFile : Type := mkLeaseFile {
  all_leases : list IscLease;
  currentLeases : gmap string IscLease
}.

(** [getLeases].  The first loop reads [lease.end.year] of every lease and
    so raises [AttributeError] on a lease without an end; its result is
    otherwise unused. *)
Definition getLeases (inputFile : option LeaseFile)
  : result (gmap string LeaseObject) :=
  match inputFile with
  | None => Raise FileNotFoundError
  | Some leases =>
      if forallb (fun lease => bool_decide (is_Some (lease_end lease)))
                 (all_leases leases)
      then mret ((fun lease => mkLeaseObject (lease_ip lease)
                                  (lease_binding_state lease)
                                  (lease_start lease))
                 <$> currentLeases leases)
      else Raise AttributeError
  end.

(** What [monitorLeases] does to the outside: calls of the handler
    [fnHandleUpdates(leaseMap, isDelta)], with the content of the map at the
    time of the call, and calls of [time.sleep(interval)].  Both calls are
    taken to return; a run in which one of them raises instead ends at that
    event.  The map object of a full call is the one the loop retains and
    later updates in place; the two handlers of the program do not keep
    it. *)
Inductive event : Type :=
  | Handle (leaseMap : gmap string LeaseObject) (isDelta : bool)
  | Sleep (interval : float).

(** Snapshots are finite maps.  Python visits the leases of a snapshot in
    the order of their insertion; the scan of a round visits every address
    once and reads and writes the maps at that address only, so its outcome
    is the same in every order (lemma [scan_in_any_order]). *)

(** How far a run has come: it has returned, it was left by an exception, or
    it is still in the loop, about to read the lease file again, holding
    [previousLeases]. *)
Inductive status : Type :=
  | Returned
  | Raised (e : exn)
  | Polling (previousLeases : gmap string LeaseObject).

(** The body of [for macAddr in dhcpLeases], on the pair
    [(updatedNewLeases, previousLeases)]. *)
Definition lease_step (macAddr : string) (lease : LeaseObject)
    (st : gmap string LeaseObject * gmap string LeaseObject)
  : gmap string LeaseObject * gmap string LeaseObject :=
  let '(updatedNewLeases, previousLeases) := st in
  if match previousLeases !! macAddr with
     | None => true
     | Some previous => bool_decide (start lease ≠ start previous)
     end
  then (<[macAddr := lease]> updatedNewLeases,
        <[macAddr := lease]> previousLeases)
  else st.

(** One round of [while True], after [getLeases] has returned [dhcpLeases]:
    the events of the round, and [previousLeases] for the next round, or
    [None] when the function returns. *)
Definition round (interval : float) (alwaysSendAllData : bool)
    (dhcpLeases previousLeases : gmap string LeaseObject)
  : list event * option (gmap string LeaseObject) :=
  if bool_decide (size previousLeases = 0%nat) || alwaysSendAllData then
    if PrimFloat.ltb interval 1 then ([Handle dhcpLeases false], None)
    else ([Handle dhcpLeases false; Sleep interval], Some dhcpLeases)
  else
    let st : gmap string LeaseObject * gmap string LeaseObject :=
      (∅, previousLeases) in
    if negb alwaysSendAllData then
      let st := if (0 <? size dhcpLeases)%nat
                then map_fold lease_step st dhcpLeases else st in
      ((if (0 <? size (fst st))%nat then [Handle (fst st) true] else [])
         ++ [Sleep interval],
       Some (snd st))
    else ([Handle dhcpLeases false; Sleep interval], Some (snd st)).

(** [monitorLeases], run against the successive states of the lease file,
    one per call of [getLeases].  The loop has no exit when [interval >= 1]:
    a finite sequence of file states gives the events up to the point where
    the next state would be read. *)
Fixpoint monitor_loop (polls : list (option LeaseFile)) (interval : float)
    (alwaysSendAllData : bool) (previousLeases : gmap string LeaseObject)
  : list event * status :=
  match polls with
  | [] => ([], Polling previousLeases)
  | inputFile :: polls' =>
      match getLeases inputFile with
      | Raise e => ([], Raised e)
      | Ok dhcpLeases =>
          match round interval alwaysSendAllData dhcpLeases previousLeases with
          | (events, None) => (events, Returned)
          | (events, Some previousLeases') =>
              let '(events', st) :=
                monitor_loop polls' interval alwaysSendAllData previousLeases' in
              (events ++ events', st)
          end
      end
  end.

Definition monitorLeases (polls : list (option LeaseFile)) (interval : float)
    (alwaysSendAllData : bool) : list event * status :=
  monitor_loop polls interval alwaysSendAllData ∅.

End DhcpSpy.

(** ** Definitions used to state the properties *)

Module Spec.

Import MiceAndMenSpy.

(** The value a classification result holds for an address under a
    category, if any: [retMap.get(category, {}).get(macAddr)]. *)
Definition recorded (category macAddr : string) (retMap : RetMap)
  : option IpamRecord :=
  match Dict.get category retMap with
  | Some inner => Dict.get macAddr inner
  | None => None
  end.

(** The classification result before any record is filed. *)
Definition initial_retMap : RetMap := Dict.set "All" [] (Dict.set "Other" [] []).

(** The two reserved categories are keys of the map. *)
Definition reserved_present (retMap : RetMap) : Prop :=
  Dict.mem "Other" retMap = true /\ Dict.mem "All" retMap = true.

(** A prefix is case-insensitively equal to the leading characters of the
    address, truncated to the prefix's own length. *)
Definition prefix_equal_ci (macID macAddr : string) : bool :=
  String.eqb (Str.lower macID)
             (Str.lower (Str.slice_to (String.length macID) macAddr)).

Section Category.

Variable strptime : string -> result datetime.
Variable OUI_MAP : OuiMap.

(** The first category, in the given order, one of whose prefixes matches. *)
Fixpoint first_matching (ouiTypes : list string) (macAddr : string)
  : option string :=
  match ouiTypes with
  | [] => None
  | ouiType :: ouiTypes' =>
      if existsb (fun macID => prefix_equal_ci macID macAddr)
                 (default [] (Dict.get ouiType OUI_MAP))
      then Some ouiType
      else first_matching ouiTypes' macAddr
  end.

(** The category of an address: the first matching one in the table's
    iteration order, ["Other"] when there is none. *)
Definition category_of (macAddr : string) : string :=
  default "Other" (first_matching (Dict.keys OUI_MAP) macAddr).

(** A record passes the checks of the record loop: it has a hardware
    address, its timestamp parses, and the timestamp is after [checkDate]. *)
Definition passes (checkDate : datetime) (record : IpamRecord) : bool :=
  (0 <? String.length (lastKnownClientIdentifier record))%nat &&
  match strptime (lastSeenDate record) with
  | Ok lastSeen => isRecent lastSeen checkDate
  | Raise _ => false
  end.

(** The last record of the sequence that passes and carries the address. *)
Definition pick (checkDate : datetime) (macAddr : string)
    (found : option IpamRecord) (record : IpamRecord) : option IpamRecord :=
  if passes checkDate record &&
     String.eqb (lastKnownClientIdentifier record) macAddr
  then Some record else found.

Definition latest (checkDate : datetime) (macAddr : string)
    (records : list IpamRecord) : option IpamRecord :=
  fold_left (pick checkDate macAddr) records None.

End Category.

(** The acquisition time minus twelve calendar months: the same month, day
    and time of day one year earlier, the day clipped to the length of that
    month (29 February becomes 28 February). *)
Definition twelve_months_before (now : datetime) : datetime :=
  mkdatetime (year now - 1) (month now)
             (Z.min (monthrange_days (year now - 1) (month now)) (day now))
             (hour now) (minute now) (second now) (microsecond now).

(** The address has been met in the lab: it is a key of [labMacs]. *)
Definition met_in_lab (macAddr : string) (st : LabState) : Prop :=
  Dict.mem macAddr (labMacs st) = true.

(** The address is a key of [subnetMap['Duplicates']]. *)
Definition listed_as_duplicate (macAddr : string)
    (subnetMap : Dict.t (Dict.t ref)) : Prop :=
  exists dups, Dict.get "Duplicates" subnetMap = Some dups /\
               Dict.mem macAddr dups = true.

(** Every list that the map holds under a category other than
    ["Duplicates"] starts with the name of its network. *)
Definition headed_by_network (h : Heap) (subnetMap : Dict.t (Dict.t ref))
  : Prop :=
  forall type bySubnet subnet r,
    type <> "Duplicates"%string ->
    Dict.get type subnetMap = Some bySubnet ->
    Dict.get subnet bySubnet = Some r ->
    exists addresses, h !! r = Some (subnet :: addresses).

(** From one store to a later one, a non-empty list keeps its first
    element. *)
Definition keeps_heads (h h' : Heap) : Prop :=
  forall r x l, h !! r = Some (x :: l) -> exists l', h' !! r = Some (x :: l').

(** What the rounds of the loops of [CreateCsvFiles] keep, from the store
    [h0] the lab started with. *)
Definition heads_invariant (h0 : Heap) (st : LabState) : Prop :=
  keeps_heads h0 (heap st) /\ headed_by_network (heap st) (subnetMap st).

(** The number of hardware addresses in the lists of one type of a lab: the
    elements after the first of each list. *)
Definition addresses_listed (h : Heap) (subnetList : Dict.t ref) : nat :=
  fold_left (fun total subnet =>
               (total + length (tail (deref h (default 0%nat
                                        (Dict.get subnet subnetList)))))%nat)
            (Dict.keys subnetList) 0%nat.

(** *** The rounds of [CreateCsvFiles]

    The lists that [CreateCsvFiles] builds for a lab are determined by the
    sequence of rounds of its innermost loop. *)

(** One round of the innermost loop: an address met on a network under a
    category, as [(subnet, type, macAddr)]. *)
Definition visit : Type := (string * string * string)%type.

(** The rounds of [for macAddr in blockMap[lab][subnet][type]]. *)
Definition visits_of_type (subnet : string) (info : RetMap) (type : string)
  : list visit :=
  map (fun macAddr => (subnet, type, macAddr))
      (Dict.keys (default [] (Dict.get type info))).

(** The rounds of [for type in blockMap[lab][subnet]]. *)
Definition visits_of_subnet (subnets : Dict.t RetMap) (subnet : string)
  : list visit :=
  let info := default [] (Dict.get subnet subnets) in
  flat_map (visits_of_type subnet info) (Dict.keys info).

(** The rounds of [for subnet in blockMap[lab]]. *)
Definition visits_of_lab (subnets : Dict.t RetMap) : list visit :=
  flat_map (visits_of_subnet subnets) (Dict.keys subnets).

(** The addresses met on a network under a category, in the order of the
    rounds. *)
Definition addresses_met (vs : list visit) (type subnet : string)
  : list string :=
  flat_map (fun '(subnet', type', macAddr) =>
              if String.eqb subnet' subnet && String.eqb type' type
              then [macAddr] else [])
           vs.

(** The networks an address was met on, one for each round that met it. *)
Definition networks_met (vs : list visit) (macAddr : string) : list string :=
  flat_map (fun '(subnet, _, macAddr') =>
              if String.eqb macAddr' macAddr then [subnet] else [])
           vs.

(** [d.get(k1, {}).get(k2)] *)
Definition get2 {V} (k1 k2 : string) (d : Dict.t (Dict.t V)) : option V :=
  match Dict.get k1 d with
  | Some inner => Dict.get k2 inner
  | None => None
  end.

(** [d.get(k1, {}).get(k2, {}).get(k3)] *)
Definition get3 {V} (k1 k2 k3 : string) (d : Dict.t (Dict.t (Dict.t V)))
  : option V :=
  match Dict.get k1 d with
  | Some inner => get2 k2 k3 inner
  | None => None
  end.

(** The two halves of [macAddr_step].  The first (lines 233-236) puts the
    address on the list of its network under the category, creating the
    list when the network is new there. *)
Definition file_address (subnet type macAddr : string)
    (subnetMap : Dict.t (Dict.t ref)) (heap : Heap)
  : result (Dict.t (Dict.t ref) * Heap) :=
  byType ← Dict.item type subnetMap;
  let '(subnetMap1, heap1) :=
    if negb (Dict.mem subnet byType) then
      let '(r, h) := new_list [subnet] heap in
      (Dict.set type (Dict.set subnet r byType) subnetMap, h)
    else (subnetMap, heap) in
  byType ← Dict.item type subnetMap1;
  r ← Dict.item subnet byType;
  mret (subnetMap1, list_append r macAddr heap1).

(** The second half (lines 238-244) puts the network on the list of the
    address, and enters that list under ["Duplicates"] when the address has
    been met before. *)
Definition note_network (subnet macAddr : string)
    (subnetMap1 : Dict.t (Dict.t ref)) (labMacs : Dict.t ref) (heap2 : Heap)
  : result LabState :=
  if Dict.mem macAddr labMacs then
    r ← Dict.item macAddr labMacs;
    let heap3 := list_append r subnet heap2 in
    dups ← Dict.item "Duplicates" subnetMap1;
    mret (mkLabState
            (Dict.set "Duplicates" (Dict.set macAddr r dups) subnetMap1)
            labMacs heap3)
  else
    let '(r, heap3) := new_list [] heap2 in
    let labMacs1 := Dict.set macAddr r labMacs in
    mret (mkLabState subnetMap1 labMacs1 (list_append r subnet heap3)).

(** What the loops of one lab keep, [vsL] being the rounds whose first half
    has run and [vsM] those whose second half has run, from the store [h0]
    the lab started with. *)

(** Under a category other than ["Duplicates"], a network has a list exactly
    when an address was met on it under the category; the list is a list of
    the lab and holds the network name and then the addresses met. *)
Definition lists_inv (h0 : Heap) (vsL : list visit)
    (subnetMap : Dict.t (Dict.t ref)) (h : Heap) : Prop :=
  forall type subnet, type <> "Duplicates"%string ->
    match get2 type subnet subnetMap with
    | Some r => length h0 <= r /\
                h !! r = Some (subnet :: addresses_met vsL type subnet) /\
                addresses_met vsL type subnet <> []
    | None => addresses_met vsL type subnet = []
    end.

(** An address has a list exactly when it was met; the list is a list of
    the lab and holds the networks it was met on. *)
Definition macs_inv (h0 : Heap) (vsM : list visit) (labMacs : Dict.t ref)
    (h : Heap) : Prop :=
  forall macAddr,
    match Dict.get macAddr labMacs with
    | Some r => length h0 <= r /\
                h !! r = Some (networks_met vsM macAddr) /\
                networks_met vsM macAddr <> []
    | None => networks_met vsM macAddr = []
    end.

(** ["Duplicates"] holds the list of every address met twice or more, and
    nothing else. *)
Definition dups_inv (vsM : list visit) (subnetMap : Dict.t (Dict.t ref))
    (labMacs : Dict.t ref) : Prop :=
  exists dups,
    Dict.get "Duplicates" subnetMap = Some dups /\
    forall macAddr,
      Dict.get macAddr dups =
      if (2 <=? length (networks_met vsM macAddr))%nat
      then Dict.get macAddr labMacs else None.

(** No list object is held twice, except under ["Duplicates"]. *)
Definition sep_inv (subnetMap : Dict.t (Dict.t ref)) (labMacs : Dict.t ref)
  : Prop :=
  (forall type subnet type' subnet' r,
     type <> "Duplicates"%string -> type' <> "Duplicates"%string ->
     get2 type subnet subnetMap = Some r ->
     get2 type' subnet' subnetMap = Some r ->
     type = type' /\ subnet = subnet') /\
  (forall macAddr macAddr' r,
     Dict.get macAddr labMacs = Some r -> Dict.get macAddr' labMacs = Some r ->
     macAddr = macAddr') /\
  (forall type subnet macAddr r,
     type <> "Duplicates"%string ->
     get2 type subnet subnetMap = Some r ->
     Dict.get macAddr labMacs = Some r -> False).

(** The lists of the store [h0] are in [h] as they were. *)
Definition base_inv (h0 h : Heap) : Prop :=
  forall r l, h0 !! r = Some l -> h !! r = Some l.

Definition lab_inv (h0 : Heap) (vsL vsM : list visit)
    (subnetMap : Dict.t (Dict.t ref)) (labMacs : Dict.t ref) (h : Heap)
  : Prop :=
  lists_inv h0 vsL subnetMap h /\ macs_inv h0 vsM labMacs h /\
  dups_inv vsM subnetMap labMacs /\ sep_inv subnetMap labMacs /\
  base_inv h0 h.

(** What the returned map says about one lab, read in the store [h], for
    the rounds [vs]: under a category, the list of a network; under
    ["Duplicates"], the list of an address. *)
Definition lab_report (h : Heap) (vs : list visit)
    (byType : Dict.t (Dict.t ref)) : Prop :=
  (forall type subnet, type <> "Duplicates"%string ->
     match get2 type subnet byType with
     | Some r => h !! r = Some (subnet :: addresses_met vs type subnet) /\
                 addresses_met vs type subnet <> []
     | None => addresses_met vs type subnet = []
     end) /\
  (forall macAddr,
     match get2 "Duplicates" macAddr byType with
     | Some r => h !! r = Some (networks_met vs macAddr) /\
                 2 <= length (networks_met vs macAddr)
     | None => length (networks_met vs macAddr) < 2
     end).

(** No classification result of the block map has a category called
    ["Duplicates"]. *)
Definition no_Duplicates_category (blockMap : Dict.t (Dict.t RetMap)) : Prop :=
  forall lab subnets subnet info,
    Dict.get lab blockMap = Some subnets ->
    Dict.get subnet subnets = Some info ->
    Dict.mem "Duplicates" info = false.

Import DhcpSpy.

(** A lease of the current snapshot is new or changed with respect to the
    previous snapshot: its address is absent there, or recorded there with
    another [start]. *)
Definition new_or_changed (previousLeases : gmap string LeaseObject)
    (macAddr : string) (lease : LeaseObject) : Prop :=
  previousLeases !! macAddr = None \/
  exists previous, previousLeases !! macAddr = Some previous /\
                   start lease <> start previous.

(** The two states of the delta engine, as the loop tells them apart: it
    keeps no state of its own and takes the retained snapshot for absent
    when it holds no lease ([len(previousLeases) == 0], line 128). *)
Inductive engine_state : Type :=
  | INITIAL
  | STEADY.

Definition state_of (previousLeases : gmap string LeaseObject)
  : engine_state :=
  if bool_decide (size previousLeases = 0%nat) then INITIAL else STEADY.

(** The scan of a round, visiting the leases of the current snapshot in a
    given order. *)
Definition scan_in_order (order : list (string * LeaseObject))
    (previousLeases : gmap string LeaseObject)
  : gmap string LeaseObject * gmap string LeaseObject :=
  fold_left (fun st entry => lease_step entry.1 entry.2 st) order
            (∅, previousLeases).

End Spec.

(** ** Sample data *)

Module Sample.

Import MiceAndMenSpy.
Local Open Scope Z_scope.

Definition digit (c : ascii) : option Z :=
  let n := nat_of_ascii c in
  if (48 <=? n)%nat && (n <=? 57)%nat then Some (Z.of_nat (n - 48)) else None.

Definition two_digits (a b : ascii) : option Z :=
  x ← digit a; y ← digit b; Some (10 * x + y).

Definition month_abbr : Dict.t Z :=
  [("jan", 1); ("feb", 2); ("mar", 3); ("apr", 4); ("may", 5); ("jun", 6);
   ("jul", 7); ("aug", 8); ("sep", 9); ("oct", 10); ("nov", 11); ("dec", 12)]%string.

(** [datetime.strptime(s, '%b %d, %Y %H:%M:%S')] on timestamps written with
    two-digit day and time fields, as in ["Jun 01, 2024 13:05:00"]; every
    other text is refused. *)
Definition strptime (s : string) : result datetime :=
  match list_ascii_of_string s with
  | [m1; m2; m3; sp1; d1; d2; comma; sp2; y1; y2; y3; y4; sp3;
     h1; h2; c1; mi1; mi2; c2; s1; s2] =>
      if String.eqb (string_of_list_ascii [sp1; comma; sp2; sp3; c1; c2])
                    " ,  ::"
      then
        match Dict.get (Str.lower (string_of_list_ascii [m1; m2; m3])) month_abbr,
              two_digits d1 d2, two_digits y1 y2, two_digits y3 y4,
              two_digits h1 h2, two_digits mi1 mi2, two_digits s1 s2 with
        | Some mo, Some d, Some yh, Some yl, Some h, Some mi, Some s =>
            let dt := mkdatetime (100 * yh + yl) mo d h mi s 0 in
            if validb dt then Ok dt else Raise ValueError
        | _, _, _, _, _, _, _ => Raise ValueError
        end
      else Raise ValueError
  | _ => Raise ValueError
  end.

(** A run with both credentials set, the given networks file, the given
    vendor table file, no cache files, a REST service that knows one range
    per network and answers with the given reservations, and a clock that
    stands still. *)
Definition world (networks : Dict.t (list string))
    (oui : loaded (Dict.t (list string)))
    (reservations : string -> list IpamRecord) (now : datetime) : World :=
  mkWorld (fun _ => Some "secret"%string)
    (fun _ => Loaded networks)
    (fun _ => oui)
    (fun _ => LoadError)
    (fun _ => LoadError)
    (fun network => Ok (mkRangeData (Some [Some network])))
    (fun rangeRef => Ok [("ipamRecords"%string, reservations rangeRef)])
    (fun _ => now)
    0%nat.

Definition X : string := "aa:bb:cc:00:00:01".
Definition N1 : string := "10.0.0.0/24".
Definition N2 : string := "10.0.1.0/24".

Definition now : datetime := mkdatetime 2024 7 1 12 0 0 0.

Definition seen_recently (macAddr : string) : IpamRecord :=
  mkIpamRecord macAddr "Jun 01, 2024 00:00:00".

Definition seen_long_ago (macAddr : string) : IpamRecord :=
  mkIpamRecord macAddr "Jun 01, 2020 00:00:00".

(** One lab with one network, on which [X] was seen recently. *)
Definition one_network : World :=
  world [("lab1"%string, [N1])] LoadError (fun _ => [seen_recently X]) now.

(** One lab with two networks, on both of which [X] was seen recently. *)
Definition two_networks : World :=
  world [("lab1"%string, [N1; N2])] LoadError (fun _ => [seen_recently X]) now.

(** A vendor table with two categories; the second prefix of ["PDU"] is in
    lower case and its first prefix is shorter than those of ["VM"]. *)
Definition OUI_MAP : OuiMap :=
  [("VM", ["00:50:56"; "00:0C:29"]); ("PDU", ["00:50"; "aa:bb:cc"])]%string.

(** What [getInfoBlockForNetwork] returns for a network on which [X] alone
    was seen recently, with an empty vendor table; and the block map of one
    lab with two such networks. *)
Definition info_X : RetMap :=
  [("Other", [(X, seen_recently X)]); ("All", [(X, seen_recently X)])]%string.

Definition blockMap_two : Dict.t (Dict.t RetMap) :=
  [("lab1"%string, [(N1, info_X); (N2, info_X)])].

(** A world in which the range lookup of a network fails: the service
    answers without any range. *)
Definition no_range : World :=
  mkWorld (fun _ => Some "secret"%string) (fun _ => LoadError)
          (fun _ => LoadError) (fun _ => LoadError) (fun _ => LoadError)
          (fun _ => Ok (mkRangeData (Some [])))
          (fun _ => Raise SystemExit) (fun _ => now) 0%nat.

(** A later run for [N1]: the cache file holds the info block of the
    network and the reservation file holds its records, as an earlier run
    with the local cache wrote them; the service is not reachable. *)
Definition cached : World :=
  mkWorld (fun _ => Some "secret"%string) (fun _ => LoadError)
          (fun _ => LoadError)
          (fun f => if String.eqb f "cache.json"
                    then Loaded [(N1, mkRangeData (Some [Some N1]))]
                    else LoadError)
          (fun f => if String.eqb f "10.0.0.0_24.json"
                    then Loaded [("ipamRecords"%string, [seen_recently X])]
                    else LoadError)
          (fun _ => Raise SystemExit) (fun _ => Raise SystemExit)
          (fun _ => now) 0%nat.

(** Lease files: address [A] alone, then [A] unchanged with a new address
    [B], then [A] with another IP address and binding state but the same
    start. *)
Definition t1 : datetime := mkdatetime 2024 6 30 8 0 0 0.
Definition t2 : datetime := mkdatetime 2024 7 1 9 30 0 0.

Definition lease_A : DhcpSpy.IscLease :=
  DhcpSpy.mkIscLease "aa:aa:aa:00:00:01" "10.0.0.11" "active" (Some t1) (Some t2).
Definition lease_B : DhcpSpy.IscLease :=
  DhcpSpy.mkIscLease "bb:bb:bb:00:00:02" "10.0.0.12" "active" (Some t2) (Some t2).
Definition lease_A_moved : DhcpSpy.IscLease :=
  DhcpSpy.mkIscLease "aa:aa:aa:00:00:01" "10.0.0.99" "free" (Some t1) (Some t2).

Definition file_A : DhcpSpy.LeaseFile :=
  DhcpSpy.mkLeaseFile [lease_A] {[ "aa:aa:aa:00:00:01"%string := lease_A ]}.
Definition file_A_B : DhcpSpy.LeaseFile :=
  DhcpSpy.mkLeaseFile [lease_A; lease_B]
    (<[ "bb:bb:bb:00:00:02"%string := lease_B ]>
       {[ "aa:aa:aa:00:00:01"%string := lease_A ]}).
Definition file_A_moved : DhcpSpy.LeaseFile :=
  DhcpSpy.mkLeaseFile [lease_A; lease_A_moved]
    {[ "aa:aa:aa:00:00:01"%string := lease_A_moved ]}.

Definition object_A : DhcpSpy.LeaseObject :=
  DhcpSpy.mkLeaseObject "10.0.0.11" "active" (Some t1).
Definition object_B : DhcpSpy.LeaseObject :=
  DhcpSpy.mkLeaseObject "10.0.0.12" "active" (Some t2).
Definition object_A_moved : DhcpSpy.LeaseObject :=
  DhcpSpy.mkLeaseObject "10.0.0.99" "free" (Some t1).

Definition file_empty : DhcpSpy.LeaseFile := DhcpSpy.mkLeaseFile [] ∅.

(** A lease file in which the lease of a second address never ends. *)
Definition lease_C : DhcpSpy.IscLease :=
  DhcpSpy.mkIscLease "cc:cc:cc:00:00:03" "10.0.0.13" "active" (Some t1) None.
Definition file_A_C : DhcpSpy.LeaseFile :=
  DhcpSpy.mkLeaseFile [lease_A; lease_C]
    (<[ "cc:cc:cc:00:00:03"%string := lease_C ]>
       {[ "aa:aa:aa:00:00:01"%string := lease_A ]}).

Definition snapshot_A : gmap string DhcpSpy.LeaseObject :=
  {[ "aa:aa:aa:00:00:01"%string := object_A ]}.
Definition snapshot_A_B : gmap string DhcpSpy.LeaseObject :=
  <[ "bb:bb:bb:00:00:02"%string := object_B ]> snapshot_A.
Definition snapshot_A_moved : gmap string DhcpSpy.LeaseObject :=
  {[ "aa:aa:aa:00:00:01"%string := object_A_moved ]}.

End Sample.

(** ** Properties of the runtime model *)

(** *** Datetimes: field-wise comparison agrees with the time line *)

Section DateTimeFacts.
Local Open Scope Z_scope.

Lemma isleap_cases y :
  (isleap y = true /\ (y mod 4 = 0 /\ (y mod 100 <> 0 \/ y mod 400 = 0))) \/
  (isleap y = false /\ (y mod 4 <> 0 \/ (y mod 100 = 0 /\ y mod 400 <> 0))).
Proof.
  unfold isleap.
  destruct (Z.eqb_spec (y mod 4) 0), (Z.eqb_spec (y mod 100) 0),
    (Z.eqb_spec (y mod 400) 0); simpl; lia.
Qed.

Lemma days_before_year_succ y :
  days_before_year (y + 1) =
  days_before_year y + (if isleap y then 366 else 365).
Proof.
  unfold days_before_year.
  destruct (isleap_cases y) as [[-> H]|[-> H]];
    Z.div_mod_to_equations; lia.
Qed.

Lemma days_before_year_mono y1 y2 :
  y1 <= y2 -> days_before_year y1 <= days_before_year y2.
Proof.
  unfold days_before_year. intros. Z.div_mod_to_equations. lia.
Qed.

Ltac case_month m :=
  let H := fresh in
  assert (H : m = 1 \/ m = 2 \/ m = 3 \/ m = 4 \/ m = 5 \/ m = 6 \/ m = 7 \/
              m = 8 \/ m = 9 \/ m = 10 \/ m = 11 \/ m = 12) by lia;
  destruct H as [H|[H|[H|[H|[H|[H|[H|[H|[H|[H|[H|H]]]]]]]]]]]; subst m.

Lemma day_of_year_bounds y m d :
  1 <= m <= 12 -> 1 <= d <= monthrange_days y m ->
  1 <= days_before_month y m + d <= (if isleap y then 366 else 365).
Proof.
  intros Hm Hd. case_month m; simpl in *; destruct (isleap y); lia.
Qed.

Lemma day_of_year_month_mono y m1 d1 m2 d2 :
  1 <= m1 -> m1 < m2 -> m2 <= 12 ->
  d1 <= monthrange_days y m1 -> 1 <= d2 ->
  days_before_month y m1 + d1 < days_before_month y m2 + d2.
Proof.
  intros H1 H12 H2 Hd1 Hd2.
  case_month m1; case_month m2; simpl in *; try lia; destruct (isleap y); lia.
Qed.

Lemma valid_fields d :
  valid d ->
  (1 <= year d <= 9999) /\ (1 <= month d <= 12) /\
  (1 <= day d <= monthrange_days (year d) (month d)) /\
  (0 <= hour d < 24) /\ (0 <= minute d < 60) /\ (0 <= second d < 60) /\
  (0 <= microsecond d < 1000000).
Proof.
  unfold valid, validb. rewrite !andb_true_iff. lia.
Qed.

Lemma toordinal_year_lt a b :
  valid a -> valid b -> year a < year b -> toordinal a < toordinal b.
Proof.
  intros Ha Hb Hlt.
  apply valid_fields in Ha as (_ & Hma & Hda & _).
  apply valid_fields in Hb as (_ & Hmb & Hdb & _).
  unfold toordinal.
  pose proof (day_of_year_bounds _ _ _ Hma Hda) as Ba.
  pose proof (day_of_year_bounds _ _ _ Hmb Hdb) as Bb.
  pose proof (days_before_year_succ (year a)) as Hs.
  pose proof (days_before_year_mono (year a + 1) (year b) ltac:(lia)).
  destruct (isleap (year a)); lia.
Qed.

Lemma toordinal_month_lt a b :
  valid a -> valid b -> year a = year b -> month a < month b ->
  toordinal a < toordinal b.
Proof.
  intros Ha Hb Hy Hlt.
  apply valid_fields in Ha as (_ & Hma & Hda & _).
  apply valid_fields in Hb as (_ & Hmb & Hdb & _).
  unfold toordinal. rewrite Hy in *.
  pose proof (day_of_year_month_mono (year b) (month a) (day a) (month b) (day b)).
  lia.
Qed.

Lemma cmp_to_micros a b :
  valid a -> valid b -> cmp a b = (to_micros a ?= to_micros b).
Proof.
  intros Ha Hb.
  pose proof (valid_fields _ Ha) as (_ & _ & _ & Hha & Hmia & Hsa & Hua).
  pose proof (valid_fields _ Hb) as (_ & _ & _ & Hhb & Hmib & Hsb & Hub).
  unfold cmp.
  destruct (Z.compare_spec (year a) (year b)) as [Hy|Hy|Hy].
  2: { pose proof (toordinal_year_lt a b Ha Hb Hy). symmetry.
       apply Z.compare_lt_iff. unfold to_micros. lia. }
  2: { pose proof (toordinal_year_lt b a Hb Ha Hy). symmetry.
       apply Z.compare_gt_iff. unfold to_micros. lia. }
  destruct (Z.compare_spec (month a) (month b)) as [Hm|Hm|Hm].
  2: { pose proof (toordinal_month_lt a b Ha Hb Hy Hm). symmetry.
       apply Z.compare_lt_iff. unfold to_micros. lia. }
  2: { pose proof (toordinal_month_lt b a Hb Ha (eq_sym Hy) Hm). symmetry.
       apply Z.compare_gt_iff. unfold to_micros. lia. }
  assert (Hord : toordinal a - toordinal b = day a - day b).
  { unfold toordinal. rewrite Hy, Hm. lia. }
  destruct (Z.compare_spec (day a) (day b)) as [Hd|Hd|Hd].
  2: { symmetry. apply Z.compare_lt_iff. unfold to_micros. lia. }
  2: { symmetry. apply Z.compare_gt_iff. unfold to_micros. lia. }
  destruct (Z.compare_spec (hour a) (hour b)) as [Hh|Hh|Hh].
  2: { symmetry. apply Z.compare_lt_iff. unfold to_micros. lia. }
  2: { symmetry. apply Z.compare_gt_iff. unfold to_micros. lia. }
  destruct (Z.compare_spec (minute a) (minute b)) as [Hmi|Hmi|Hmi].
  2: { symmetry. apply Z.compare_lt_iff. unfold to_micros. lia. }
  2: { symmetry. apply Z.compare_gt_iff. unfold to_micros. lia. }
  destruct (Z.compare_spec (second a) (second b)) as [Hs|Hs|Hs].
  2: { symmetry. apply Z.compare_lt_iff. unfold to_micros. lia. }
  2: { symmetry. apply Z.compare_gt_iff. unfold to_micros. lia. }
  unfold to_micros.
  replace (toordinal a) with (toordinal b) by lia.
  rewrite Hh, Hmi, Hs.
  destruct (Z.compare_spec (microsecond a) (microsecond b)); symmetry;
    [apply Z.compare_eq_iff|apply Z.compare_lt_iff|apply Z.compare_gt_iff]; lia.
Qed.

Lemma gt_to_micros a b :
  valid a -> valid b -> (gt a b = true <-> to_micros b < to_micros a).
Proof.
  intros Ha Hb. unfold gt. rewrite (cmp_to_micros a b Ha Hb).
  destruct (Z.compare_spec (to_micros a) (to_micros b)); split; intros; try lia; try discriminate; reflexivity.
Qed.
End DateTimeFacts.

(** *** Strings: the membership test of the classifier *)

Section StrFacts.

Lemma length_lower s : String.length (Str.lower s) = String.length s.
Proof. induction s as [|c s IH]; simpl; congruence. Qed.

Lemma length_slice_to n s : String.length (Str.slice_to n s) <= n.
Proof.
  revert s; induction n as [|n IH]; intros [|c s]; simpl; try lia.
  specialize (IH s). lia.
Qed.

Lemma startswith_longer p s :
  String.length s < String.length p -> Str.startswith p s = false.
Proof.
  revert s; induction p as [|a p IH]; intros [|b s]; simpl; try lia; auto.
  intros H. rewrite IH by lia. apply andb_false_r.
Qed.

Lemma startswith_same_length p s :
  String.length s <= String.length p -> Str.startswith p s = String.eqb p s.
Proof.
  revert s; induction p as [|a p IH]; intros [|b s]; simpl; try lia; auto.
  intros H. rewrite IH by lia. reflexivity.
Qed.

Lemma contains_longer needle hay :
  String.length hay < String.length needle -> Str.contains needle hay = false.
Proof.
  induction hay as [|b hay IH]; simpl; intros H.
  - rewrite startswith_longer by (simpl; lia). reflexivity.
  - rewrite startswith_longer by (simpl; lia). rewrite IH by lia. reflexivity.
Qed.

(** In a text no longer than the needle, the needle occurs only as the
    whole text. *)
Lemma contains_same_length needle hay :
  String.length hay <= String.length needle ->
  Str.contains needle hay = String.eqb needle hay.
Proof.
  destruct hay as [|b hay]; simpl; intros H.
  - rewrite startswith_same_length by (simpl; lia). apply orb_false_r.
  - rewrite contains_longer by lia.
    rewrite startswith_same_length by (simpl; lia). apply orb_false_r.
Qed.

Lemma macID_matches_prefix_equal macID macAddr :
  MiceAndMenSpy.macID_matches macID macAddr = Spec.prefix_equal_ci macID macAddr.
Proof.
  unfold MiceAndMenSpy.macID_matches, Spec.prefix_equal_ci.
  apply contains_same_length.
  rewrite !length_lower. apply length_slice_to.
Qed.

End StrFacts.

(** *** Dictionaries *)

Section DictFacts.

Context {V : Type}.
Implicit Types (d : Dict.t V) (k : string) (v : V).

Lemma get_set_eq k v d : Dict.get k (Dict.set k v d) = Some v.
Proof.
  induction d as [|[k' v'] d IH]; simpl.
  - rewrite String.eqb_refl. reflexivity.
  - destruct (String.eqb_spec k k') as [->|Hne]; simpl.
    + rewrite String.eqb_refl. reflexivity.
    + destruct (String.eqb_spec k k'); [contradiction|exact IH].
Qed.

Lemma get_set_ne k k' v d :
  k <> k' -> Dict.get k' (Dict.set k v d) = Dict.get k' d.
Proof.
  intros Hne. induction d as [|[k1 v1] d IH]; simpl.
  - destruct (String.eqb_spec k' k); [congruence|reflexivity].
  - destruct (String.eqb_spec k k1) as [->|Hk]; simpl.
    + destruct (String.eqb_spec k' k1); [congruence|reflexivity].
    + destruct (String.eqb_spec k' k1); [reflexivity|exact IH].
Qed.

Lemma get_set k k' v d :
  Dict.get k' (Dict.set k v d) =
  if String.eqb k' k then Some v else Dict.get k' d.
Proof.
  destruct (String.eqb_spec k' k) as [->|Hne].
  - apply get_set_eq.
  - apply get_set_ne. congruence.
Qed.

Lemma keys_set_present k v d :
  Dict.mem k d = true -> Dict.keys (Dict.set k v d) = Dict.keys d.
Proof.
  unfold Dict.mem, Dict.keys.
  induction d as [|[k' v'] d IH]; simpl; [discriminate|].
  destruct (String.eqb_spec k k') as [->|Hne]; simpl; intros H.
  - reflexivity.
  - f_equal. apply IH, H.
Qed.

Lemma mem_set k k' v d :
  Dict.mem k' (Dict.set k v d) = String.eqb k' k || Dict.mem k' d.
Proof.
  unfold Dict.mem. rewrite get_set.
  destruct (String.eqb k' k); reflexivity.
Qed.

Lemma get_of_key k d : In k (Dict.keys d) -> exists v, Dict.get k d = Some v.
Proof.
  unfold Dict.keys. induction d as [|[k' v'] d IH]; simpl; [tauto|].
  intros [->|Hin].
  - rewrite String.eqb_refl. eauto.
  - destruct (String.eqb k k'); eauto.
Qed.

End DictFacts.

(** *** Classification of one record *)

Section ClassificationFacts.

Import MiceAndMenSpy Spec.

Variable OUI_MAP : OuiMap.

Implicit Types (retMap : RetMap) (record : IpamRecord).

Lemma recorded_set_new category retMap c m :
  Dict.mem category retMap = false ->
  recorded c m (Dict.set category [] retMap) = recorded c m retMap.
Proof.
  unfold Dict.mem, recorded. intros Hnew. rewrite get_set.
  destruct (String.eqb_spec c category) as [->|]; [|reflexivity].
  destruct (Dict.get category retMap); [discriminate|reflexivity].
Qed.

Lemma store_spec category macAddr record retMap :
  Dict.mem category retMap = true ->
  exists retMap',
    store category macAddr record retMap = Ok retMap' /\
    Dict.keys retMap' = Dict.keys retMap /\
    (forall k, Dict.mem k retMap' = Dict.mem k retMap) /\
    forall c m, recorded c m retMap' =
                if String.eqb c category && String.eqb m macAddr
                then Some record else recorded c m retMap.
Proof.
  intros Hmem. unfold store, Dict.item.
  pose proof Hmem as Hget. unfold Dict.mem in Hget.
  destruct (Dict.get category retMap) as [inner|] eqn:Hinner; [|discriminate].
  eexists; split; [reflexivity|]. split; [|split].
  - apply keys_set_present, Hmem.
  - intros k. rewrite mem_set.
    destruct (String.eqb_spec k category) as [->|]; simpl; congruence.
  - intros c m. unfold recorded. rewrite get_set.
    destruct (String.eqb_spec c category) as [->|]; simpl; [|reflexivity].
    rewrite Hinner, get_set. reflexivity.
Qed.

Lemma macID_loop_spec macIDs ouiType macAddr record retMap found :
  Dict.mem ouiType retMap = true ->
  let hit := existsb (fun macID => prefix_equal_ci macID macAddr) macIDs in
  exists retMap',
    macID_loop macIDs ouiType macAddr record (retMap, found)
      = Ok (retMap', found || hit) /\
    Dict.keys retMap' = Dict.keys retMap /\
    (forall k, Dict.mem k retMap' = Dict.mem k retMap) /\
    forall c m, recorded c m retMap' =
                if hit && (String.eqb c ouiType && String.eqb m macAddr)
                then Some record else recorded c m retMap.
Proof.
  revert retMap found.
  induction macIDs as [|macID macIDs IH]; intros retMap found Hmem; simpl.
  - exists retMap. rewrite orb_false_r. auto.
  - rewrite macID_matches_prefix_equal.
    destruct (prefix_equal_ci macID macAddr) eqn:Hhit; simpl.
    + destruct (store_spec ouiType macAddr record retMap Hmem)
        as (retMap1 & -> & Hkeys1 & Hmem1 & Hrec1). simpl.
      destruct (IH retMap1 true) as (retMap' & Hrun & Hkeys & Hmem' & Hrec).
      { rewrite Hmem1. exact Hmem. }
      exists retMap'. rewrite Hrun. rewrite orb_true_r. simpl.
      split; [reflexivity|]. split; [congruence|]. split.
      * intros k. rewrite Hmem'. apply Hmem1.
      * intros c m. rewrite Hrec, Hrec1.
        destruct (existsb _ macIDs), (String.eqb c ouiType && String.eqb m macAddr);
          reflexivity.
    + apply IH, Hmem.
Qed.

Lemma ouiType_loop_spec ouiTypes macAddr record retMap found :
  (forall ouiType, In ouiType ouiTypes -> In ouiType (Dict.keys OUI_MAP)) ->
  let first := first_matching OUI_MAP ouiTypes macAddr in
  exists retMap',
    ouiType_loop OUI_MAP ouiTypes macAddr record (retMap, found)
      = Ok (retMap', found || bool_decide (is_Some first)) /\
    (forall k, Dict.mem k retMap = true -> Dict.mem k retMap' = true) /\
    (forall k, Dict.mem k retMap' = true ->
               Dict.mem k retMap = true \/ In k ouiTypes) /\
    forall c m, recorded c m retMap' =
                if negb found && bool_decide (first = Some c) && String.eqb m macAddr
                then Some record else recorded c m retMap.
Proof.
  revert retMap found.
  induction ouiTypes as [|ouiType ouiTypes IH]; intros retMap found Hkeys; simpl.
  - exists retMap. rewrite orb_false_r, andb_false_r. simpl. tauto.
  - set (retMap1 := if Dict.mem ouiType retMap then retMap
                    else Dict.set ouiType [] retMap).
    assert (Hmem1 : Dict.mem ouiType retMap1 = true).
    { subst retMap1. destruct (Dict.mem ouiType retMap) eqn:E; [exact E|].
      rewrite mem_set, String.eqb_refl. reflexivity. }
    assert (Hmono1 : forall k, Dict.mem k retMap = true -> Dict.mem k retMap1 = true).
    { subst retMap1. intros k Hk. destruct (Dict.mem ouiType retMap); [exact Hk|].
      rewrite mem_set, Hk. apply orb_true_r. }
    assert (Hback1 : forall k, Dict.mem k retMap1 = true ->
                               Dict.mem k retMap = true \/ k = ouiType).
    { subst retMap1. intros k Hk. destruct (Dict.mem ouiType retMap); [auto|].
      rewrite mem_set in Hk. destruct (String.eqb_spec k ouiType); auto. }
    assert (Hrec1 : forall c m, recorded c m retMap1 = recorded c m retMap).
    { subst retMap1. intros c m. destruct (Dict.mem ouiType retMap) eqn:E;
        [reflexivity|]. apply recorded_set_new, E. }
    assert (Hkeys' : forall t, In t ouiTypes -> In t (Dict.keys OUI_MAP)).
    { intros t Ht. apply Hkeys. right. exact Ht. }
    destruct found; simpl.
    + destruct (IH retMap1 true Hkeys') as (retMap' & Hrun & Hmono & Hback & Hrec).
      exists retMap'. rewrite Hrun. simpl. split; [reflexivity|].
      split; [auto|]. split.
      * intros k Hk. destruct (Hback k Hk) as [H|H]; [|auto].
        destruct (Hback1 k H); auto.
      * intros c m. rewrite Hrec. simpl. apply Hrec1.
    + destruct (get_of_key ouiType OUI_MAP) as [macIDs Hget].
      { apply Hkeys. left. reflexivity. }
      unfold Dict.item. rewrite Hget. simpl.
      destruct (macID_loop_spec macIDs ouiType macAddr record retMap1 false Hmem1)
        as (retMap2 & -> & _ & Hmem2 & Hrec2). simpl.
      destruct (IH retMap2 (existsb (fun macID => prefix_equal_ci macID macAddr) macIDs) Hkeys')
        as (retMap' & Hrun & Hmono & Hback & Hrec).
      exists retMap'. rewrite Hrun.
      destruct (existsb _ macIDs) eqn:Hhit; simpl in *.
      * split; [reflexivity|].
        split; [intros k Hk; apply Hmono; rewrite Hmem2; auto|]. split.
        { intros k Hk. destruct (Hback k Hk) as [H|H]; [|auto].
          rewrite Hmem2 in H. destruct (Hback1 k H); auto. }
        intros c m. rewrite Hrec, Hrec2, Hrec1.
        destruct (String.eqb_spec c ouiType) as [->|Hne]; simpl.
        -- rewrite bool_decide_eq_true_2 by reflexivity. reflexivity.
        -- rewrite bool_decide_eq_false_2 by congruence. reflexivity.
      * split; [reflexivity|].
        split; [intros k Hk; apply Hmono; rewrite Hmem2; auto|]. split.
        { intros k Hk. destruct (Hback k Hk) as [H|H]; [|auto].
          rewrite Hmem2 in H. destruct (Hback1 k H); auto. }
        intros c m. rewrite Hrec, Hrec2, Hrec1. reflexivity.
Qed.

(** Filing one record never raises on a map with the reserved categories,
    and writes the record under its category and under ["All"] only. *)
Lemma classify_record_spec record retMap :
  reserved_present retMap ->
  let macAddr := lastKnownClientIdentifier record in
  exists retMap',
    classify_record OUI_MAP record retMap = Ok retMap' /\
    reserved_present retMap' /\
    (forall k, Dict.mem k retMap' = true ->
               Dict.mem k retMap = true \/ In k (Dict.keys OUI_MAP)) /\
    forall c m, recorded c m retMap' =
                if String.eqb m macAddr &&
                   (String.eqb c (category_of OUI_MAP macAddr) || String.eqb c "All")
                then Some record else recorded c m retMap.
Proof.
  intros [HOther HAll] macAddr. unfold classify_record. fold macAddr.
  destruct (ouiType_loop_spec (Dict.keys OUI_MAP) macAddr record retMap false)
    as (retMap1 & -> & Hmono1 & Hback1 & Hrec1); [auto|]. simpl.
  unfold category_of.
  destruct (first_matching OUI_MAP (Dict.keys OUI_MAP) macAddr)
    as [category|] eqn:Hfirst; simpl.
  - destruct (store_spec "All" macAddr record retMap1 (Hmono1 _ HAll))
      as (retMap' & -> & _ & Hmem' & Hrec').
    exists retMap'. split; [reflexivity|]. split; [|split].
    + split; rewrite Hmem'; auto.
    + intros k Hk. rewrite Hmem' in Hk. auto.
    + intros c m. rewrite Hrec', Hrec1.
      destruct (String.eqb_spec m macAddr) as [->|]; simpl;
        [|rewrite !andb_false_r; reflexivity].
      rewrite !andb_true_r.
      destruct (String.eqb_spec c "All") as [->|]; simpl;
        [rewrite orb_true_r; reflexivity|]. rewrite orb_false_r.
      destruct (String.eqb_spec c category) as [->|].
      * rewrite bool_decide_eq_true_2 by reflexivity. reflexivity.
      * rewrite bool_decide_eq_false_2 by congruence. reflexivity.
  - destruct (store_spec "Other" macAddr record retMap1 (Hmono1 _ HOther))
      as (retMap2 & -> & _ & Hmem2 & Hrec2). simpl.
    destruct (store_spec "All" macAddr record retMap2)
      as (retMap' & -> & _ & Hmem' & Hrec').
    { rewrite Hmem2. auto. }
    exists retMap'. split; [reflexivity|]. split; [|split].
    + split; rewrite Hmem', Hmem2; auto.
    + intros k Hk. rewrite Hmem', Hmem2 in Hk. auto.
    + intros c m. rewrite Hrec', Hrec2, Hrec1.
      rewrite bool_decide_eq_false_2 by discriminate.
      destruct (String.eqb_spec m macAddr) as [->|]; simpl;
        [|rewrite !andb_false_r; reflexivity].
      rewrite !andb_true_r.
      destruct (String.eqb c "All"), (String.eqb c "Other"); reflexivity.
Qed.

End ClassificationFacts.

(** *** The record loop *)

Section RecordLoopFacts.

Import MiceAndMenSpy Spec.

Variable strptime : string -> result datetime.
Variable OUI_MAP : OuiMap.
Variable checkDate : datetime.

Implicit Types (retMap : RetMap) (record : IpamRecord).

Lemma reserved_present_initial : reserved_present initial_retMap.
Proof. split; reflexivity. Qed.

(** A returned map is the initial one, on the early return, or the outcome
    of the record loop on the initial map. *)
Lemma getInfoBlockForNetwork_runs_records_loop
    networkSubnet cacheFile useLocalReservationCache w w' retMap :
  getInfoBlockForNetwork strptime OUI_MAP networkSubnet cacheFile
    useLocalReservationCache w = Ok (retMap, w') ->
  retMap = initial_retMap \/
  exists records,
    records_loop strptime OUI_MAP
      (twelve_months_before (clock w (ticks w))) records initial_retMap
    = Ok retMap.
Proof.
  unfold getInfoBlockForNetwork. simpl.
  destruct (checkDate_of _) as [now|e] eqn:Hnow; simpl; [|discriminate].
  assert (now = twelve_months_before (clock w (ticks w))) as ->.
  { revert Hnow. unfold checkDate_of.
    change (relativedelta_months 12) with (mkrelativedelta 1 0).
    unfold DateTime.sub, radd, twelve_months_before. simpl.
    destruct (_ && _); [|discriminate]. intros [= <-]. reflexivity. }
  destruct (read_rangeData _ _ _ _) as [[rangeData w1]|e]; simpl; [|discriminate].
  destruct (rangeRef_of rangeData) as [rangeRef|].
  - destruct (read_respData _ _ _ _) as [[respData w2]|e]; simpl; [|discriminate].
    destruct (Dict.item "ipamRecords" respData) as [records|e]; simpl;
      [|discriminate].
    destruct (records_loop strptime OUI_MAP _ records _)
      as [retMap1|e] eqn:Hloop; simpl; [|discriminate].
    intros [= <- <-]. right. exists records. exact Hloop.
  - intros [= <- <-]. left. reflexivity.
Qed.

(** A record that passes the checks is filed; any other record that does not
    stop the loop leaves the map as it is. *)
Lemma process_record_spec record retMap retMap' :
  reserved_present retMap ->
  process_record strptime OUI_MAP checkDate record retMap = Ok retMap' ->
  if passes strptime checkDate record
  then classify_record OUI_MAP record retMap = Ok retMap'
  else retMap' = retMap.
Proof.
  intros _. unfold process_record, passes.
  destruct (0 <? String.length (lastKnownClientIdentifier record))%nat; simpl.
  - destruct (strptime (lastSeenDate record)) as [lastSeen|e]; simpl;
      [|discriminate].
    destruct (isRecent lastSeen checkDate); [auto|]. intros [= <-]. reflexivity.
  - intros [= <-]. reflexivity.
Qed.

Lemma fold_pick macAddr records found :
  fold_left (pick strptime checkDate macAddr) records found =
  match fold_left (pick strptime checkDate macAddr) records None with
  | Some record => Some record
  | None => found
  end.
Proof.
  revert found. induction records as [|record records IH]; intros found; simpl.
  - reflexivity.
  - rewrite (IH (pick strptime checkDate macAddr found record)),
            (IH (pick strptime checkDate macAddr None record)).
    destruct (fold_left (pick strptime checkDate macAddr) records None); [reflexivity|].
    unfold pick. destruct (_ && _); reflexivity.
Qed.

Lemma latest_cons macAddr record records :
  latest strptime checkDate macAddr (record :: records) =
  match latest strptime checkDate macAddr records with
  | Some later => Some later
  | None => pick strptime checkDate macAddr None record
  end.
Proof. unfold latest. simpl. apply (fold_pick macAddr records). Qed.

Lemma latest_Some macAddr records stored :
  latest strptime checkDate macAddr records = Some stored ->
  In stored records /\ passes strptime checkDate stored = true /\
  lastKnownClientIdentifier stored = macAddr.
Proof.
  induction records as [|record records IH]; [discriminate|].
  rewrite latest_cons.
  destruct (latest strptime checkDate macAddr records) as [later|].
  - intros [= <-]. destruct IH as (? & ? & ?); [reflexivity|]. simpl. auto.
  - unfold pick.
    destruct (passes strptime checkDate record) eqn:Hp; simpl; [|discriminate].
    destruct (String.eqb_spec (lastKnownClientIdentifier record) macAddr);
      [|discriminate].
    intros [= <-]. simpl. auto.
Qed.

Lemma latest_of_passing record records :
  In record records -> passes strptime checkDate record = true ->
  is_Some (latest strptime checkDate (lastKnownClientIdentifier record) records).
Proof.
  induction records as [|record' records IH]; simpl; [tauto|].
  intros Hin Hp. rewrite latest_cons.
  destruct (latest strptime checkDate _ records) as [later|] eqn:Hl; [eauto|].
  destruct Hin as [->|Hin].
  - unfold pick. rewrite Hp, String.eqb_refl. simpl. eauto.
  - destruct (IH Hin Hp) as [? ?]. discriminate.
Qed.

(** The whole loop: under the category of an address and under ["All"]
    stands the last passing record of that address; every other entry is
    as before the loop. *)
Lemma records_loop_spec records retMap retMap' :
  reserved_present retMap ->
  records_loop strptime OUI_MAP checkDate records retMap = Ok retMap' ->
  reserved_present retMap' /\
  (forall k, Dict.mem k retMap' = true ->
             Dict.mem k retMap = true \/ In k (Dict.keys OUI_MAP)) /\
  forall c m, recorded c m retMap' =
    match latest strptime checkDate m records with
    | Some stored =>
        if String.eqb c (category_of OUI_MAP m) || String.eqb c "All"
        then Some stored else recorded c m retMap
    | None => recorded c m retMap
    end.
Proof.
  revert retMap. induction records as [|record records IH]; intros retMap Hres.
  - simpl. intros [= <-]. auto.
  - simpl.
    destruct (process_record strptime OUI_MAP checkDate record retMap)
      as [retMap1|e] eqn:Hstep; simpl; [|discriminate].
    intros Hloop. apply process_record_spec in Hstep; [|exact Hres].
    assert (H1 : reserved_present retMap1 /\
                 (forall k, Dict.mem k retMap1 = true ->
                    Dict.mem k retMap = true \/ In k (Dict.keys OUI_MAP)) /\
                 forall c m, recorded c m retMap1 =
                   match pick strptime checkDate m None record with
                   | Some stored =>
                       if String.eqb c (category_of OUI_MAP m) || String.eqb c "All"
                       then Some stored else recorded c m retMap
                   | None => recorded c m retMap
                   end).
    { unfold pick. destruct (passes strptime checkDate record).
      - destruct (classify_record_spec OUI_MAP record retMap Hres)
          as (retMap2 & Hrun & Hres2 & Hkeys2 & Hrec2).
        rewrite Hrun in Hstep. injection Hstep as <-.
        split; [exact Hres2|]. split; [exact Hkeys2|].
        intros c m. rewrite Hrec2. simpl.
        rewrite (String.eqb_sym m).
        destruct (String.eqb_spec (lastKnownClientIdentifier record) m) as [->|];
          reflexivity.
      - subst retMap1. simpl. auto. }
    destruct H1 as (Hres1 & Hkeys1 & Hrec1).
    destruct (IH retMap1 Hres1 Hloop) as (Hres' & Hkeys' & Hrec').
    split; [exact Hres'|]. split.
    + intros k Hk. destruct (Hkeys' k Hk) as [H|H]; auto.
    + intros c m. rewrite Hrec', latest_cons, Hrec1.
      destruct (latest strptime checkDate m records) as [later|].
      * destruct (pick strptime checkDate m None record);
          destruct (String.eqb c (category_of OUI_MAP m) || String.eqb c "All");
          reflexivity.
      * reflexivity.
Qed.

(** The loop runs to its end when every record with a hardware address has
    a timestamp that parses. *)
Lemma records_loop_total records retMap :
  reserved_present retMap ->
  (forall record, In record records ->
     lastKnownClientIdentifier record <> ""%string ->
     is_Ok (strptime (lastSeenDate record)) = true) ->
  exists retMap',
    records_loop strptime OUI_MAP checkDate records retMap = Ok retMap'.
Proof.
  revert retMap. induction records as [|record records IH]; intros retMap Hres Hparse.
  - simpl. eauto.
  - simpl.
    assert (Hstep : exists retMap1,
               process_record strptime OUI_MAP checkDate record retMap = Ok retMap1
               /\ reserved_present retMap1).
    { unfold process_record.
      destruct (lastKnownClientIdentifier record) as [|a s] eqn:Hmac; simpl.
      - eauto.
      - specialize (Hparse record (or_introl eq_refl)).
        rewrite Hmac in Hparse. specialize (Hparse ltac:(discriminate)).
        destruct (strptime (lastSeenDate record)) as [lastSeen|]; [|discriminate].
        simpl. destruct (isRecent lastSeen checkDate); [|eauto].
        destruct (classify_record_spec OUI_MAP record retMap Hres)
          as (retMap2 & Hrun & Hres2 & _). eauto. }
    destruct Hstep as (retMap1 & -> & Hres1). simpl.
    apply IH; [exact Hres1|]. intros r Hr. apply Hparse. right. exact Hr.
Qed.

End RecordLoopFacts.

(** ** MiceAndMenSpy.py: the time-window filter *)

Section TimeWindow.

Import MiceAndMenSpy Spec.
Local Open Scope Z_scope.

Lemma monthrange_days_positive y m : 1 <= m <= 12 -> 28 <= monthrange_days y m.
Proof.
  intros Hm.
  assert (H : m = 1 \/ m = 2 \/ m = 3 \/ m = 4 \/ m = 5 \/ m = 6 \/ m = 7 \/
              m = 8 \/ m = 9 \/ m = 10 \/ m = 11 \/ m = 12) by lia.
  destruct H as [H|[H|[H|[H|[H|[H|[H|[H|[H|[H|[H|H]]]]]]]]]]]; subst m; simpl;
    try lia.
  destruct (isleap y); lia.
Qed.

Lemma checkDate_of_twelve_months now :
  valid now -> 1 < year now ->
  checkDate_of now = Ok (twelve_months_before now).
Proof.
  intros Hv Hy. apply valid_fields in Hv as (Hyear & _).
  unfold checkDate_of.
  change (relativedelta_months 12) with (mkrelativedelta 1 0).
  unfold DateTime.sub, radd, twelve_months_before. simpl.
  replace (year now + - (1)) with (year now - 1) by lia.
  destruct (Z.leb_spec 1 (year now - 1)); [|lia].
  destruct (Z.leb_spec (year now - 1) 9999); [|lia].
  reflexivity.
Qed.

Lemma valid_twelve_months_before now :
  valid now -> 1 < year now -> valid (twelve_months_before now).
Proof.
  intros Hv Hy.
  apply valid_fields in Hv as (Hyear & Hm & Hd & Hh & Hmi & Hs & Hu).
  pose proof (monthrange_days_positive (year now - 1) (month now) Hm).
  unfold valid, validb, twelve_months_before. simpl.
  rewrite !andb_true_iff.
  repeat split; first [apply Z.leb_le | apply Z.ltb_lt]; lia.
Qed.

(** C6.  A record with a hardware address whose timestamp parses to
    [lastSeen] is retained by the time-window filter exactly when [lastSeen]
    is strictly later than the acquisition time minus twelve calendar months.
    The boundary [checkDate] is the same month, day and time of day one year
    before [now] (month arithmetic, the day clipped to the month's length),
    not [now] minus 365 days; "later" is meant on the time line, in
    microseconds.  A record last seen exactly at the boundary is excluded,
    one last seen a second after it is retained; a retained record goes on to
    classification, an excluded one leaves the result as it is. *)
Theorem time_window_strictly_after_twelve_months
    (strptime : string -> result datetime) (OUI_MAP : OuiMap)
    (now lastSeen : datetime) (record : IpamRecord) (retMap : RetMap) :
  valid now -> 1 < year now -> valid lastSeen ->
  (0 <? String.length (lastKnownClientIdentifier record))%nat = true ->
  strptime (lastSeenDate record) = Ok lastSeen ->
  let boundary := twelve_months_before now in
  checkDate_of now = Ok boundary /\
  (isRecent lastSeen boundary = true <-> to_micros boundary < to_micros lastSeen) /\
  (lastSeen = boundary -> isRecent lastSeen boundary = false) /\
  (to_micros lastSeen = to_micros boundary + 1000000 ->
   isRecent lastSeen boundary = true) /\
  process_record strptime OUI_MAP boundary record retMap =
    if isRecent lastSeen boundary
    then classify_record OUI_MAP record retMap
    else Ok retMap.
Proof.
  intros Hnow Hy Hseen Hmac Hparse boundary.
  pose proof (valid_twelve_months_before now Hnow Hy) as Hb. fold boundary in Hb.
  pose proof (gt_to_micros lastSeen boundary Hseen Hb) as Hgt.
  split; [apply checkDate_of_twelve_months; assumption|].
  split; [exact Hgt|]. split; [|split].
  - intros ->. destruct (isRecent boundary boundary) eqn:E; [|reflexivity].
    apply Hgt in E. lia.
  - intros Hlater. apply Hgt. lia.
  - unfold process_record. rewrite Hmac, Hparse. reflexivity.
Qed.

Lemma time_window_strictly_after_twelve_months_witness :
  let now := Sample.now in
  let boundary := twelve_months_before now in
  checkDate_of now = Ok boundary /\
  (isRecent (mkdatetime 2024 6 1 0 0 0 0) boundary = true <->
   to_micros boundary < to_micros (mkdatetime 2024 6 1 0 0 0 0)) /\
  (mkdatetime 2024 6 1 0 0 0 0 = boundary ->
   isRecent (mkdatetime 2024 6 1 0 0 0 0) boundary = false) /\
  (to_micros (mkdatetime 2024 6 1 0 0 0 0) = to_micros boundary + 1000000 ->
   isRecent (mkdatetime 2024 6 1 0 0 0 0) boundary = true) /\
  process_record Sample.strptime [] boundary (Sample.seen_recently Sample.X)
                 initial_retMap =
    if isRecent (mkdatetime 2024 6 1 0 0 0 0) boundary
    then classify_record [] (Sample.seen_recently Sample.X) initial_retMap
    else Ok initial_retMap.
Proof.
  exact (time_window_strictly_after_twelve_months Sample.strptime []
           Sample.now (mkdatetime 2024 6 1 0 0 0 0)
           (Sample.seen_recently Sample.X) initial_retMap
           eq_refl eq_refl eq_refl eq_refl eq_refl).
Defined.

(** Twelve calendar months are not 365 days: seen from 1 March 2024 the
    boundary is 1 March 2023, 366 days earlier, and a record last seen at noon
    of that day is retained although it is more than 365 days old. *)
Lemma twelve_months_are_not_365_days :
  let now := mkdatetime 2024 3 1 0 0 0 0 in
  let lastSeen := mkdatetime 2023 3 1 12 0 0 0 in
  checkDate_of now = Ok (mkdatetime 2023 3 1 0 0 0 0) /\
  to_micros now - to_micros (twelve_months_before now) = 366 * usec_per_day /\
  isRecent lastSeen (twelve_months_before now) = true /\
  to_micros lastSeen < to_micros now - 365 * usec_per_day.
Proof. vm_compute. repeat split; reflexivity. Qed.

(** The day is clipped to the target month: twelve months before
    29 February 2024 is 28 February 2023. *)
Lemma twelve_months_before_leap_day :
  checkDate_of (mkdatetime 2024 2 29 8 30 0 0) =
  Ok (mkdatetime 2023 2 28 8 30 0 0).
Proof. reflexivity. Qed.

End TimeWindow.

(** ** MiceAndMenSpy.py: classification *)

Section ClassificationTheorems.

Import MiceAndMenSpy Spec.

(** C5.  After the record loop of [getInfoBlockForNetwork], every record
    that passed the checks is filed by its hardware address under exactly
    one category besides ["All"]: the first category of the vendor table, in
    its iteration order, one of whose prefixes equals, letter case apart, the
    leading characters of the address cut to the prefix's length, or
    ["Other"] when no category has such a prefix; and it is filed under
    ["All"] as well.  The stored record is the last passing record that
    carries the address (the record itself when no later record repeats its
    address); under every other category the address is absent. *)
Theorem passing_record_under_first_match_and_All
    (strptime : string -> result datetime) (OUI_MAP : OuiMap)
    (checkDate : datetime) (records : list IpamRecord) (retMap : RetMap)
    (record : IpamRecord) :
  records_loop strptime OUI_MAP checkDate records initial_retMap = Ok retMap ->
  In record records ->
  passes strptime checkDate record = true ->
  let macAddr := lastKnownClientIdentifier record in
  exists stored,
    latest strptime checkDate macAddr records = Some stored /\
    lastKnownClientIdentifier stored = macAddr /\
    passes strptime checkDate stored = true /\
    forall category,
      recorded category macAddr retMap =
      if String.eqb category (category_of OUI_MAP macAddr) ||
         String.eqb category "All"
      then Some stored else None.
Proof.
  intros Hloop Hin Hpass macAddr.
  destruct (latest_of_passing strptime checkDate record records Hin Hpass)
    as [stored Hlatest]. fold macAddr in Hlatest.
  destruct (latest_Some strptime checkDate macAddr records stored Hlatest)
    as (_ & Hp & Hmac).
  destruct (records_loop_spec strptime OUI_MAP checkDate records _ _
              reserved_present_initial Hloop) as (_ & _ & Hrec).
  exists stored. repeat split; try assumption.
  intros category. rewrite Hrec, Hlatest.
  destruct (_ || _); [reflexivity|].
  unfold recorded, initial_retMap. simpl.
  destruct (String.eqb category "Other"); [reflexivity|].
  destruct (String.eqb category "All"); reflexivity.
Qed.

Lemma passing_record_under_first_match_and_All_witness :
  let records := [Sample.seen_recently "00:50:56:00:00:07";
                  Sample.seen_long_ago Sample.X;
                  Sample.seen_recently Sample.X]%string in
  let checkDate := twelve_months_before Sample.now in
  exists retMap,
    records_loop Sample.strptime Sample.OUI_MAP checkDate records
                 initial_retMap = Ok retMap /\
    exists stored,
      latest Sample.strptime checkDate Sample.X records = Some stored /\
      lastKnownClientIdentifier stored = Sample.X /\
      passes Sample.strptime checkDate stored = true /\
      forall category,
        recorded category Sample.X retMap =
        if String.eqb category (category_of Sample.OUI_MAP Sample.X) ||
           String.eqb category "All"
        then Some stored else None.
Proof.
  eexists. split; [vm_compute; reflexivity|].
  apply (passing_record_under_first_match_and_All Sample.strptime
           Sample.OUI_MAP (twelve_months_before Sample.now) _ _
           (Sample.seen_recently Sample.X)).
  - vm_compute. reflexivity.
  - right. right. left. reflexivity.
  - vm_compute. reflexivity.
Defined.

(** C7.  When the vendor table file fails to load, [readMapFromJsonFile]
    gives the empty table, and so does an empty file's table.  With the empty
    table the classification of a record never raises, creates no category,
    and files the record under ["Other"] and under ["All"] and nowhere
    else. *)
Theorem empty_table_files_under_Other_and_All
    (file : loaded OuiMap) (record : IpamRecord) (retMap : RetMap) :
  file = LoadError \/ file = Loaded [] ->
  reserved_present retMap ->
  let OUI_MAP := readMapFromJsonFile file in
  let macAddr := lastKnownClientIdentifier record in
  OUI_MAP = [] /\
  category_of OUI_MAP macAddr = "Other"%string /\
  exists retMap',
    classify_record OUI_MAP record retMap = Ok retMap' /\
    Dict.keys retMap' = Dict.keys retMap /\
    recorded "Other" macAddr retMap' = Some record /\
    recorded "All" macAddr retMap' = Some record /\
    forall category, category <> "Other"%string -> category <> "All"%string ->
      recorded category macAddr retMap' = recorded category macAddr retMap.
Proof.
  intros Hfile [HOther HAll] OUI_MAP macAddr.
  assert (Hempty : OUI_MAP = []).
  { subst OUI_MAP. destruct Hfile as [->| ->]; reflexivity. }
  split; [exact Hempty|]. rewrite Hempty. split; [reflexivity|].
  unfold classify_record. simpl. fold macAddr.
  destruct (store_spec "Other" macAddr record retMap HOther)
    as (retMap1 & -> & Hkeys1 & Hmem1 & Hrec1). simpl.
  destruct (store_spec "All" macAddr record retMap1)
    as (retMap' & -> & Hkeys' & Hmem' & Hrec').
  { rewrite Hmem1. exact HAll. }
  exists retMap'. split; [reflexivity|]. split; [congruence|].
  split; [|split].
  - rewrite Hrec', Hrec1. simpl. rewrite String.eqb_refl. reflexivity.
  - rewrite Hrec'. simpl. rewrite String.eqb_refl. reflexivity.
  - intros category HnO HnA. rewrite Hrec', Hrec1.
    destruct (String.eqb_spec category "All"); [contradiction|].
    destruct (String.eqb_spec category "Other"); [contradiction|].
    reflexivity.
Qed.

Lemma empty_table_files_under_Other_and_All_witness :
  let OUI_MAP := readMapFromJsonFile (@LoadError OuiMap) in
  OUI_MAP = [] /\
  category_of OUI_MAP Sample.X = "Other"%string /\
  exists retMap',
    classify_record OUI_MAP (Sample.seen_recently Sample.X) initial_retMap
      = Ok retMap' /\
    Dict.keys retMap' = Dict.keys initial_retMap /\
    recorded "Other" Sample.X retMap' = Some (Sample.seen_recently Sample.X) /\
    recorded "All" Sample.X retMap' = Some (Sample.seen_recently Sample.X) /\
    forall category, category <> "Other"%string -> category <> "All"%string ->
      recorded category Sample.X retMap' =
      recorded category Sample.X initial_retMap.
Proof.
  exact (empty_table_files_under_Other_and_All LoadError
           (Sample.seen_recently Sample.X) initial_retMap
           (or_introl eq_refl) (conj eq_refl eq_refl)).
Defined.

(** C9.  Whenever [getInfoBlockForNetwork] returns a map, on the early
    return after a failed range lookup as well as after the record loop, with
    or without a record that passes the checks, the map has the keys
    ["Other"] and ["All"], each bound to a map.  In these two cases the
    function does return, with the two maps empty: when the info block
    gives no range reference, and when the records are read and none of
    them passes the checks (the timestamps of those with a hardware address
    being readable). *)
Theorem getInfoBlockForNetwork_has_Other_and_All
    (strptime : string -> result datetime) (OUI_MAP : OuiMap)
    (networkSubnet cacheFile : string) (useLocalReservationCache : bool)
    (w : World) :
  (forall (retMap : RetMap) (w' : World),
     getInfoBlockForNetwork strptime OUI_MAP networkSubnet cacheFile
       useLocalReservationCache w = Ok (retMap, w') ->
     (exists others, Dict.get "Other" retMap = Some others) /\
     (exists all, Dict.get "All" retMap = Some all)) /\
  (forall checkDate rangeData w1,
     checkDate_of (clock w (ticks w)) = Ok checkDate ->
     read_rangeData networkSubnet cacheFile useLocalReservationCache
       (datetime_now w).2 = Ok (rangeData, w1) ->
     rangeRef_of rangeData = None ->
     getInfoBlockForNetwork strptime OUI_MAP networkSubnet cacheFile
       useLocalReservationCache w
     = Ok ([("Other"%string, []); ("All"%string, [])], w1)) /\
  (forall checkDate rangeData w1 rangeRef respData w2 records,
     checkDate_of (clock w (ticks w)) = Ok checkDate ->
     read_rangeData networkSubnet cacheFile useLocalReservationCache
       (datetime_now w).2 = Ok (rangeData, w1) ->
     rangeRef_of rangeData = Some rangeRef ->
     read_respData networkSubnet rangeRef useLocalReservationCache w1
       = Ok (respData, w2) ->
     Dict.get "ipamRecords" respData = Some records ->
     (forall record, In record records ->
        lastKnownClientIdentifier record <> ""%string ->
        exists lastSeen,
          strptime (lastSeenDate record) = Ok lastSeen /\
          isRecent lastSeen checkDate = false) ->
     getInfoBlockForNetwork strptime OUI_MAP networkSubnet cacheFile
       useLocalReservationCache w
     = Ok ([("Other"%string, []); ("All"%string, [])], w2)).
Proof.
  split; [|split].
  - intros retMap w'. unfold getInfoBlockForNetwork. simpl.
    destruct (checkDate_of _) as [checkDate|e]; simpl; [|discriminate].
    destruct (read_rangeData _ _ _ _) as [[rangeData w1]|e]; simpl;
      [|discriminate].
    assert (Hkeys : forall m : RetMap, reserved_present m ->
              (exists others, Dict.get "Other" m = Some others) /\
              (exists all, Dict.get "All" m = Some all)).
    { intros m [HO HA]. unfold Dict.mem in HO, HA.
      destruct (Dict.get "Other" m); [|discriminate].
      destruct (Dict.get "All" m); [|discriminate]. eauto. }
    destruct (rangeRef_of rangeData) as [rangeRef|].
    + destruct (read_respData _ _ _ _) as [[respData w2]|e]; simpl;
        [|discriminate].
      destruct (Dict.item "ipamRecords" respData) as [records|e]; simpl;
        [|discriminate].
      destruct (records_loop strptime OUI_MAP checkDate records _)
        as [retMap1|e] eqn:Hloop; simpl; [|discriminate].
      intros [= <- <-]. apply Hkeys.
      apply (records_loop_spec strptime OUI_MAP checkDate records _ _
               reserved_present_initial Hloop).
    + intros [= <- <-]. apply Hkeys. split; reflexivity.
  - intros checkDate rangeData w1 HcheckDate Hrange Href.
    unfold getInfoBlockForNetwork. unfold datetime_now in *.
    cbn [snd] in Hrange. cbv beta iota. rewrite HcheckDate. simpl.
    rewrite Hrange. simpl. rewrite Href. reflexivity.
  - intros checkDate rangeData w1 rangeRef respData w2 records
      HcheckDate Hrange Href Hresp Hrecords Hnone.
    unfold getInfoBlockForNetwork. unfold datetime_now in *.
    cbn [snd] in Hrange. cbv beta iota. rewrite HcheckDate. simpl.
    rewrite Hrange. simpl. rewrite Href, Hresp. simpl.
    unfold Dict.item. rewrite Hrecords. simpl.
    assert (Hloop : forall retMap : RetMap,
              records_loop strptime OUI_MAP checkDate records retMap
              = Ok retMap).
    { clear Hrecords. induction records as [|record records IH];
        intros retMap; [reflexivity|].
      cbn [records_loop]. unfold process_record.
      destruct (lastKnownClientIdentifier record) as [|c macAddr] eqn:Hmac.
      - simpl. apply IH. intros r Hr. apply Hnone. right. exact Hr.
      - destruct (Hnone record (or_introl eq_refl))
          as (lastSeen & Hparse & Hold); [rewrite Hmac; discriminate|].
        rewrite Hparse. simpl. rewrite Hold. simpl.
        apply IH. intros r Hr. apply Hnone. right. exact Hr. }
    rewrite Hloop. reflexivity.
Qed.

(** A later run, served from the cache file and the reservation file that
    an earlier run wrote. *)
Lemma getInfoBlockForNetwork_has_Other_and_All_witness :
  exists retMap w',
    getInfoBlockForNetwork Sample.strptime [] Sample.N1 "cache.json" true
      Sample.cached = Ok (retMap, w') /\
    (exists others, Dict.get "Other" retMap = Some others) /\
    (exists all, Dict.get "All" retMap = Some all).
Proof.
  eexists _, _. split; [reflexivity|].
  apply (proj1 (getInfoBlockForNetwork_has_Other_and_All Sample.strptime []
                  Sample.N1 "cache.json" true Sample.cached) _ _ eq_refl).
Defined.

(** On that run the record of the reservation file is classified, without
    any request to the service. *)
Lemma getInfoBlockForNetwork_from_the_local_files :
  fst <$> getInfoBlockForNetwork Sample.strptime [] Sample.N1 "cache.json"
            true Sample.cached
  = Ok Sample.info_X.
Proof. vm_compute. reflexivity. Qed.

(** The same holds with the two maps empty when the range lookup fails, and
    when no record passes the checks. *)
Lemma getInfoBlockForNetwork_early_return :
  fst <$> getInfoBlockForNetwork Sample.strptime Sample.OUI_MAP Sample.N1
            "cache.json" true Sample.no_range
  = Ok [("Other"%string, []); ("All"%string, [])].
Proof. reflexivity. Qed.

Lemma getInfoBlockForNetwork_no_record_passes :
  fst <$> getInfoBlockForNetwork Sample.strptime [] Sample.N1 "cache.json" true
            (Sample.world [] LoadError
               (fun _ => [Sample.seen_long_ago Sample.X;
                          mkIpamRecord "" "never"])
               Sample.now)
  = Ok [("Other"%string, []); ("All"%string, [])].
Proof. vm_compute. reflexivity. Qed.

End ClassificationTheorems.

(** First match wins, in the order of the table, and letter case does not
    matter: an address that starts with a prefix of ["VM"] and with a shorter
    prefix of ["PDU"] is a ["VM"]. *)
Lemma category_of_examples :
  Spec.category_of Sample.OUI_MAP "00:50:56:00:00:07" = "VM"%string /\
  Spec.category_of Sample.OUI_MAP "00:0c:29:00:00:07" = "VM"%string /\
  Spec.category_of Sample.OUI_MAP "00:50:00:00:00:07" = "PDU"%string /\
  Spec.category_of Sample.OUI_MAP "AA:BB:CC:00:00:07" = "PDU"%string /\
  Spec.category_of Sample.OUI_MAP "00:5" = "Other"%string /\
  Spec.category_of Sample.OUI_MAP "12:34:56:00:00:07" = "Other"%string.
Proof. repeat split; reflexivity. Qed.

(** ** dhcpspy.py: change detection *)

Section MonitorFacts.

Import DhcpSpy Spec.

Implicit Types (dhcpLeases previousLeases : gmap string LeaseObject).

(** The test of the loop body is the specification's "new or changed". *)
Lemma new_or_changed_test previousLeases macAddr lease :
  match previousLeases !! macAddr with
  | None => true
  | Some previous => bool_decide (start lease ≠ start previous)
  end = true <-> new_or_changed previousLeases macAddr lease.
Proof.
  unfold new_or_changed.
  destruct (previousLeases !! macAddr) as [previous|].
  - rewrite bool_decide_eq_true. split.
    + intros Hne. right. eauto.
    + intros [H|(p & [= <-] & Hne)]; [discriminate|exact Hne].
  - split; auto.
Qed.

(** The scan of the current snapshot.  [previousLeases] is updated while
    the scan runs, but only at addresses already visited, so every test
    reads the snapshot as it was before the scan. *)
Lemma lease_scan_spec dhcpLeases previousLeases :
  let st := map_fold lease_step (∅, previousLeases) dhcpLeases in
  (forall macAddr lease,
     st.1 !! macAddr = Some lease <->
     dhcpLeases !! macAddr = Some lease /\
     new_or_changed previousLeases macAddr lease) /\
  (forall macAddr,
     st.2 !! macAddr =
     match st.1 !! macAddr with
     | Some lease => Some lease
     | None => previousLeases !! macAddr
     end).
Proof.
  simpl.
  apply (map_fold_weak_ind
    (fun (st : gmap string LeaseObject * gmap string LeaseObject)
         (m : gmap string LeaseObject) =>
       (forall macAddr lease,
          st.1 !! macAddr = Some lease <->
          m !! macAddr = Some lease /\
          new_or_changed previousLeases macAddr lease) /\
       (forall macAddr,
          st.2 !! macAddr =
          match st.1 !! macAddr with
          | Some lease => Some lease
          | None => previousLeases !! macAddr
          end))).
  - simpl. split.
    + intros macAddr lease. rewrite !lookup_empty. split; [discriminate|].
      intros [? _]. discriminate.
    + intros macAddr. rewrite lookup_empty. reflexivity.
  - intros i x m [upd prev] Hfresh [Hupd Hprev]. simpl in *.
    assert (Hnot : upd !! i = None).
    { destruct (upd !! i) as [l|] eqn:E; [|reflexivity].
      apply Hupd in E as [E _]. congruence. }
    assert (Hsame : prev !! i = previousLeases !! i).
    { rewrite Hprev, Hnot. reflexivity. }
    rewrite Hsame.
    pose proof (new_or_changed_test previousLeases i x) as Htest.
    destruct (match previousLeases !! i with
              | None => true
              | Some previous => bool_decide (start x ≠ start previous)
              end) eqn:Hc; simpl.
    + split.
      * intros macAddr lease. destruct (decide (i = macAddr)) as [<-|Hne].
        -- rewrite !lookup_insert_eq. split.
           ++ intros [= <-]. split; [reflexivity|]. apply Htest. reflexivity.
           ++ intros [[= <-] _]. reflexivity.
        -- rewrite !lookup_insert_ne by exact Hne. apply Hupd.
      * intros macAddr. destruct (decide (i = macAddr)) as [<-|Hne].
        -- rewrite !lookup_insert_eq. reflexivity.
        -- rewrite !lookup_insert_ne by exact Hne. apply Hprev.
    + split; [|exact Hprev].
      intros macAddr lease. destruct (decide (i = macAddr)) as [<-|Hne].
      * rewrite lookup_insert_eq, Hnot. split; [discriminate|].
        intros [[= <-] Hn]. apply Htest in Hn. discriminate.
      * rewrite lookup_insert_ne by exact Hne. apply Hupd.
Qed.

(** One round in the steady state without [alwaysSendAllData]. *)
Lemma steady_round_spec interval dhcpLeases previousLeases :
  size previousLeases <> 0 ->
  exists partial next,
    round interval false dhcpLeases previousLeases =
      ((if bool_decide (partial = ∅) then [] else [Handle partial true])
         ++ [Sleep interval], Some next) /\
    (forall macAddr lease,
       partial !! macAddr = Some lease <->
       dhcpLeases !! macAddr = Some lease /\
       new_or_changed previousLeases macAddr lease) /\
    (forall macAddr,
       next !! macAddr =
       match partial !! macAddr with
       | Some lease => Some lease
       | None => previousLeases !! macAddr
       end).
Proof.
  intros Hprev. unfold round.
  rewrite bool_decide_eq_false_2 by exact Hprev. simpl.
  assert (Hemit : forall partial : gmap string LeaseObject,
            (if (0 <? size partial)%nat then [Handle partial true] else []) =
            (if bool_decide (partial = ∅) then [] else [Handle partial true])).
  { intros partial. destruct (decide (partial = ∅)) as [->|Hne].
    - rewrite map_size_empty. reflexivity.
    - rewrite bool_decide_eq_false_2 by exact Hne.
      assert (size partial <> 0) by (intros H; apply map_size_empty_iff in H; auto).
      destruct (Nat.ltb_spec 0 (size partial)); [reflexivity|lia]. }
  destruct (Nat.ltb_spec 0 (size dhcpLeases)) as [Hsome|Hnone].
  - destruct (lease_scan_spec dhcpLeases previousLeases) as [Hupd Hnext].
    eexists _, _. split; [rewrite Hemit; reflexivity|]. split; assumption.
  - assert (dhcpLeases = ∅) as -> by (apply map_size_empty_iff; lia).
    exists ∅, previousLeases. simpl. split; [reflexivity|]. split.
    + intros macAddr lease. rewrite !lookup_empty. split; [discriminate|].
      intros [? _]. discriminate.
    + intros macAddr. rewrite lookup_empty. reflexivity.
Qed.

End MonitorFacts.

Section ScanOrder.

Import DhcpSpy Spec.

Implicit Types (dhcpLeases previousLeases : gmap string LeaseObject).

Lemma scan_in_order_spec (order : list (string * LeaseObject)) previousLeases :
  NoDup order.*1 ->
  let st := scan_in_order order previousLeases in
  (forall macAddr lease,
     st.1 !! macAddr = Some lease <->
     (macAddr, lease) ∈ order /\
     new_or_changed previousLeases macAddr lease) /\
  (forall macAddr,
     st.2 !! macAddr =
     match st.1 !! macAddr with
     | Some lease => Some lease
     | None => previousLeases !! macAddr
     end).
Proof.
  unfold scan_in_order.
  induction order as [|[i x] order IH] using rev_ind; intros Hnodup.
  - simpl. split.
    + intros macAddr lease. rewrite lookup_empty, elem_of_nil.
      split; [discriminate|tauto].
    + intros macAddr. rewrite lookup_empty. reflexivity.
  - rewrite fmap_app, NoDup_app in Hnodup. simpl in Hnodup.
    destruct Hnodup as (Hnodup & Hfresh & _).
    destruct (IH Hnodup) as [Hupd Hprev]. clear IH.
    rewrite fold_left_app. simpl.
    destruct (fold_left _ order (∅, previousLeases)) as [upd prev].
    simpl in *.
    assert (Hnot : upd !! i = None).
    { destruct (upd !! i) as [l|] eqn:E; [|reflexivity].
      apply Hupd in E as [E _]. exfalso. apply (Hfresh i).
      - apply list_elem_of_fmap. exists (i, l). auto.
      - apply list_elem_of_singleton. reflexivity. }
    assert (Hsame : prev !! i = previousLeases !! i).
    { rewrite Hprev, Hnot. reflexivity. }
    rewrite Hsame.
    pose proof (new_or_changed_test previousLeases i x) as Htest.
    assert (Hin : forall macAddr lease,
              (macAddr, lease) ∈ order ++ [(i, x)] <->
              (macAddr, lease) ∈ order \/ (macAddr = i /\ lease = x)).
    { intros macAddr lease. rewrite elem_of_app, list_elem_of_singleton.
      split; intros [H|H]; auto; [right; split; congruence|].
      right. destruct H as [-> ->]. reflexivity. }
    assert (Hother : forall lease, (i, lease) ∈ order -> False).
    { intros lease Hl. apply (Hfresh i).
      - apply list_elem_of_fmap. exists (i, lease). auto.
      - apply list_elem_of_singleton. reflexivity. }
    destruct (match previousLeases !! i with
              | None => true
              | Some previous => bool_decide (start x ≠ start previous)
              end) eqn:Hc; simpl.
    + split.
      * intros macAddr lease. rewrite Hin.
        destruct (decide (i = macAddr)) as [<-|Hne].
        -- rewrite lookup_insert_eq. split.
           ++ intros [= <-]. split; [auto|]. apply Htest. reflexivity.
           ++ intros [[H|[_ ->]] _]; [destruct (Hother _ H)|reflexivity].
        -- rewrite lookup_insert_ne by exact Hne. rewrite Hupd.
           split; [intros [? ?]; auto|].
           intros [[H|[-> _]] ?]; [auto|congruence].
      * intros macAddr. destruct (decide (i = macAddr)) as [<-|Hne].
        -- rewrite !lookup_insert_eq. reflexivity.
        -- rewrite !lookup_insert_ne by exact Hne. apply Hprev.
    + split; [|exact Hprev].
      intros macAddr lease. rewrite Hin, Hupd.
      split; [intros [? ?]; auto|].
      intros [[H|[-> ->]] Hn]; [auto|].
      apply Htest in Hn. discriminate.
Qed.

(** The outcome of the scan does not depend on the order in which the
    leases of the current snapshot are visited. *)
Lemma scan_in_any_order (order : list (string * LeaseObject))
    dhcpLeases previousLeases :
  order ≡ₚ map_to_list dhcpLeases ->
  scan_in_order order previousLeases =
  map_fold lease_step (∅, previousLeases) dhcpLeases.
Proof.
  intros Horder.
  assert (Hnodup : NoDup order.*1).
  { rewrite Horder. apply NoDup_fst_map_to_list. }
  destruct (scan_in_order_spec order previousLeases Hnodup) as [Hupd Hprev].
  destruct (lease_scan_spec dhcpLeases previousLeases) as [Hupd' Hprev'].
  destruct (scan_in_order order previousLeases) as [upd prev].
  destruct (map_fold lease_step (∅, previousLeases) dhcpLeases)
    as [upd' prev'].
  simpl in *.
  assert (upd = upd') as <-.
  { apply map_eq. intros macAddr. apply option_eq. intros lease.
    rewrite Hupd, Hupd', Horder, elem_of_map_to_list. reflexivity. }
  f_equal. apply map_eq. intros macAddr. rewrite Hprev, Hprev'. reflexivity.
Qed.

End ScanOrder.

Section MonitorTheorems.

Import DhcpSpy Spec.

Implicit Types (dhcpLeases previousLeases : gmap string LeaseObject).

Lemma getLeases_samples :
  getLeases (Some Sample.file_A) = Ok Sample.snapshot_A /\
  getLeases (Some Sample.file_A_B) = Ok Sample.snapshot_A_B /\
  getLeases (Some Sample.file_A_moved) = Ok Sample.snapshot_A_moved.
Proof. repeat split; reflexivity. Qed.

(** C3 (amended).  When the retained previous snapshot is empty or
    [alwaysSendAllData] is set, the round calls the handler once with the
    whole current snapshot and [isDelta = False].  With [interval < 1] the
    function then returns; otherwise it sleeps and the loop goes on with the
    current snapshot as the retained previous snapshot.  The engine is then
    in the state [STEADY] exactly when that snapshot holds a lease: the
    following round is a steady round in that case, and after a snapshot
    without leases it is again a round in the state [INITIAL], answered in
    full. *)
Theorem full_snapshot_when_initial_or_always
    (polls : list (option LeaseFile)) (inputFile : option LeaseFile)
    (interval : float) (alwaysSendAllData : bool)
    dhcpLeases previousLeases :
  getLeases inputFile = Ok dhcpLeases ->
  size previousLeases = 0 \/ alwaysSendAllData = true ->
  round interval alwaysSendAllData dhcpLeases previousLeases =
    (Handle dhcpLeases false ::
       (if PrimFloat.ltb interval 1 then [] else [Sleep interval]),
     if PrimFloat.ltb interval 1 then None else Some dhcpLeases) /\
  monitor_loop (inputFile :: polls) interval alwaysSendAllData previousLeases =
    (if PrimFloat.ltb interval 1 then ([Handle dhcpLeases false], Returned)
     else
       let '(events, st) :=
         monitor_loop polls interval alwaysSendAllData dhcpLeases in
       (Handle dhcpLeases false :: Sleep interval :: events, st)) /\
  (state_of dhcpLeases = STEADY <-> dhcpLeases <> ∅) /\
  (dhcpLeases <> ∅ ->
   forall following, exists partial next,
     round interval false following dhcpLeases =
       ((if bool_decide (partial = ∅) then [] else [Handle partial true])
          ++ [Sleep interval], Some next) /\
     forall macAddr lease,
       partial !! macAddr = Some lease <->
       following !! macAddr = Some lease /\
       new_or_changed dhcpLeases macAddr lease) /\
  (dhcpLeases = ∅ ->
   forall following,
     round interval alwaysSendAllData following dhcpLeases =
       (Handle following false ::
          (if PrimFloat.ltb interval 1 then [] else [Sleep interval]),
        if PrimFloat.ltb interval 1 then None else Some following)).
Proof.
  intros Hget Hfull.
  assert (Hround : forall current retained,
    size retained = 0 \/ alwaysSendAllData = true ->
    round interval alwaysSendAllData current retained =
      (Handle current false ::
         (if PrimFloat.ltb interval 1 then [] else [Sleep interval]),
       if PrimFloat.ltb interval 1 then None else Some current)).
  { intros current retained Hcase. unfold round.
    assert (bool_decide (size retained = 0) || alwaysSendAllData = true)
      as ->.
    { destruct Hcase as [H| ->]; [|apply orb_true_r].
      rewrite bool_decide_eq_true_2 by exact H. reflexivity. }
    destruct (PrimFloat.ltb interval 1); reflexivity. }
  split; [apply Hround, Hfull|].
  split.
  { simpl. rewrite Hget, (Hround _ _ Hfull).
    destruct (PrimFloat.ltb interval 1); [reflexivity|].
    destruct (monitor_loop polls interval alwaysSendAllData dhcpLeases).
    reflexivity. }
  split.
  { unfold state_of. rewrite <- map_size_empty_iff.
    destruct (decide (size dhcpLeases = 0)) as [Hempty|Hsome].
    - rewrite bool_decide_eq_true_2 by exact Hempty.
      split; [discriminate|contradiction].
    - rewrite bool_decide_eq_false_2 by exact Hsome. tauto. }
  split.
  - intros Hsome following.
    assert (Hsize : size dhcpLeases <> 0)
      by (rewrite map_size_empty_iff; exact Hsome).
    destruct (steady_round_spec interval following dhcpLeases Hsize)
      as (partial & next & Hsteady & Hpartial & _).
    exists partial, next. split; [exact Hsteady|exact Hpartial].
  - intros -> following. apply Hround. left. apply map_size_empty.
Qed.

Lemma full_snapshot_when_initial_or_always_witness :
  round 60 false Sample.snapshot_A ∅ =
    (Handle Sample.snapshot_A false ::
       (if PrimFloat.ltb 60 1 then [] else [Sleep 60]),
     if PrimFloat.ltb 60 1 then None else Some Sample.snapshot_A) /\
  monitor_loop [Some Sample.file_A; Some Sample.file_A_B] 60 false ∅ =
    (if PrimFloat.ltb 60 1 then ([Handle Sample.snapshot_A false], Returned)
     else
       let '(events, st) :=
         monitor_loop [Some Sample.file_A_B] 60 false Sample.snapshot_A in
       (Handle Sample.snapshot_A false :: Sleep 60 :: events, st)) /\
  (state_of Sample.snapshot_A = STEADY <-> Sample.snapshot_A <> ∅).
Proof.
  destruct (full_snapshot_when_initial_or_always [Some Sample.file_A_B]
              (Some Sample.file_A) 60 false Sample.snapshot_A ∅
              eq_refl ltac:(left; reflexivity))
    as (Hround & Hloop & Hstate & _).
  split; [exact Hround|]. split; [exact Hloop|exact Hstate].
Defined.

(** C3, as the specification states it, fails on a snapshot without
    leases.  The round is a full round and the loop goes on with the current
    snapshot retained, but the engine is not in the state [STEADY]: the
    retained snapshot is empty, which is how the loop recognises [INITIAL],
    and the next snapshot is sent in full again, not as a delta. *)
Lemma empty_snapshot_leaves_the_engine_INITIAL :
  getLeases (Some Sample.file_empty) = Ok ∅ /\
  round 60 false ∅ ∅ = ([Handle ∅ false; Sleep 60], Some ∅) /\
  state_of (∅ : gmap string LeaseObject) <> STEADY /\
  round 60 false Sample.snapshot_A ∅ =
    ([Handle Sample.snapshot_A false; Sleep 60], Some Sample.snapshot_A).
Proof.
  split; [reflexivity|]. split; [reflexivity|]. split; [|reflexivity].
  discriminate.
Qed.

(** The loop takes a previous snapshot without leases for no previous
    snapshot: after a first poll that finds no lease, the second poll is
    sent in full again. *)
Lemma empty_snapshot_is_followed_by_full_snapshot :
  monitorLeases [Some Sample.file_empty; Some Sample.file_A] 60 false =
    ([Handle ∅ false; Sleep 60; Handle Sample.snapshot_A false; Sleep 60],
     Polling Sample.snapshot_A).
Proof. reflexivity. Qed.

(** C4.  In a round with a non-empty previous snapshot and without
    [alwaysSendAllData], the partial result holds exactly the leases of the
    current snapshot whose address is absent from the previous snapshot or is
    recorded there with another [start].  An address absent from the current
    snapshot is never in it, whatever the previous snapshot holds for it.
    The handler is called, with [isDelta = True], only when the partial
    result is not empty. *)
Theorem steady_round_emits_new_or_changed
    (interval : float) dhcpLeases previousLeases :
  size previousLeases <> 0 ->
  exists partial next,
    round interval false dhcpLeases previousLeases =
      ((if bool_decide (partial = ∅) then [] else [Handle partial true])
         ++ [Sleep interval], Some next) /\
    (forall macAddr lease,
       partial !! macAddr = Some lease <->
       dhcpLeases !! macAddr = Some lease /\
       new_or_changed previousLeases macAddr lease) /\
    (forall macAddr,
       dhcpLeases !! macAddr = None -> partial !! macAddr = None).
Proof.
  intros Hprev.
  destruct (steady_round_spec interval dhcpLeases previousLeases Hprev)
    as (partial & next & Hround & Hpartial & _).
  exists partial, next. split; [exact Hround|]. split; [exact Hpartial|].
  intros macAddr Habsent.
  destruct (partial !! macAddr) as [lease|] eqn:E; [|reflexivity].
  apply Hpartial in E as [E _]. congruence.
Qed.

Lemma steady_round_emits_new_or_changed_witness :
  exists partial next,
    round 60 false Sample.snapshot_A_B Sample.snapshot_A =
      ((if bool_decide (partial = ∅) then [] else [Handle partial true])
         ++ [Sleep 60], Some next) /\
    (forall macAddr lease,
       partial !! macAddr = Some lease <->
       Sample.snapshot_A_B !! macAddr = Some lease /\
       new_or_changed Sample.snapshot_A macAddr lease) /\
    (forall macAddr,
       Sample.snapshot_A_B !! macAddr = None -> partial !! macAddr = None).
Proof.
  apply (steady_round_emits_new_or_changed 60 Sample.snapshot_A_B
           Sample.snapshot_A).
  apply Nat.eqb_neq; reflexivity.
Defined.

(** The example of the specification: with [A] unchanged and [B] new, the
    handler receives exactly [B], as a delta. *)
Lemma steady_round_example :
  round 60 false Sample.snapshot_A_B Sample.snapshot_A =
    ([Handle {[ "bb:bb:bb:00:00:02"%string := Sample.object_B ]} true; Sleep 60],
     Some Sample.snapshot_A_B).
Proof. reflexivity. Qed.

(** The previous snapshot of the comparison is the map the loop retains,
    which keeps the leases of addresses that have left the lease file: a
    lease that disappears and comes back with the same [start] is not
    reported again. *)
Lemma returning_lease_is_not_reported :
  monitorLeases [Some Sample.file_A_B;
                 Some Sample.file_A;
                 Some Sample.file_A_B] 60 false =
    ([Handle Sample.snapshot_A_B false; Sleep 60; Sleep 60; Sleep 60],
     Polling Sample.snapshot_A_B).
Proof. reflexivity. Qed.

(** C8.  With [interval < 1], and a lease file that [getLeases] can read,
    [monitorLeases] calls the handler exactly once, with the whole current
    snapshot and [isDelta = False], and returns: it does not sleep and does
    not read the lease file again, whatever later states of the file are
    offered. *)
Theorem one_shot_when_interval_below_one
    (polls : list (option LeaseFile)) (inputFile : option LeaseFile)
    (interval : float) (alwaysSendAllData : bool) dhcpLeases :
  PrimFloat.ltb interval 1 = true ->
  getLeases inputFile = Ok dhcpLeases ->
  monitorLeases (inputFile :: polls) interval alwaysSendAllData =
    ([Handle dhcpLeases false], Returned).
Proof.
  intros Hshort Hget. unfold monitorLeases. simpl. rewrite Hget.
  unfold round. rewrite map_size_empty.
  rewrite bool_decide_eq_true_2 by reflexivity. simpl.
  rewrite Hshort. reflexivity.
Qed.

Lemma one_shot_when_interval_below_one_witness :
  monitorLeases [Some Sample.file_A_B; Some Sample.file_A] 0.5 false =
    ([Handle Sample.snapshot_A_B false], Returned).
Proof.
  apply (one_shot_when_interval_below_one [Some Sample.file_A]
           (Some Sample.file_A_B) 0.5 false Sample.snapshot_A_B).
  - reflexivity.
  - reflexivity.
Defined.

(** C10.  The comparison of a steady round reads [start] only.  A lease
    that is in both snapshots with the same [start] is in no map handed to
    the handler in that round, whatever its [ip] and [binding_state] are now,
    and the retained previous snapshot keeps the old lease object for the
    address, with the old [ip] and [binding_state]. *)
Theorem steady_round_compares_start_only
    (interval : float) dhcpLeases previousLeases
    (macAddr : string) (lease previous : LeaseObject)
    (events : list event) (next : gmap string LeaseObject) :
  size previousLeases <> 0 ->
  dhcpLeases !! macAddr = Some lease ->
  previousLeases !! macAddr = Some previous ->
  start lease = start previous ->
  round interval false dhcpLeases previousLeases = (events, Some next) ->
  (forall leaseMap isDelta,
     In (Handle leaseMap isDelta) events -> leaseMap !! macAddr = None) /\
  next !! macAddr = Some previous.
Proof.
  intros Hprev Hcur Hold Hstart Hround.
  destruct (steady_round_spec interval dhcpLeases previousLeases Hprev)
    as (partial & next' & Hround' & Hpartial & Hnext).
  rewrite Hround in Hround'. injection Hround' as -> ->.
  assert (Hout : partial !! macAddr = None).
  { destruct (partial !! macAddr) as [l|] eqn:E; [|reflexivity].
    apply Hpartial in E as [E [Hnone|(p & Hp & Hne)]].
    - congruence.
    - rewrite Hold in Hp. injection Hp as <-. congruence. }
  split.
  - intros leaseMap isDelta Hin. apply in_app_or in Hin as [Hin|Hin].
    + destruct (bool_decide (partial = ∅)); [destruct Hin|].
      destruct Hin as [[= <- <-]|[]]. exact Hout.
    + destruct Hin as [Hin|[]]. discriminate.
  - rewrite Hnext, Hout. exact Hold.
Qed.

Lemma steady_round_compares_start_only_witness :
  exists events next,
    round 60 false Sample.snapshot_A_moved Sample.snapshot_A
      = (events, Some next) /\
    (forall leaseMap isDelta,
       In (Handle leaseMap isDelta) events ->
       leaseMap !! "aa:aa:aa:00:00:01"%string = None) /\
    next !! "aa:aa:aa:00:00:01"%string = Some Sample.object_A.
Proof.
  eexists _, _. split; [reflexivity|].
  apply (steady_round_compares_start_only 60 Sample.snapshot_A_moved
           Sample.snapshot_A "aa:aa:aa:00:00:01" Sample.object_A_moved
           Sample.object_A).
  - apply Nat.eqb_neq; reflexivity.
  - reflexivity.
  - reflexivity.
  - reflexivity.
  - reflexivity.
Defined.

End MonitorTheorems.

(** ** MiceAndMenSpy.py: the lab report *)

(** *** Loops *)

Section ForEachFacts.

Context {A S : Type}.
Implicit Types (xs : list A) (body : A -> S -> result S) (P Q : S -> Prop).

(** A property kept by every round of a loop is kept by the loop. *)
Lemma for_each_invariant P xs body s s' :
  (forall x s1 s2, In x xs -> body x s1 = Ok s2 -> P s1 -> P s2) ->
  MiceAndMenSpy.for_each xs body s = Ok s' -> P s -> P s'.
Proof.
  revert s. induction xs as [|x xs IH]; intros s Hkeep; simpl.
  - intros [= <-]. auto.
  - destruct (body x s) as [s1|e] eqn:Hx; simpl; [|discriminate].
    intros Hrest Hs. apply (IH s1); [|exact Hrest|].
    + intros y s2 s3 Hy. apply Hkeep. right. exact Hy.
    + apply (Hkeep x s s1); [left; reflexivity|exact Hx|exact Hs].
Qed.

(** A property [Q] established by the round of one element of the sequence
    when that round starts from [P], with [P] and [Q] kept by every round,
    holds after a loop started from [P]. *)
Lemma for_each_establishes P Q xs body x s s' :
  In x xs ->
  (forall s1 s2, body x s1 = Ok s2 -> P s1 -> Q s2) ->
  (forall y s1 s2, In y xs -> body y s1 = Ok s2 -> P s1 -> P s2) ->
  (forall y s1 s2, In y xs -> body y s1 = Ok s2 -> Q s1 -> Q s2) ->
  MiceAndMenSpy.for_each xs body s = Ok s' -> P s -> Q s'.
Proof.
  revert s. induction xs as [|y xs IH]; intros s Hin Hset HP HQ; simpl;
    [destruct Hin|].
  destruct (body y s) as [s1|e] eqn:Hy; simpl; [|discriminate].
  intros Hrest Hs. destruct Hin as [->|Hin].
  - apply (for_each_invariant Q xs body s1 s'); [|exact Hrest|].
    + intros z s2 s3 Hz. apply HQ. right. exact Hz.
    + apply (Hset s s1 Hy Hs).
  - apply (IH s1); [exact Hin|exact Hset| | |exact Hrest|].
    + intros z s2 s3 Hz. apply HP. right. exact Hz.
    + intros z s2 s3 Hz. apply HQ. right. exact Hz.
    + apply (HP y s s1); [left; reflexivity|exact Hy|exact Hs].
Qed.

(** Two distinct elements of the sequence whose rounds both set a mark [P],
    and set [Q] when they find the mark set: after the loop [Q] holds,
    whichever of the two comes first. *)
Lemma for_each_second_visit P Q xs body a b s s' :
  In a xs -> In b xs -> a <> b ->
  (forall x s1 s2, In x xs -> body x s1 = Ok s2 -> P s1 -> P s2) ->
  (forall x s1 s2, In x xs -> body x s1 = Ok s2 -> Q s1 -> Q s2) ->
  (forall x s1 s2, x = a \/ x = b -> body x s1 = Ok s2 ->
                   P s2 /\ (P s1 -> Q s2)) ->
  MiceAndMenSpy.for_each xs body s = Ok s' -> Q s'.
Proof.
  intros Ha Hb Hab HP HQ Hvisit.
  assert (Hone : forall ys c t,
            (forall y, In y ys -> In y xs) ->
            In c ys -> c = a \/ c = b -> P t ->
            MiceAndMenSpy.for_each ys body t = Ok s' -> Q s').
  { intros ys c t Hsub Hc Hgood Ht.
    revert t Ht. induction ys as [|y ys IH]; intros t Ht; [destruct Hc|].
    simpl. destruct (body y t) as [t1|e] eqn:Hy; simpl; [|discriminate].
    intros Hrest.
    assert (Hsub' : forall z, In z ys -> In z xs)
      by (intros z Hz; apply Hsub; right; exact Hz).
    destruct Hc as [->|Hc].
    - apply (for_each_invariant Q ys body t1 s'); [|exact Hrest|].
      + intros z s2 s3 Hz. apply HQ, Hsub', Hz.
      + apply (Hvisit c t t1 Hgood Hy), Ht.
    - apply (IH Hsub' Hc t1); [|exact Hrest].
      apply (HP y t t1); [apply Hsub; left; reflexivity|exact Hy|exact Ht]. }
  assert (Htwo : forall ys t,
            (forall y, In y ys -> In y xs) ->
            In a ys -> In b ys ->
            MiceAndMenSpy.for_each ys body t = Ok s' -> Q s').
  { induction ys as [|y ys IH]; intros t Hsub Hays Hbys; [destruct Hays|].
    simpl. destruct (body y t) as [t1|e] eqn:Hy; simpl; [|discriminate].
    intros Hrest.
    assert (Hsub' : forall z, In z ys -> In z xs)
      by (intros z Hz; apply Hsub; right; exact Hz).
    destruct Hays as [->|Hays]; [|destruct Hbys as [->|Hbys]].
    - destruct Hbys as [Hba|Hbys]; [congruence|].
      apply (Hone ys b t1 Hsub' Hbys); [auto| |exact Hrest].
      apply (Hvisit a t t1); [auto|exact Hy].
    - apply (Hone ys a t1 Hsub' Hays); [auto| |exact Hrest].
      apply (Hvisit b t t1); [auto|exact Hy].
    - apply (IH t1 Hsub' Hays Hbys Hrest). }
  apply (Htwo xs s); auto.
Qed.

End ForEachFacts.

(** *** Duplicate detection *)

Section DuplicatesFacts.

Import MiceAndMenSpy Spec.

Implicit Types (st : LabState) (X : string).

Lemma key_of_get {V} (k : string) (d : Dict.t V) v :
  Dict.get k d = Some v -> In k (Dict.keys d).
Proof.
  unfold Dict.keys. induction d as [|[k' v'] d IH]; simpl; [discriminate|].
  destruct (String.eqb_spec k k') as [->|]; auto.
Qed.

Lemma key_of_mem {V} (k : string) (d : Dict.t V) :
  Dict.mem k d = true -> In k (Dict.keys d).
Proof.
  unfold Dict.mem. destruct (Dict.get k d) eqn:E; [|discriminate].
  intros _. apply (key_of_get k d v E).
Qed.

(** Writing an entry of an inner dictionary keeps the keys of
    [subnetMap['Duplicates']]. *)
Lemma listed_set_entry X type k (r : ref) byKey subnetMap :
  Dict.get type subnetMap = Some byKey ->
  listed_as_duplicate X subnetMap ->
  listed_as_duplicate X (Dict.set type (Dict.set k r byKey) subnetMap).
Proof.
  intros Htype (dups & Hdups & HX). unfold listed_as_duplicate.
  rewrite get_set. destruct (String.eqb_spec "Duplicates" type) as [<-|Hne].
  - eexists. split; [reflexivity|]. rewrite mem_set.
    assert (byKey = dups) as -> by congruence. rewrite HX. apply orb_true_r.
  - eauto.
Qed.

Lemma macAddr_step_facts subnet type macAddr st st' X :
  macAddr_step subnet type macAddr st = Ok st' ->
  (met_in_lab X st -> met_in_lab X st') /\
  (listed_as_duplicate X (subnetMap st) ->
   listed_as_duplicate X (subnetMap st')) /\
  met_in_lab macAddr st' /\
  (met_in_lab macAddr st -> listed_as_duplicate macAddr (subnetMap st')).
Proof.
  unfold macAddr_step, Dict.item, met_in_lab.
  destruct (Dict.get type (subnetMap st)) as [byType|] eqn:HbyType; simpl;
    [|discriminate].
  match goal with
  | |- context [let '(_, _) := ?t in _] => remember t as first eqn:Hdef
  end.
  assert (Hfirst : forall Y, listed_as_duplicate Y (subnetMap st) ->
                             listed_as_duplicate Y first.1).
  { intros Y HY. subst first. destruct (Dict.mem subnet byType); simpl;
      [exact HY|]. apply listed_set_entry; assumption. }
  clear Hdef. destruct first as [subnetMap1 heap1]. simpl in Hfirst.
  destruct (Dict.get type subnetMap1) as [byType1|]; simpl; [|discriminate].
  destruct (Dict.get subnet byType1) as [r|]; simpl; [|discriminate].
  destruct (Dict.mem macAddr (labMacs st)) eqn:Hmet.
  - destruct (Dict.get macAddr (labMacs st)) as [r'|]; simpl; [|discriminate].
    destruct (Dict.get "Duplicates" subnetMap1) as [dups|] eqn:Hdups; simpl;
      [|discriminate].
    intros [= <-]. simpl. split; [auto|]. split; [|split].
    + intros HX. apply listed_set_entry; auto.
    + exact Hmet.
    + intros _. eexists. rewrite get_set_eq. split; [reflexivity|].
      rewrite mem_set, String.eqb_refl. reflexivity.
  - intros [= <-]. simpl. split; [|split; [|split]].
    + intros HX. rewrite mem_set, HX. apply orb_true_r.
    + auto.
    + rewrite mem_set, String.eqb_refl. reflexivity.
    + discriminate.
Qed.

Lemma type_step_facts info subnet type st st' X :
  type_step info subnet type st = Ok st' ->
  (met_in_lab X st -> met_in_lab X st') /\
  (listed_as_duplicate X (subnetMap st) ->
   listed_as_duplicate X (subnetMap st')) /\
  forall macs, Dict.get type info = Some macs -> Dict.mem X macs = true ->
    met_in_lab X st' /\
    (met_in_lab X st -> listed_as_duplicate X (subnetMap st')).
Proof.
  unfold type_step, Dict.item.
  set (st0 := if negb (Dict.mem type (subnetMap st))
              then mkLabState (Dict.set type [] (subnetMap st))
                              (labMacs st) (heap st)
              else st).
  assert (Hmet0 : forall Y, met_in_lab Y st0 <-> met_in_lab Y st).
  { intros Y. subst st0. destruct (Dict.mem type (subnetMap st)); reflexivity. }
  assert (Hlisted0 : forall Y, listed_as_duplicate Y (subnetMap st) ->
                               listed_as_duplicate Y (subnetMap st0)).
  { intros Y (dups & Hdups & HY). subst st0.
    destruct (Dict.mem type (subnetMap st)) eqn:Hmem; simpl;
      [exists dups; auto|].
    exists dups. split; [|exact HY]. rewrite get_set_ne; [exact Hdups|].
    intros ->. unfold Dict.mem in Hmem. rewrite Hdups in Hmem. discriminate. }
  clearbody st0.
  destruct (Dict.get type info) as [macs|]; simpl; [|discriminate].
  intros Hloop.
  assert (Hkeep_met : forall Y, met_in_lab Y st0 -> met_in_lab Y st').
  { intros Y. eapply (for_each_invariant (met_in_lab Y)); [|exact Hloop].
    intros m s1 s2 _ Hm. apply (macAddr_step_facts _ _ _ _ _ Y Hm). }
  assert (Hkeep_listed : forall Y, listed_as_duplicate Y (subnetMap st0) ->
                                   listed_as_duplicate Y (subnetMap st')).
  { intros Y.
    eapply (for_each_invariant (fun s => listed_as_duplicate Y (subnetMap s)));
      [|exact Hloop].
    intros m s1 s2 _ Hm. apply (macAddr_step_facts _ _ _ _ _ Y Hm). }
  split; [intros H; apply Hkeep_met, Hmet0, H|].
  split; [intros H; apply Hkeep_listed, Hlisted0, H|].
  intros macs' [= <-] HX. apply key_of_mem in HX. split.
  - apply (for_each_establishes (fun _ => True) (met_in_lab X)
             (Dict.keys macs) (macAddr_step subnet type) X st0 st' HX);
      [| | |exact Hloop|exact I].
    + intros s1 s2 Hm _. apply (macAddr_step_facts _ _ _ _ _ X Hm).
    + auto.
    + intros m s1 s2 _ Hm. apply (macAddr_step_facts _ _ _ _ _ X Hm).
  - intros Hmet.
    apply (for_each_establishes (met_in_lab X)
             (fun s => listed_as_duplicate X (subnetMap s))
             (Dict.keys macs) (macAddr_step subnet type) X st0 st' HX);
      [| | |exact Hloop|apply Hmet0, Hmet].
    + intros s1 s2 Hm. apply (macAddr_step_facts _ _ _ _ _ X Hm).
    + intros m s1 s2 _ Hm. apply (macAddr_step_facts _ _ _ _ _ X Hm).
    + intros m s1 s2 _ Hm. apply (macAddr_step_facts _ _ _ _ _ X Hm).
Qed.

Lemma subnet_step_facts subnets subnet st st' X :
  subnet_step subnets subnet st = Ok st' ->
  (met_in_lab X st -> met_in_lab X st') /\
  (listed_as_duplicate X (subnetMap st) ->
   listed_as_duplicate X (subnetMap st')) /\
  forall info type1 type2 macs1 macs2,
    Dict.get subnet subnets = Some info ->
    Dict.get type1 info = Some macs1 -> Dict.get type2 info = Some macs2 ->
    type1 <> type2 ->
    Dict.mem X macs1 = true -> Dict.mem X macs2 = true ->
    listed_as_duplicate X (subnetMap st').
Proof.
  unfold subnet_step, Dict.item.
  destruct (Dict.get subnet subnets) as [info|]; simpl; [|discriminate].
  intros Hloop.
  assert (HP : forall x s1 s2, In x (Dict.keys info) ->
             type_step info subnet x s1 = Ok s2 ->
             met_in_lab X s1 -> met_in_lab X s2).
  { intros x s1 s2 _ Hx. apply (type_step_facts _ _ _ _ _ X Hx). }
  assert (HQ : forall x s1 s2, In x (Dict.keys info) ->
             type_step info subnet x s1 = Ok s2 ->
             listed_as_duplicate X (subnetMap s1) ->
             listed_as_duplicate X (subnetMap s2)).
  { intros x s1 s2 _ Hx. apply (type_step_facts _ _ _ _ _ X Hx). }
  split; [apply (for_each_invariant (met_in_lab X) (Dict.keys info)
                   (type_step info subnet) st st' HP Hloop)|].
  split; [apply (for_each_invariant
                   (fun s => listed_as_duplicate X (subnetMap s))
                   (Dict.keys info) (type_step info subnet) st st' HQ Hloop)|].
  intros info' type1 type2 macs1 macs2 [= <-] H1 H2 Hne HX1 HX2.
  apply (for_each_second_visit (met_in_lab X)
           (fun s => listed_as_duplicate X (subnetMap s))
           (Dict.keys info) (type_step info subnet) type1 type2 st st');
    [apply (key_of_get _ _ _ H1)|apply (key_of_get _ _ _ H2)|exact Hne
    |exact HP|exact HQ| |exact Hloop].
  intros x s1 s2 [-> | ->] Hx;
    destruct (type_step_facts _ _ _ _ _ X Hx) as (_ & _ & Hvisit).
  - apply (Hvisit macs1 H1 HX1).
  - apply (Hvisit macs2 H2 HX2).
Qed.

(** An address that a network's classification result holds under two
    categories is listed under the lab's ["Duplicates"], although it may have
    been seen on that one network only. *)
Lemma address_under_two_categories_is_listed_as_duplicate
    blockMap cs lab subnets subnet info type1 type2 macs1 macs2 X :
  CreateCsvFiles blockMap = Ok cs ->
  Dict.get lab blockMap = Some subnets ->
  Dict.get subnet subnets = Some info ->
  Dict.get type1 info = Some macs1 -> Dict.get type2 info = Some macs2 ->
  type1 <> type2 ->
  Dict.mem X macs1 = true -> Dict.mem X macs2 = true ->
  exists byType,
    Dict.get lab (labMap cs) = Some byType /\
    listed_as_duplicate X byType.
Proof.
  intros Hrun Hlab Hsubnet H1 H2 Hne HX1 HX2. unfold CreateCsvFiles in Hrun.
  assert (Hstep : forall cs1 cs2, lab_step blockMap lab cs1 = Ok cs2 ->
            exists byType, Dict.get lab (labMap cs2) = Some byType /\
                           listed_as_duplicate X byType).
  { intros cs1 cs2. unfold lab_step, Dict.item. rewrite Hlab. simpl.
    destruct (for_each (Dict.keys subnets) (subnet_step subnets) _)
      as [st|e] eqn:Hloop; simpl; [|discriminate].
    intros [= <-]. simpl. exists (subnetMap st). rewrite get_set_eq.
    split; [reflexivity|].
    eapply (for_each_establishes (fun _ => True)
              (fun s => listed_as_duplicate X (subnetMap s))
              (Dict.keys subnets) (subnet_step subnets) subnet);
      [exact (key_of_get _ _ _ Hsubnet)| | | |exact Hloop|exact I].
    - intros s1 s2 Hs _.
      destruct (subnet_step_facts _ _ _ _ X Hs) as (_ & _ & Hvisit).
      apply (Hvisit info type1 type2 macs1 macs2); assumption.
    - auto.
    - intros y s1 s2 _ Hs. apply (subnet_step_facts _ _ _ _ X Hs). }
  eapply (for_each_establishes (fun _ => True)
            (fun cs => exists byType, Dict.get lab (labMap cs) = Some byType /\
                                      listed_as_duplicate X byType)
            (Dict.keys blockMap) (lab_step blockMap) lab);
    [exact (key_of_get _ _ _ Hlab)| | | |exact Hrun|exact I].
  - intros cs1 cs2 Hs _. apply (Hstep cs1 cs2 Hs).
  - auto.
  - intros lab' cs1 cs2 _ Hs Hbefore.
    destruct (String.eqb_spec lab' lab) as [->|Hother];
      [apply (Hstep cs1 cs2 Hs)|].
    revert Hs. unfold lab_step.
    destruct (Dict.item lab' blockMap) as [subnets'|e]; simpl; [|discriminate].
    destruct (for_each (Dict.keys subnets') (subnet_step subnets') _)
      as [st|e]; simpl; [|discriminate].
    intros [= <-]. simpl. rewrite get_set_ne by exact Hother. exact Hbefore.
Qed.

End DuplicatesFacts.

Section DuplicatesOfPassingRecords.

Import MiceAndMenSpy Spec.

Lemma recorded_Some category macAddr (retMap : RetMap) stored :
  recorded category macAddr retMap = Some stored ->
  exists macs, Dict.get category retMap = Some macs /\
               Dict.mem macAddr macs = true.
Proof.
  unfold recorded, Dict.mem.
  destruct (Dict.get category retMap) as [macs|]; [|discriminate].
  intros H. exists macs. rewrite H. auto.
Qed.

(** X15.  Every address with a passing record on a network is listed under
    the ["Duplicates"] of the network's lab, whether or not another network
    has it: the classification result holds it under its category and under
    ["All"], two categories unless the vendor table itself names the
    category ["All"]. *)
Lemma passing_address_is_listed_as_duplicate
    (strptime : string -> result datetime) (OUI_MAP : OuiMap)
    (checkDate : datetime) (records : list IpamRecord) (record : IpamRecord)
    (info : RetMap) blockMap cs lab subnets subnet :
  records_loop strptime OUI_MAP checkDate records initial_retMap = Ok info ->
  In record records ->
  passes strptime checkDate record = true ->
  category_of OUI_MAP (lastKnownClientIdentifier record) <> "All"%string ->
  CreateCsvFiles blockMap = Ok cs ->
  Dict.get lab blockMap = Some subnets ->
  Dict.get subnet subnets = Some info ->
  exists byType,
    Dict.get lab (labMap cs) = Some byType /\
    listed_as_duplicate (lastKnownClientIdentifier record) byType.
Proof.
  intros Hloop Hin Hpass Hcat Hrun Hlab Hsubnet.
  set (X := lastKnownClientIdentifier record) in *.
  destruct (latest_of_passing strptime checkDate record records Hin Hpass)
    as [stored Hlatest]. fold X in Hlatest.
  destruct (records_loop_spec strptime OUI_MAP checkDate records _ _
              reserved_present_initial Hloop) as (_ & _ & Hrec).
  assert (Hcategory : recorded (category_of OUI_MAP X) X info = Some stored).
  { rewrite Hrec, Hlatest, String.eqb_refl. reflexivity. }
  assert (HAll : recorded "All" X info = Some stored).
  { rewrite Hrec, Hlatest, String.eqb_refl, orb_true_r. reflexivity. }
  apply recorded_Some in Hcategory as (macs1 & H1 & HX1).
  apply recorded_Some in HAll as (macs2 & H2 & HX2).
  apply (address_under_two_categories_is_listed_as_duplicate
           blockMap cs lab subnets subnet info
           (category_of OUI_MAP X) "All" macs1 macs2 X); assumption.
Qed.

End DuplicatesOfPassingRecords.

(** *** The network name at the head of every list *)

Section HeadFacts.

Import MiceAndMenSpy Spec.

Implicit Types (h : Heap) (st : LabState) (cs : CsvState).

Lemma keeps_heads_refl h : keeps_heads h h.
Proof. intros r x l H. eauto. Qed.

Lemma keeps_heads_trans h1 h2 h3 :
  keeps_heads h1 h2 -> keeps_heads h2 h3 -> keeps_heads h1 h3.
Proof.
  intros H12 H23 r x l H. apply H12 in H as [l' H]. apply H23 in H. exact H.
Qed.

Lemma keeps_heads_new_list content h : keeps_heads h (new_list content h).2.
Proof.
  intros r x l H. change (new_list content h).2 with (h ++ [content]).
  unfold Heap in *. exists l. rewrite lookup_app_l; [exact H|].
  apply lookup_lt_Some in H. exact H.
Qed.

Lemma keeps_heads_list_append r' y h : keeps_heads h (list_append r' y h).
Proof.
  intros r x l H. unfold list_append, Heap in *.
  destruct (decide (r' = r)) as [->|Hne].
  - exists (l ++ [y]). rewrite list_lookup_alter_eq, H. reflexivity.
  - exists l. rewrite list_lookup_alter_ne by exact Hne. exact H.
Qed.

Lemma headed_by_network_later h h' subnetMap :
  keeps_heads h h' ->
  headed_by_network h subnetMap -> headed_by_network h' subnetMap.
Proof.
  intros Hkeep Hhead type bySubnet subnet r Hne Htype Hsubnet.
  destruct (Hhead type bySubnet subnet r Hne Htype Hsubnet) as [l Hl].
  apply Hkeep in Hl. exact Hl.
Qed.

Lemma headed_by_network_set_entry h subnetMap type bySubnet subnet r l :
  Dict.get type subnetMap = Some bySubnet ->
  h !! r = Some (subnet :: l) ->
  headed_by_network h subnetMap ->
  headed_by_network h (Dict.set type (Dict.set subnet r bySubnet) subnetMap).
Proof.
  intros Htype Hr Hhead type' bySubnet' subnet' r' Hne.
  rewrite get_set. destruct (String.eqb_spec type' type) as [->|Hother].
  - intros [= <-]. rewrite get_set.
    destruct (String.eqb_spec subnet' subnet) as [->|Hs].
    + intros [= <-]. eauto.
    + apply (Hhead type bySubnet subnet' r' Hne Htype).
  - apply (Hhead type' bySubnet' subnet' r' Hne).
Qed.

Lemma headed_by_network_set_Duplicates h subnetMap dups :
  headed_by_network h subnetMap ->
  headed_by_network h (Dict.set "Duplicates" dups subnetMap).
Proof.
  intros Hhead type bySubnet subnet r Hne.
  rewrite get_set_ne by congruence. apply (Hhead type bySubnet subnet r Hne).
Qed.

Lemma headed_by_network_set_empty h subnetMap type :
  headed_by_network h subnetMap ->
  headed_by_network h (Dict.set type [] subnetMap).
Proof.
  intros Hhead type' bySubnet subnet r Hne.
  rewrite get_set. destruct (String.eqb_spec type' type) as [->|Hother].
  - intros [= <-]. discriminate.
  - apply (Hhead type' bySubnet subnet r Hne).
Qed.

Lemma macAddr_step_heads subnet type macAddr st st' :
  macAddr_step subnet type macAddr st = Ok st' ->
  keeps_heads (heap st) (heap st') /\
  (headed_by_network (heap st) (subnetMap st) ->
   headed_by_network (heap st') (subnetMap st')).
Proof.
  unfold macAddr_step, Dict.item.
  destruct (Dict.get type (subnetMap st)) as [byType|] eqn:HbyType; simpl;
    [|discriminate].
  match goal with
  | |- context [let '(_, _) := ?t in _] => remember t as first eqn:Hdef
  end.
  assert (Hfirst : keeps_heads (heap st) first.2 /\
                   (headed_by_network (heap st) (subnetMap st) ->
                    headed_by_network first.2 first.1)).
  { subst first. destruct (Dict.mem subnet byType); simpl.
    - split; [apply keeps_heads_refl|auto].
    - split; [apply (keeps_heads_new_list [subnet])|]. intros Hhead.
      apply (headed_by_network_set_entry _ _ _ _ _ _ [] HbyType).
      + unfold Heap in *. rewrite lookup_app_r by reflexivity.
        rewrite Nat.sub_diag. reflexivity.
      + apply (headed_by_network_later (heap st)); [|exact Hhead].
        apply (keeps_heads_new_list [subnet]). }
  clear Hdef. destruct first as [subnetMap1 heap1]. simpl in Hfirst.
  destruct Hfirst as [Hkeep1 Hhead1].
  destruct (Dict.get type subnetMap1) as [byType1|]; simpl; [|discriminate].
  destruct (Dict.get subnet byType1) as [r|]; simpl; [|discriminate].
  pose proof (keeps_heads_list_append r macAddr heap1) as Hkeep2.
  destruct (Dict.mem macAddr (labMacs st)).
  - destruct (Dict.get macAddr (labMacs st)) as [r'|]; simpl; [|discriminate].
    destruct (Dict.get "Duplicates" subnetMap1) as [dups|]; simpl;
      [|discriminate].
    intros [= <-]. simpl.
    pose proof (keeps_heads_list_append r' subnet (list_append r macAddr heap1))
      as Hkeep3.
    split.
    + eapply keeps_heads_trans; [exact Hkeep1|].
      eapply keeps_heads_trans; [exact Hkeep2|exact Hkeep3].
    + intros Hhead. apply headed_by_network_set_Duplicates.
      apply (headed_by_network_later heap1); [|auto].
      eapply keeps_heads_trans; [exact Hkeep2|exact Hkeep3].
  - intros [= <-]. simpl.
    set (heap2 := list_append r macAddr heap1) in *.
    pose proof (keeps_heads_new_list [] heap2) as Hkeep3. simpl in Hkeep3.
    pose proof (keeps_heads_list_append (length heap2) subnet (heap2 ++ [[]]))
      as Hkeep4.
    assert (Hall : keeps_heads heap1
                     (list_append (length heap2) subnet (heap2 ++ [[]]))).
    { eapply keeps_heads_trans; [exact Hkeep2|].
      eapply keeps_heads_trans; [exact Hkeep3|exact Hkeep4]. }
    split.
    + eapply keeps_heads_trans; [exact Hkeep1|exact Hall].
    + intros Hhead. apply (headed_by_network_later heap1); [exact Hall|auto].
Qed.

Lemma type_step_heads h0 info subnet type st st' :
  type_step info subnet type st = Ok st' ->
  heads_invariant h0 st -> heads_invariant h0 st'.
Proof.
  unfold type_step, Dict.item.
  set (st0 := if negb (Dict.mem type (subnetMap st))
              then mkLabState (Dict.set type [] (subnetMap st))
                              (labMacs st) (heap st)
              else st).
  intros Hloop Hinv.
  assert (Hinv0 : heads_invariant h0 st0).
  { subst st0. destruct (Dict.mem type (subnetMap st)); simpl; [exact Hinv|].
    destruct Hinv as [Hkeep Hhead]. split; [exact Hkeep|].
    apply headed_by_network_set_empty, Hhead. }
  clearbody st0.
  destruct (Dict.get type info) as [macs|]; simpl in Hloop; [|discriminate].
  apply (for_each_invariant (heads_invariant h0) (Dict.keys macs)
           (macAddr_step subnet type) st0 st'); [|exact Hloop|exact Hinv0].
  intros macAddr s1 s2 _ Hstep [Hkeep Hhead].
  destruct (macAddr_step_heads _ _ _ _ _ Hstep) as [Hkeep' Hhead'].
  split; [eapply keeps_heads_trans; eassumption|auto].
Qed.

Lemma subnet_step_heads h0 subnets subnet st st' :
  subnet_step subnets subnet st = Ok st' ->
  heads_invariant h0 st -> heads_invariant h0 st'.
Proof.
  unfold subnet_step, Dict.item.
  destruct (Dict.get subnet subnets) as [info|]; simpl; [|discriminate].
  intros Hloop.
  apply (for_each_invariant (heads_invariant h0) (Dict.keys info)
           (type_step info subnet) st st'); [|exact Hloop].
  intros type s1 s2 _ Hstep. apply (type_step_heads h0 _ _ _ _ _ Hstep).
Qed.

Lemma lab_step_heads blockMap lab cs cs' :
  lab_step blockMap lab cs = Ok cs' ->
  (forall lab' byType, Dict.get lab' (labMap cs) = Some byType ->
                       headed_by_network (lists cs) byType) ->
  forall lab' byType, Dict.get lab' (labMap cs') = Some byType ->
                      headed_by_network (lists cs') byType.
Proof.
  unfold lab_step.
  destruct (Dict.item lab blockMap) as [subnets|e]; simpl; [|discriminate].
  destruct (for_each (Dict.keys subnets) (subnet_step subnets) _)
    as [st|e] eqn:Hloop; simpl; [|discriminate].
  intros [= <-] Hbefore lab' byType. simpl.
  assert (Hinv : heads_invariant (lists cs) st).
  { eapply (for_each_invariant (heads_invariant (lists cs)) (Dict.keys subnets)
              (subnet_step subnets)); [|exact Hloop|].
    - intros subnet s1 s2 _ Hstep.
      apply (subnet_step_heads (lists cs) _ _ _ _ Hstep).
    - split; [apply keeps_heads_refl|].
      intros type bySubnet subnet r Hne. simpl.
      destruct (String.eqb_spec type "Duplicates"); [contradiction|discriminate]. }
  destruct Hinv as [Hkeep Hhead].
  rewrite get_set. destruct (String.eqb_spec lab' lab) as [->|Hother].
  - intros [= <-]. exact Hhead.
  - intros Hget. apply (headed_by_network_later (lists cs)); [exact Hkeep|].
    apply (Hbefore lab' byType Hget).
Qed.

(** In the report, every list under a category other than ["Duplicates"]
    starts with the name of its network. *)
Lemma report_lists_start_with_network_name
    blockMap cs lab byType type bySubnet subnet r :
  CreateCsvFiles blockMap = Ok cs ->
  Dict.get lab (labMap cs) = Some byType ->
  type <> "Duplicates"%string ->
  Dict.get type byType = Some bySubnet ->
  Dict.get subnet bySubnet = Some r ->
  exists addresses, deref (lists cs) r = subnet :: addresses.
Proof.
  intros Hrun Hlab Hne Htype Hsubnet. unfold CreateCsvFiles in Hrun.
  assert (Hall : forall lab' byType',
            Dict.get lab' (labMap cs) = Some byType' ->
            headed_by_network (lists cs) byType').
  { eapply (for_each_invariant
              (fun cs => forall lab' byType',
                 Dict.get lab' (labMap cs) = Some byType' ->
                 headed_by_network (lists cs) byType')
              (Dict.keys blockMap) (lab_step blockMap)); [|exact Hrun|].
    - intros lab' s1 s2 _ Hstep. apply (lab_step_heads _ _ _ _ Hstep).
    - intros lab' byType'. discriminate. }
  destruct (Hall lab byType Hlab type bySubnet subnet r Hne Htype Hsubnet)
    as [addresses Hr].
  exists addresses. unfold deref. rewrite Hr. reflexivity.
Qed.

Lemma sum_of_lengths_counts_heads (h : Heap) (bySubnet : Dict.t ref)
    (subnets : list string) (n : nat) :
  (forall subnet, In subnet subnets ->
     exists r addresses, Dict.get subnet bySubnet = Some r /\
                         deref h r = subnet :: addresses) ->
  fold_left (fun total subnet =>
               total + length (deref h (default 0 (Dict.get subnet bySubnet))))
            subnets n =
  length subnets +
  fold_left (fun total subnet =>
               total + length (tail (deref h (default 0
                                                (Dict.get subnet bySubnet)))))
            subnets n.
Proof.
  revert n. induction subnets as [|subnet subnets IH]; intros n Hheads; simpl.
  - reflexivity.
  - destruct (Hheads subnet (or_introl eq_refl)) as (r & addresses & -> & Hr).
    simpl. rewrite Hr. simpl.
    rewrite IH by (intros s Hs; apply Hheads; right; exact Hs).
    assert (Hshift : forall (f : string -> nat) l a b,
              fold_left (fun total s => total + f s) l (a + b) =
              a + fold_left (fun total s => total + f s) l b).
    { intros f l. induction l as [|s l IHl]; intros a b; simpl; [reflexivity|].
      rewrite <- Nat.add_assoc. apply IHl. }
    replace (n + S (length addresses)) with (1 + (n + length addresses)) by lia.
    rewrite (Hshift (fun s => length (tail (deref h (default 0
                                   (Dict.get s bySubnet)))))).
    lia.
Qed.

(** X14.  The total printed for a category other than ["Duplicates"] is the
    number of addresses listed plus the number of networks listed: the name
    of every network that has an address in the category is counted with
    the addresses. *)
Lemma total_counts_addresses_and_networks
    blockMap cs lab byType type bySubnet :
  CreateCsvFiles blockMap = Ok cs ->
  Dict.get lab (labMap cs) = Some byType ->
  type <> "Duplicates"%string ->
  Dict.get type byType = Some bySubnet ->
  type_total (lists cs) type bySubnet =
  Dict.len bySubnet + addresses_listed (lists cs) bySubnet.
Proof.
  intros Hrun Hlab Hne Htype. unfold type_total, addresses_listed.
  destruct (String.eqb_spec type "Duplicates"); [contradiction|].
  rewrite sum_of_lengths_counts_heads.
  - unfold Dict.len, Dict.keys. rewrite length_map. reflexivity.
  - intros subnet Hin. destruct (get_of_key subnet bySubnet Hin) as [r Hr].
    destruct (report_lists_start_with_network_name blockMap cs lab byType
                type bySubnet subnet r Hrun Hlab Hne Htype Hr)
      as [addresses Haddresses].
    eauto.
Qed.

End HeadFacts.

(** *** The report of the sample runs *)

Section ReportTheorems.

Import MiceAndMenSpy Spec.

(** C1 (the code departs from the specification).  One lab, one network,
    one address seen recently on it, no vendor table: one address is
    classified as ["Other"] on one network, so the per-category totals of the
    specification are 1 for ["Other"] and 1 for ["All"], with no duplicated
    address.  The summary prints 2 and 2: [main] adds up the lengths of the
    lists [subnetMap[type][subnet]], and [CreateCsvFiles] starts each such
    list with the name of the network, the first column of its CSV line
    (lemma [total_counts_addresses_and_networks]).  It prints 1 for
    ["Duplicates"], for the reason shown under C2. *)
Theorem summary_counts_the_network_name :
  fmap (M := option) summary <$>
    main Sample.strptime "NetworkList.json" "cache.json" "oui.json"
         Sample.one_network
  = Ok (Some [("lab1"%string,
               [("Duplicates"%string, 1); ("Other"%string, 2);
                ("All"%string, 2)])]).
Proof. vm_compute. reflexivity. Qed.

(** With the address on two networks the totals are 4, for two addresses
    counted once per network. *)
Lemma summary_of_two_networks :
  fmap (M := option) summary <$>
    main Sample.strptime "NetworkList.json" "cache.json" "oui.json"
         Sample.two_networks
  = Ok (Some [("lab1"%string,
               [("Duplicates"%string, 1); ("Other"%string, 4);
                ("All"%string, 4)])]).
Proof. vm_compute. reflexivity. Qed.

(** C2 (the code departs from the specification).  The address [X] is seen
    on the single network [N1] of its lab, yet the report lists it under
    ["Duplicates"], with [N1] twice.  [CreateCsvFiles] walks every category
    of a network, ["All"] included, and [getInfoBlockForNetwork] files every
    address under its category and under ["All"]: the second visit finds the
    address already in [labMacs] and records a duplicate (lemma
    [passing_address_is_listed_as_duplicate]). *)
Theorem single_network_address_listed_as_duplicate :
  fmap (M := option) report <$>
    main Sample.strptime "NetworkList.json" "cache.json" "oui.json"
         Sample.one_network
  = Ok (Some [("lab1"%string,
               [("Duplicates"%string, [(Sample.X, [Sample.N1; Sample.N1])]);
                ("Other"%string, [(Sample.N1, [Sample.N1; Sample.X])]);
                ("All"%string, [(Sample.N1, [Sample.N1; Sample.X])])])]).
Proof. vm_compute. reflexivity. Qed.

(** With the address on two networks, each network is listed twice. *)
Lemma two_networks_each_listed_twice :
  fmap (M := option) report <$>
    main Sample.strptime "NetworkList.json" "cache.json" "oui.json"
         Sample.two_networks
  = Ok (Some [("lab1"%string,
               [("Duplicates"%string,
                 [(Sample.X, [Sample.N1; Sample.N1; Sample.N2; Sample.N2])]);
                ("Other"%string, [(Sample.N1, [Sample.N1; Sample.X]);
                                  (Sample.N2, [Sample.N2; Sample.X])]);
                ("All"%string, [(Sample.N1, [Sample.N1; Sample.X]);
                                (Sample.N2, [Sample.N2; Sample.X])])])]).
Proof. vm_compute. reflexivity. Qed.

End ReportTheorems.

(** ** MiceAndMenSpy.py: further properties *)

(** *** The request address *)

Section RequestFacts.

Import MiceAndMenSpy.
Local Open Scope string_scope.

Lemma string_app_assoc (a b c : string) : (a ++ b) ++ c = a ++ (b ++ c).
Proof.
  induction a as [|x a IH]; [reflexivity|].
  change ((String x a ++ b) ++ c) with (String x ((a ++ b) ++ c)).
  rewrite IH. reflexivity.
Qed.

Lemma string_app_nil_r (a : string) : a ++ "" = a.
Proof.
  induction a as [|x a IH]; [reflexivity|].
  change (String x a ++ "") with (String x (a ++ "")).
  rewrite IH. reflexivity.
Qed.

Lemma concat_empty_cons (first : string) (rest : list string) :
  String.concat "" (first :: rest) = first ++ String.concat "" rest.
Proof.
  destruct rest as [|second rest]; [|reflexivity].
  simpl. rewrite string_app_nil_r. reflexivity.
Qed.

Lemma paramList_fold (params : Dict.t string) (sofar : string) :
  fold_left paramList_step params (Some sofar) =
  Some (sofar ++
        String.concat ""
          (map (fun entry => "&" ++ (entry.1 ++ "=" ++ entry.2)) params)).
Proof.
  revert sofar. induction params as [|entry params IH]; intros sofar.
  - simpl. rewrite string_app_nil_r. reflexivity.
  - change (fold_left paramList_step (entry :: params) (Some sofar))
      with (fold_left paramList_step params
              (Some ((sofar ++ "&") ++ (entry.1 ++ "=" ++ entry.2)))).
    cbn [map]. rewrite IH, concat_empty_cons. f_equal.
    rewrite !string_app_assoc. reflexivity.
Qed.

Lemma concat_with_separator (sep first : string) (rest : list string) :
  String.concat sep (first :: rest) =
  first ++ String.concat "" (map (fun s => sep ++ s) rest).
Proof.
  revert first. induction rest as [|second rest IH]; intros first.
  - simpl. rewrite string_app_nil_r. reflexivity.
  - change (String.concat sep (first :: second :: rest))
      with (first ++ sep ++ String.concat sep (second :: rest)).
    rewrite IH. cbn [map]. rewrite concat_empty_cons.
    rewrite !string_app_assoc. reflexivity.
Qed.

(** X1.  The address that [get] requests is the base address and the API
    name, followed, when there are parameters, by ["?"] and the parameters as
    [name=value] in their order, separated by ["&"]; names and values are put
    in as they are, without any escaping. *)
Theorem get_url_query (api : string) (params : Dict.t string) :
  get_url api params =
  ddiURL ++ api ++
  match params with
  | [] => ""
  | _ :: _ =>
      "?" ++ String.concat "&"
               (map (fun entry => entry.1 ++ "=" ++ entry.2) params)
  end.
Proof.
  unfold get_url. destruct params as [|entry params]; [reflexivity|].
  change (fold_left paramList_step (entry :: params) None)
    with (fold_left paramList_step params
            (Some ("?" ++ (entry.1 ++ "=" ++ entry.2)))).
  cbn [Dict.len length Nat.eqb]. rewrite paramList_fold. cbn [default map].
  rewrite concat_with_separator, map_map. unfold id.
  rewrite string_app_assoc. reflexivity.
Qed.

End RequestFacts.

(** *** Matching and the record loop *)

Section MatchingFacts.

Import MiceAndMenSpy Spec.

Lemma slice_to_lower n s :
  Str.slice_to n (Str.lower s) = Str.lower (Str.slice_to n s).
Proof.
  revert s. induction n as [|n IH]; intros [|c s]; simpl; try reflexivity.
  rewrite IH. reflexivity.
Qed.

Lemma macID_matches_lower macID macAddr :
  macID_matches macID macAddr =
  String.eqb (Str.lower macID)
             (Str.slice_to (String.length (Str.lower macID)) (Str.lower macAddr)).
Proof.
  rewrite macID_matches_prefix_equal. unfold prefix_equal_ci.
  rewrite length_lower, slice_to_lower. reflexivity.
Qed.

(** X2.  Matching reads the prefix and the address in lower case only: two
    prefixes, and two addresses, that differ in letter case alone match
    alike. *)
Theorem matching_ignores_letter_case (macID macID' macAddr macAddr' : string) :
  Str.lower macID = Str.lower macID' ->
  Str.lower macAddr = Str.lower macAddr' ->
  macID_matches macID macAddr = macID_matches macID' macAddr'.
Proof.
  intros Hid Haddr. rewrite !macID_matches_lower, Hid, Haddr. reflexivity.
Qed.

Lemma matching_ignores_letter_case_witness :
  macID_matches "00:0C:29" "00:0c:29:AB:cd:01" =
  macID_matches "00:0c:29" "00:0C:29:ab:CD:01".
Proof.
  exact (matching_ignores_letter_case "00:0C:29" "00:0c:29"
           "00:0c:29:AB:cd:01" "00:0C:29:ab:CD:01" eq_refl eq_refl).
Defined.

(** X3.  A prefix longer than the address never matches it, although the
    address may be the beginning of the prefix; the empty prefix matches
    every address. *)
Theorem prefix_longer_than_address_never_matches (macID macAddr : string) :
  String.length macAddr < String.length macID ->
  macID_matches macID macAddr = false /\ macID_matches "" macAddr = true.
Proof.
  intros Hshort. split; [|reflexivity].
  unfold macID_matches. apply contains_longer.
  rewrite !length_lower.
  assert (Hslice : forall n s, String.length s <= n ->
                               Str.slice_to n s = s).
  { induction n as [|n IH]; intros [|c s]; simpl; try reflexivity; try lia.
    intros H. rewrite IH by lia. reflexivity. }
  rewrite Hslice by lia. exact Hshort.
Qed.

Lemma prefix_longer_than_address_never_matches_witness :
  macID_matches "00:50:56" "00:50" = false /\ macID_matches "" "00:50" = true.
Proof.
  apply (prefix_longer_than_address_never_matches "00:50:56" "00:50").
  simpl. lia.
Defined.

End MatchingFacts.

Section RecordLoopErrors.

Import MiceAndMenSpy Spec.

Variable strptime : string -> result datetime.
Variable OUI_MAP : OuiMap.
Variable checkDate : datetime.

(** A round of the record loop ends as [strptime] does on a record with a
    hardware address, and normally on a record without. *)
Lemma process_record_outcome record retMap :
  reserved_present retMap ->
  match process_record strptime OUI_MAP checkDate record retMap with
  | Ok retMap' =>
      reserved_present retMap' /\
      ((0 <? String.length (lastKnownClientIdentifier record)) = true ->
       is_Ok (strptime (lastSeenDate record)) = true)
  | Raise e =>
      (0 <? String.length (lastKnownClientIdentifier record)) = true /\
      strptime (lastSeenDate record) = Raise e
  end.
Proof.
  intros Hres. unfold process_record.
  destruct (0 <? String.length (lastKnownClientIdentifier record)); simpl.
  - destruct (strptime (lastSeenDate record)) as [lastSeen|e]; simpl; [|auto].
    destruct (isRecent lastSeen checkDate); [|split; auto].
    destruct (classify_record_spec OUI_MAP record retMap Hres)
      as (retMap' & -> & Hres' & _). auto.
  - split; [exact Hres|discriminate].
Qed.

(** X4.  The record loop stops at the first record that has a hardware
    address and a timestamp that [strptime] refuses, with the exception that
    [strptime] raised, whether or not that record would have been in the time
    window; a record without hardware address is never parsed.  Nothing else
    makes the loop raise. *)
Theorem records_loop_raises_what_strptime_raises
    (records : list IpamRecord) :
  match records_loop strptime OUI_MAP checkDate records initial_retMap with
  | Ok _ =>
      forall record, In record records ->
        (0 <? String.length (lastKnownClientIdentifier record)) = true ->
        is_Ok (strptime (lastSeenDate record)) = true
  | Raise e =>
      exists before record after,
        records = before ++ record :: after /\
        (0 <? String.length (lastKnownClientIdentifier record)) = true /\
        strptime (lastSeenDate record) = Raise e /\
        forall earlier, In earlier before ->
          (0 <? String.length (lastKnownClientIdentifier earlier)) = true ->
          is_Ok (strptime (lastSeenDate earlier)) = true
  end.
Proof.
  generalize reserved_present_initial. generalize initial_retMap.
  induction records as [|record records IH]; intros retMap Hres.
  - simpl. intros ? [].
  - cbn [records_loop].
    pose proof (process_record_outcome record retMap Hres) as Hstep.
    destruct (process_record strptime OUI_MAP checkDate record retMap)
      as [retMap1|e]; simpl.
    + destruct Hstep as [Hres1 Hparsed]. specialize (IH retMap1 Hres1).
      destruct (records_loop strptime OUI_MAP checkDate records retMap1)
        as [retMap'|e].
      * intros r [<-|Hr]; auto.
      * destruct IH as (before & failing & after & -> & Hmac & Hraise & Hbefore).
        exists (record :: before), failing, after.
        split; [reflexivity|]. split; [exact Hmac|]. split; [exact Hraise|].
        intros earlier [<-|Hin]; auto.
    + destruct Hstep as [Hmac Hraise].
      exists [], record, records. split; [reflexivity|].
      split; [exact Hmac|]. split; [exact Hraise|]. intros ? [].
Qed.

Lemma ouiType_loop_creates_categories ouiTypes macAddr record st st' :
  ouiType_loop OUI_MAP ouiTypes macAddr record st = Ok st' ->
  (forall k, Dict.mem k st.1 = true -> Dict.mem k st'.1 = true) /\
  (forall k, In k ouiTypes -> Dict.mem k st'.1 = true).
Proof.
  revert st. induction ouiTypes as [|ouiType ouiTypes IH]; intros [retMap found].
  - simpl. intros [= <-]. split; [auto|intros ? []].
  - cbn [ouiType_loop fst snd].
    set (retMap1 := if Dict.mem ouiType retMap then retMap
                    else Dict.set ouiType [] retMap).
    assert (Hmono1 : forall k, Dict.mem k retMap = true ->
                               Dict.mem k retMap1 = true).
    { subst retMap1. intros k Hk. destruct (Dict.mem ouiType retMap); [exact Hk|].
      rewrite mem_set, Hk. apply orb_true_r. }
    assert (Hmem1 : Dict.mem ouiType retMap1 = true).
    { subst retMap1. destruct (Dict.mem ouiType retMap) eqn:E; [exact E|].
      rewrite mem_set, String.eqb_refl. reflexivity. }
    clearbody retMap1.
    assert (Hinner : forall st1,
              (if negb found
               then Dict.item ouiType OUI_MAP ≫= fun macIDs =>
                    macID_loop macIDs ouiType macAddr record (retMap1, found)
               else mret (retMap1, found)) = Ok st1 ->
              forall k, Dict.mem k st1.1 = Dict.mem k retMap1).
    { intros st1. destruct found; simpl.
      - intros [= <-]. reflexivity.
      - destruct (Dict.item ouiType OUI_MAP) as [macIDs|e]; simpl;
          [|discriminate].
        destruct (macID_loop_spec macIDs ouiType macAddr record retMap1 false
                    Hmem1) as (retMap2 & -> & _ & Hmem2 & _).
        intros [= <-]. exact Hmem2. }
    match goal with
    | |- (?inner ≫= _) = _ -> _ => destruct inner as [st1|e] eqn:Hst1
    end; simpl; [|discriminate].
    intros Hrest. specialize (Hinner st1 eq_refl).
    destruct (IH st1 Hrest) as [Hmono Hall]. split.
    + intros k Hk. apply Hmono. rewrite Hinner. auto.
    + intros k [<-|Hk]; [|auto]. apply Hmono. rewrite Hinner. exact Hmem1.
Qed.

Lemma classify_record_creates_categories record retMap retMap' :
  classify_record OUI_MAP record retMap = Ok retMap' ->
  forall k, In k (Dict.keys OUI_MAP) -> Dict.mem k retMap' = true.
Proof.
  unfold classify_record.
  destruct (ouiType_loop OUI_MAP (Dict.keys OUI_MAP) _ record (retMap, false))
    as [st|e] eqn:Hloop; simpl; [|discriminate].
  destruct (ouiType_loop_creates_categories _ _ _ _ _ Hloop) as [_ Hall].
  assert (Hstore : forall category macAddr m m',
            store category macAddr record m = Ok m' ->
            forall k, Dict.mem k m = true -> Dict.mem k m' = true).
  { intros category macAddr m m'. unfold store, Dict.item.
    destruct (Dict.get category m) as [inner|]; simpl; [|discriminate].
    intros [= <-] k Hk. rewrite mem_set, Hk. apply orb_true_r. }
  destruct (negb st.2).
  - destruct (store "Other" _ record st.1) as [retMap1|e] eqn:H1; simpl;
      [|discriminate].
    intros H2 k Hk. apply (Hstore _ _ _ _ H2), (Hstore _ _ _ _ H1), Hall, Hk.
  - simpl. intros H2 k Hk. apply (Hstore _ _ _ _ H2), Hall, Hk.
Qed.

(** X5.  The categories of the vendor table become keys of the result only
    when a record passes the checks, and then all of them do, with or without
    an address of their own; the result never has another key besides
    ["Other"] and ["All"].  When no record passes, the result is the initial
    map. *)
Theorem categories_are_created_by_the_first_passing_record
    (records : list IpamRecord) (retMap : RetMap) :
  records_loop strptime OUI_MAP checkDate records initial_retMap = Ok retMap ->
  (forall k, Dict.mem k retMap = true ->
     k = "Other"%string \/ k = "All"%string \/ In k (Dict.keys OUI_MAP)) /\
  ((exists record, In record records /\
                   passes strptime checkDate record = true) ->
   forall k, In k (Dict.keys OUI_MAP) -> Dict.mem k retMap = true) /\
  ((forall record, In record records ->
                   passes strptime checkDate record = false) ->
   retMap = initial_retMap).
Proof.
  intros Hloop. split; [|split].
  - intros k Hk.
    destruct (records_loop_spec strptime OUI_MAP checkDate records _ _
                reserved_present_initial Hloop) as (_ & Hkeys & _).
    destruct (Hkeys k Hk) as [Hinit|Htable]; [|auto].
    revert Hinit. unfold Dict.mem, initial_retMap. simpl.
    destruct (String.eqb_spec k "Other"); [auto|].
    destruct (String.eqb_spec k "All"); [auto|discriminate].
  - intros (record & Hin & Hpass) k Hk.
    revert Hloop. generalize reserved_present_initial. generalize initial_retMap.
    induction records as [|first records IH]; intros retMap0 Hres0; [destruct Hin|].
    cbn [records_loop].
    destruct (process_record strptime OUI_MAP checkDate first retMap0)
      as [retMap1|e] eqn:Hstep; simpl; [|discriminate].
    intros Hrest.
    pose proof (process_record_outcome first retMap0 Hres0) as Hout.
    rewrite Hstep in Hout. destruct Hout as [Hres1 _].
    destruct Hin as [->|Hin]; [|apply (IH Hin retMap1 Hres1 Hrest)].
    apply process_record_spec in Hstep; [|exact Hres0].
    rewrite Hpass in Hstep.
    assert (Hkeep : forall rs m m',
              reserved_present m ->
              records_loop strptime OUI_MAP checkDate rs m = Ok m' ->
              Dict.mem k m = true -> Dict.mem k m' = true).
    { induction rs as [|r rs IHrs]; intros m m' Hm; simpl.
      - intros [= <-]. auto.
      - destruct (process_record strptime OUI_MAP checkDate r m)
          as [m1|e1] eqn:Hr; simpl; [|discriminate].
        intros Hrs Hk'.
        pose proof (process_record_outcome r m Hm) as Hout.
        rewrite Hr in Hout. destruct Hout as [Hm1 _].
        apply (IHrs m1 m' Hm1 Hrs).
        apply process_record_spec in Hr; [|exact Hm].
        destruct (passes strptime checkDate r); [|subst m1; exact Hk'].
        apply (classify_record_creates_categories r m m1 Hr k Hk). }
    apply (Hkeep records retMap1 retMap Hres1 Hrest).
    apply (classify_record_creates_categories record retMap0 retMap1 Hstep k Hk).
  - intros Hnone. revert Hloop Hnone. generalize reserved_present_initial.
    generalize initial_retMap. revert retMap.
    induction records as [|first records IH]; intros retMap retMap0 Hres0.
    + simpl. intros [= <-] _. reflexivity.
    + cbn [records_loop].
      destruct (process_record strptime OUI_MAP checkDate first retMap0)
        as [retMap1|e] eqn:Hstep; simpl; [|discriminate].
      intros Hrest Hnone.
      apply process_record_spec in Hstep; [|exact Hres0].
      rewrite (Hnone first (or_introl eq_refl)) in Hstep. subst retMap1.
      apply IH; [exact Hres0|exact Hrest|].
      intros r Hr. apply Hnone. right. exact Hr.
Qed.

End RecordLoopErrors.

Lemma categories_are_created_by_the_first_passing_record_witness :
  exists retMap,
    MiceAndMenSpy.records_loop Sample.strptime Sample.OUI_MAP
      (mkdatetime 2023 7 1 12 0 0 0) [Sample.seen_recently Sample.X]
      Spec.initial_retMap = Ok retMap /\
    forall k, In k (Dict.keys Sample.OUI_MAP) -> Dict.mem k retMap = true.
Proof.
  eexists. split; [reflexivity|].
  apply (categories_are_created_by_the_first_passing_record
           Sample.strptime Sample.OUI_MAP (mkdatetime 2023 7 1 12 0 0 0)
           [Sample.seen_recently Sample.X] _ eq_refl).
  exists (Sample.seen_recently Sample.X).
  split; [left; reflexivity|reflexivity].
Defined.

(** *** The cache file of [getInfoBlockForNetwork] *)

Section CacheFacts.

Import MiceAndMenSpy Spec.

Variable strptime : string -> result datetime.
Variable OUI_MAP : OuiMap.

(** X6.  The cache file answers a repeated lookup of the info block.  Once
    the lookup of a network has returned with [useLocalReservationCache],
    the lookup of the same network on the files as they are then returns the
    same info block without a request to the service, whatever the service
    would answer by then, and writes nothing. *)
Theorem cached_info_block_needs_no_service
    (networkSubnet cacheFile : string) (w w1 : World) (rangeData : RangeData) :
  read_rangeData networkSubnet cacheFile true w = Ok (rangeData, w1) ->
  forall (useLocalReservationCache : bool)
         (ranges_now : string -> result RangeData),
    let w2 := mkWorld (getenv w1) (network_files w1) (oui_files w1)
                      (cache_files w1) (reservation_files w1) ranges_now
                      (rest_IPAMRecords w1) (clock w1) (ticks w1) in
    read_rangeData networkSubnet cacheFile useLocalReservationCache w2
      = Ok (rangeData, w2).
Proof.
  intros Hfirst flag ranges_now w2.
  assert (Hcached : Dict.get networkSubnet
                      (readMapFromJsonFile (cache_files w1 cacheFile))
                    = Some rangeData).
  { revert Hfirst. unfold read_rangeData.
    destruct (Dict.mem networkSubnet
                (readMapFromJsonFile (cache_files w cacheFile))); simpl.
    - unfold Dict.item.
      destruct (Dict.get networkSubnet _) as [found|] eqn:Hget; simpl;
        [|discriminate].
      intros [= <- <-]. exact Hget.
    - destruct (rest_Ranges w networkSubnet) as [answer|e]; simpl;
        [|discriminate].
      intros [= <- <-]. simpl. rewrite String.eqb_refl. simpl.
      apply get_set_eq. }
  unfold read_rangeData, Dict.mem, Dict.item. subst w2. cbn [cache_files].
  rewrite Hcached. reflexivity.
Qed.

Lemma cached_info_block_needs_no_service_witness :
  exists rangeData w1,
    read_rangeData Sample.N1 "cache.json" true Sample.one_network
      = Ok (rangeData, w1) /\
    let w2 := mkWorld (getenv w1) (network_files w1) (oui_files w1)
                      (cache_files w1) (reservation_files w1)
                      (fun _ => Raise SystemExit)
                      (rest_IPAMRecords w1) (clock w1) (ticks w1) in
    read_rangeData Sample.N1 "cache.json" true w2 = Ok (rangeData, w2).
Proof.
  eexists _, _. split; [reflexivity|].
  apply (cached_info_block_needs_no_service Sample.N1 "cache.json"
           Sample.one_network _ _ eq_refl true (fun _ => Raise SystemExit)).
Defined.

(** X7.  Without [useLocalReservationCache] the function writes no file and
    does not read the reservation file of the network: its result is the
    same whatever the reservation files hold, and the world it leaves
    differs from the one it found by the reading of the clock only. *)
Theorem without_local_cache_no_file_is_written
    (networkSubnet cacheFile : string) (retMap : RetMap) (w' : World)
    env networks oui cache reservations ranges records clock ticks :
  getInfoBlockForNetwork strptime OUI_MAP networkSubnet cacheFile false
    (mkWorld env networks oui cache reservations ranges records clock ticks)
    = Ok (retMap, w') ->
  w' = mkWorld env networks oui cache reservations ranges records clock
               (S ticks) /\
  forall other_reservations,
    getInfoBlockForNetwork strptime OUI_MAP networkSubnet cacheFile false
      (mkWorld env networks oui cache other_reservations ranges records
               clock ticks)
    = Ok (retMap,
          mkWorld env networks oui cache other_reservations ranges records
                  clock (S ticks)).
Proof.
  unfold getInfoBlockForNetwork, read_rangeData, read_respData.
  cbn [datetime_now MiceAndMenSpy.clock MiceAndMenSpy.ticks cache_files
       rest_Ranges rest_IPAMRecords].
  destruct (checkDate_of (clock ticks)) as [checkDate|e]; simpl;
    [|discriminate].
  destruct (Dict.mem networkSubnet (readMapFromJsonFile (cache cacheFile)));
    simpl.
  - destruct (Dict.item networkSubnet _) as [rangeData|e]; simpl;
      [|discriminate].
    destruct (rangeRef_of rangeData) as [rangeRef|].
    + destruct (records rangeRef) as [respData|e]; simpl; [|discriminate].
      destruct (Dict.item "ipamRecords" respData) as [rs|e]; simpl;
        [|discriminate].
      destruct (records_loop strptime OUI_MAP checkDate rs _) as [m|e]; simpl;
        [|discriminate].
      intros [= <- <-]. auto.
    + intros [= <- <-]. auto.
  - destruct (ranges networkSubnet) as [rangeData|e]; simpl; [|discriminate].
    destruct (rangeRef_of rangeData) as [rangeRef|].
    + destruct (records rangeRef) as [respData|e]; simpl; [|discriminate].
      destruct (Dict.item "ipamRecords" respData) as [rs|e]; simpl;
        [|discriminate].
      destruct (records_loop strptime OUI_MAP checkDate rs _) as [m|e]; simpl;
        [|discriminate].
      intros [= <- <-]. auto.
    + intros [= <- <-]. auto.
Qed.

End CacheFacts.

Lemma without_local_cache_no_file_is_written_witness :
  exists retMap w',
    MiceAndMenSpy.getInfoBlockForNetwork Sample.strptime Sample.OUI_MAP
      Sample.N1 "cache.json" false Sample.one_network = Ok (retMap, w') /\
    w' = (MiceAndMenSpy.datetime_now Sample.one_network).2.
Proof.
  eexists _, _. split; [reflexivity|].
  apply (without_local_cache_no_file_is_written Sample.strptime
           Sample.OUI_MAP Sample.N1 "cache.json" _ _ _ _ _ _ _ _ _ _ _
           (eq_refl : MiceAndMenSpy.getInfoBlockForNetwork Sample.strptime
              Sample.OUI_MAP Sample.N1 "cache.json" false
              Sample.one_network = Ok _)).
Defined.

(** *** A repeated call of [getInfoBlockForNetwork] *)

Section RepeatedCall.

Import MiceAndMenSpy Spec.

Variable strptime : string -> result datetime.
Variable OUI_MAP : OuiMap.

(** What the lookup of the info block leaves in the cache file when it has
    returned with the cache in use: the next read of the file finds the
    block under the network. *)
Lemma read_rangeData_cached networkSubnet cacheFile w rangeData w1 :
  read_rangeData networkSubnet cacheFile true w = Ok (rangeData, w1) ->
  Dict.get networkSubnet (readMapFromJsonFile (cache_files w1 cacheFile))
    = Some rangeData /\
  reservation_files w1 = reservation_files w.
Proof.
  unfold read_rangeData.
  destruct (Dict.mem networkSubnet
              (readMapFromJsonFile (cache_files w cacheFile))); simpl.
  - unfold Dict.item.
    destruct (Dict.get networkSubnet _) as [found|] eqn:Hget; simpl;
      [|discriminate].
    intros [= <- <-]. auto.
  - destruct (rest_Ranges w networkSubnet) as [answer|e]; simpl;
      [|discriminate].
    intros [= <- <-]. simpl. rewrite String.eqb_refl. simpl.
    split; [apply get_set_eq|reflexivity].
Qed.

Lemma read_rangeData_hit networkSubnet cacheFile flag w rangeData :
  Dict.get networkSubnet (readMapFromJsonFile (cache_files w cacheFile))
    = Some rangeData ->
  read_rangeData networkSubnet cacheFile flag w = Ok (rangeData, w).
Proof.
  intros Hget. unfold read_rangeData, Dict.mem, Dict.item. rewrite Hget.
  reflexivity.
Qed.

(** Likewise for the records: a dictionary that is not empty is in the
    reservation file of the network afterwards. *)
Lemma read_respData_cached networkSubnet rangeRef w respData w1 :
  read_respData networkSubnet rangeRef true w = Ok (respData, w1) ->
  respData <> [] ->
  readMapFromJsonFile
    (reservation_files w1 (Str.replace_char "/" "_" networkSubnet ++ ".json"))
    = respData /\
  cache_files w1 = cache_files w.
Proof.
  unfold read_respData.
  destruct (readMapFromJsonFile (reservation_files w _)) as [|entry entries]
    eqn:Hfile.
  - destruct (rest_IPAMRecords w rangeRef) as [answer|e]; simpl;
      [|discriminate].
    intros [= <- <-] _. simpl. rewrite String.eqb_refl. auto.
  - simpl. intros [= <- <-] _. auto.
Qed.

Lemma read_respData_hit networkSubnet rangeRef w respData :
  readMapFromJsonFile
    (reservation_files w (Str.replace_char "/" "_" networkSubnet ++ ".json"))
    = respData ->
  respData <> [] ->
  read_respData networkSubnet rangeRef true w = Ok (respData, w).
Proof.
  intros Hfile Hne. unfold read_respData. rewrite Hfile.
  destruct respData; [contradiction|reflexivity].
Qed.

(** X22.  The local files answer a repeated call.  After a call with
    [useLocalReservationCache] has returned, a call for the same network
    that finds the cache file and the reservation file of the network as the
    first call left them, and the clock at the same reading, returns the
    same classification without any request to the service, whatever the
    service would answer by then, and writes nothing. *)
Theorem repeated_call_needs_no_service
    (networkSubnet cacheFile : string) (w w1 w2 : World) (retMap : RetMap) :
  getInfoBlockForNetwork strptime OUI_MAP networkSubnet cacheFile true w
    = Ok (retMap, w1) ->
  cache_files w2 cacheFile = cache_files w1 cacheFile ->
  reservation_files w2 (Str.replace_char "/" "_" networkSubnet ++ ".json")
    = reservation_files w1 (Str.replace_char "/" "_" networkSubnet ++ ".json") ->
  clock w2 (ticks w2) = clock w (ticks w) ->
  forall (ranges_now : string -> result RangeData)
         (records_now : string -> result RespData),
    getInfoBlockForNetwork strptime OUI_MAP networkSubnet cacheFile true
      (mkWorld (getenv w2) (network_files w2) (oui_files w2) (cache_files w2)
               (reservation_files w2) ranges_now records_now
               (clock w2) (ticks w2))
    = Ok (retMap,
          mkWorld (getenv w2) (network_files w2) (oui_files w2) (cache_files w2)
                  (reservation_files w2) ranges_now records_now
                  (clock w2) (S (ticks w2))).
Proof.
  intros Hfirst Hcache Hreservations Hclock ranges_now records_now.
  revert Hfirst. unfold getInfoBlockForNetwork, datetime_now.
  cbn [clock ticks]. cbv beta iota. rewrite Hclock.
  destruct (checkDate_of (clock w (ticks w))) as [checkDate|e]; simpl;
    [|discriminate].
  destruct (read_rangeData networkSubnet cacheFile true _)
    as [[rangeData wa]|e] eqn:Hrange; simpl; [|discriminate].
  apply read_rangeData_cached in Hrange as [Hcached _].
  match goal with
  | |- context [read_rangeData _ _ _ ?later] => set (wb := later)
  end.
  destruct (rangeRef_of rangeData) as [rangeRef|] eqn:Href.
  - destruct (read_respData networkSubnet rangeRef true wa)
      as [[respData wc]|e] eqn:Hresp; simpl; [|discriminate].
    destruct (Dict.item "ipamRecords" respData) as [records|e] eqn:Hrecords;
      simpl; [|discriminate].
    assert (Hne : respData <> []) by (intros ->; discriminate).
    apply read_respData_cached in Hresp as [Hfile Hcache']; [|exact Hne].
    destruct (records_loop strptime OUI_MAP checkDate records _)
      as [retMap'|e] eqn:Hloop; simpl; [|discriminate].
    intros [= <- <-].
    rewrite (read_rangeData_hit networkSubnet cacheFile true wb rangeData)
      by (subst wb; cbn [cache_files]; rewrite Hcache, Hcache'; exact Hcached).
    simpl. rewrite Href.
    rewrite (read_respData_hit networkSubnet rangeRef wb respData);
      [|subst wb; cbn [reservation_files]; rewrite Hreservations; exact Hfile
       |exact Hne].
    simpl. rewrite Hrecords. simpl. rewrite Hloop. reflexivity.
  - intros [= <- <-].
    rewrite (read_rangeData_hit networkSubnet cacheFile true wb rangeData)
      by (subst wb; cbn [cache_files]; rewrite Hcache; exact Hcached).
    simpl. rewrite Href. reflexivity.
Qed.

End RepeatedCall.

Lemma repeated_call_needs_no_service_witness :
  exists retMap w1,
    MiceAndMenSpy.getInfoBlockForNetwork Sample.strptime Sample.OUI_MAP
      Sample.N1 "cache.json" true Sample.one_network = Ok (retMap, w1) /\
    MiceAndMenSpy.getInfoBlockForNetwork Sample.strptime Sample.OUI_MAP
      Sample.N1 "cache.json" true
      (MiceAndMenSpy.mkWorld
         (MiceAndMenSpy.getenv w1) (MiceAndMenSpy.network_files w1)
         (MiceAndMenSpy.oui_files w1) (MiceAndMenSpy.cache_files w1)
         (MiceAndMenSpy.reservation_files w1)
         (fun _ => Raise SystemExit) (fun _ => Raise SystemExit)
         (MiceAndMenSpy.clock w1) 0)
    = Ok (retMap,
          MiceAndMenSpy.mkWorld
            (MiceAndMenSpy.getenv w1) (MiceAndMenSpy.network_files w1)
            (MiceAndMenSpy.oui_files w1) (MiceAndMenSpy.cache_files w1)
            (MiceAndMenSpy.reservation_files w1)
            (fun _ => Raise SystemExit) (fun _ => Raise SystemExit)
            (MiceAndMenSpy.clock w1) 1).
Proof.
  destruct (MiceAndMenSpy.getInfoBlockForNetwork Sample.strptime
              Sample.OUI_MAP Sample.N1 "cache.json" true Sample.one_network)
    as [[retMap w1]|e] eqn:Hfirst.
  - exists retMap, w1. split; [reflexivity|].
    pose proof Hfirst as Hvalue. vm_compute in Hvalue.
    injection Hvalue as _ Hworld.
    apply (repeated_call_needs_no_service Sample.strptime Sample.OUI_MAP
             Sample.N1 "cache.json" Sample.one_network w1
             (MiceAndMenSpy.mkWorld
                (MiceAndMenSpy.getenv w1) (MiceAndMenSpy.network_files w1)
                (MiceAndMenSpy.oui_files w1) (MiceAndMenSpy.cache_files w1)
                (MiceAndMenSpy.reservation_files w1)
                (MiceAndMenSpy.rest_Ranges w1)
                (MiceAndMenSpy.rest_IPAMRecords w1)
                (MiceAndMenSpy.clock w1) 0)
             retMap Hfirst eq_refl eq_refl).
    subst w1. reflexivity.
  - vm_compute in Hfirst. discriminate.
Defined.

(** *** [CreateCsvFiles] returns *)

Section CreateCsvFilesReturns.

Import MiceAndMenSpy Spec.

(** A loop returns when every round started from [P] returns and keeps
    [P]. *)
Lemma for_each_returns {A S} (P : S -> Prop) (xs : list A)
    (body : A -> S -> result S) (s : S) :
  (forall x s1, In x xs -> P s1 -> exists s2, body x s1 = Ok s2 /\ P s2) ->
  P s -> exists s', for_each xs body s = Ok s' /\ P s'.
Proof.
  revert s. induction xs as [|x xs IH]; intros s Hbody Hs; simpl.
  - eauto.
  - destruct (Hbody x s (or_introl eq_refl) Hs) as (s1 & -> & Hs1). simpl.
    apply IH; [|exact Hs1]. intros y s2 Hy. apply Hbody. right. exact Hy.
Qed.

Lemma item_of_mem {V} (k : string) (d : Dict.t V) :
  Dict.mem k d = true -> exists v, Dict.item k d = Ok v /\ Dict.get k d = Some v.
Proof.
  unfold Dict.mem, Dict.item. destruct (Dict.get k d); [eauto|discriminate].
Qed.

(** The keys a round must find in [subnetMap]: the category at hand and
    ["Duplicates"]. *)
Lemma macAddr_step_returns subnet type macAddr st :
  Dict.mem type (subnetMap st) = true ->
  Dict.mem "Duplicates" (subnetMap st) = true ->
  exists st', macAddr_step subnet type macAddr st = Ok st' /\
              forall k, Dict.mem k (subnetMap st) = true ->
                        Dict.mem k (subnetMap st') = true.
Proof.
  intros Htype Hdups. unfold macAddr_step.
  destruct (item_of_mem _ _ Htype) as (byType & -> & HbyType). simpl.
  match goal with
  | |- context [let '(_, _) := ?t in _] => remember t as first eqn:Hdef
  end.
  assert (Hfirst : (forall k, Dict.mem k (subnetMap st) = true ->
                              Dict.mem k first.1 = true) /\
                   exists byType1, Dict.get type first.1 = Some byType1 /\
                                   Dict.mem subnet byType1 = true).
  { subst first. destruct (Dict.mem subnet byType) eqn:Hsubnet; simpl.
    - split; [auto|]. eauto.
    - split.
      + intros k Hk. rewrite mem_set, Hk. apply orb_true_r.
      + eexists. rewrite get_set_eq. split; [reflexivity|].
        rewrite mem_set, String.eqb_refl. reflexivity. }
  clear Hdef. destruct first as [subnetMap1 heap1]. simpl in Hfirst.
  destruct Hfirst as (Hkeys & byType1 & HbyType1 & Hsubnet1).
  cbv beta iota. unfold Dict.item. rewrite HbyType1. simpl.
  unfold Dict.mem in Hsubnet1.
  destruct (Dict.get subnet byType1) as [r|]; [|discriminate]. simpl.
  destruct (Dict.mem macAddr (labMacs st)) eqn:Hmet.
  - unfold Dict.mem in Hmet.
    destruct (Dict.get macAddr (labMacs st)) as [r'|]; [|discriminate]. simpl.
    pose proof (Hkeys _ Hdups) as Hdups1. unfold Dict.mem in Hdups1.
    destruct (Dict.get "Duplicates" subnetMap1) as [dups|]; [|discriminate].
    simpl. eexists. split; [reflexivity|]. simpl.
    intros k Hk. rewrite mem_set, (Hkeys k Hk). apply orb_true_r.
  - eexists. split; [reflexivity|]. exact Hkeys.
Qed.

Lemma type_step_returns info subnet type st :
  In type (Dict.keys info) ->
  Dict.mem "Duplicates" (subnetMap st) = true ->
  exists st', type_step info subnet type st = Ok st' /\
              Dict.mem "Duplicates" (subnetMap st') = true.
Proof.
  intros Hin Hdups. unfold type_step.
  destruct (get_of_key type info Hin) as [macs Hmacs].
  unfold Dict.item. rewrite Hmacs. simpl.
  match goal with
  | |- context [for_each _ _ ?start] => set (st0 := start)
  end.
  assert (Hst0 : Dict.mem type (subnetMap st0) = true /\
                 Dict.mem "Duplicates" (subnetMap st0) = true).
  { subst st0. destruct (Dict.mem type (subnetMap st)) eqn:Htype; simpl.
    - auto.
    - rewrite !mem_set, String.eqb_refl, Hdups, orb_true_r. auto. }
  clearbody st0.
  assert (Hbody : forall macAddr s1, In macAddr (Dict.keys macs) ->
            Dict.mem type (subnetMap s1) = true /\
            Dict.mem "Duplicates" (subnetMap s1) = true ->
            exists s2, macAddr_step subnet type macAddr s1 = Ok s2 /\
                       (Dict.mem type (subnetMap s2) = true /\
                        Dict.mem "Duplicates" (subnetMap s2) = true)).
  { intros macAddr s1 _ [H1 H2].
    destruct (macAddr_step_returns subnet type macAddr s1 H1 H2)
      as (s2 & Hs2 & Hkeys).
    exists s2. split; [exact Hs2|]. split; apply Hkeys; assumption. }
  destruct (for_each_returns _ _ _ st0 Hbody Hst0) as (st' & Hloop & _ & Hdups').
  eauto.
Qed.

Lemma subnet_step_returns subnets subnet st :
  In subnet (Dict.keys subnets) ->
  Dict.mem "Duplicates" (subnetMap st) = true ->
  exists st', subnet_step subnets subnet st = Ok st' /\
              Dict.mem "Duplicates" (subnetMap st') = true.
Proof.
  intros Hin Hdups. unfold subnet_step.
  destruct (get_of_key subnet subnets Hin) as [info Hinfo].
  unfold Dict.item. rewrite Hinfo. simpl.
  apply (for_each_returns
           (fun s => Dict.mem "Duplicates" (subnetMap s) = true));
    [|exact Hdups].
  intros type s1 Htype. apply type_step_returns, Htype.
Qed.

Lemma lab_step_returns blockMap lab cs :
  In lab (Dict.keys blockMap) ->
  exists st, lab_step blockMap lab cs
             = Ok (mkCsvState (Dict.set lab (subnetMap st) (labMap cs))
                              (files cs ++ csv_files lab st) (heap st)) /\
             Dict.mem "Duplicates" (subnetMap st) = true.
Proof.
  intros Hin. unfold lab_step.
  destruct (get_of_key lab blockMap Hin) as [subnets Hsubnets].
  unfold Dict.item. rewrite Hsubnets. simpl.
  destruct (for_each_returns
              (fun s => Dict.mem "Duplicates" (subnetMap s) = true)
              (Dict.keys subnets) (subnet_step subnets)
              (mkLabState (Dict.set "Duplicates" [] []) [] (lists cs))
              (fun subnet s1 Hsubnet => subnet_step_returns _ _ s1 Hsubnet)
              eq_refl)
    as (st & Hloop & Hdups).
  exists st. split; [|exact Hdups].
  simpl in Hloop. rewrite Hloop. reflexivity.
Qed.

(** The loop over the labs returns; the map then has an entry for every lab
    of the loop besides those it had, each with the key ["Duplicates"]. *)
Lemma lab_loop_returns (blockMap : Dict.t (Dict.t RetMap)) labs cs0 :
  (forall lab, In lab labs -> In lab (Dict.keys blockMap)) ->
  (forall lab byType, Dict.get lab (labMap cs0) = Some byType ->
                      Dict.mem "Duplicates" byType = true) ->
  exists cs,
    for_each labs (lab_step blockMap) cs0 = Ok cs /\
    (forall lab, Dict.mem lab (labMap cs) = true <->
                 Dict.mem lab (labMap cs0) = true \/ In lab labs) /\
    (forall lab byType, Dict.get lab (labMap cs) = Some byType ->
                        Dict.mem "Duplicates" byType = true).
Proof.
  revert cs0. induction labs as [|lab labs IH]; intros cs0 Hsub Hdups0.
  - exists cs0. split; [reflexivity|]. split; [|exact Hdups0].
    intros lab. simpl. tauto.
  - destruct (lab_step_returns blockMap lab cs0 (Hsub lab (or_introl eq_refl)))
      as (st & Hstep & Hdups).
    cbn [for_each]. rewrite Hstep. simpl.
    destruct (IH (mkCsvState (Dict.set lab (subnetMap st) (labMap cs0))
                             (files cs0 ++ csv_files lab st) (heap st)))
      as (cs & -> & Hmem & Hall).
    + intros l Hl. apply Hsub. right. exact Hl.
    + simpl. intros l byType. rewrite get_set.
      destruct (String.eqb l lab); [intros [= <-]; exact Hdups|apply Hdups0].
    + exists cs. split; [reflexivity|]. split; [|exact Hall].
      intros l. rewrite Hmem. simpl. rewrite mem_set.
      destruct (String.eqb_spec l lab) as [->|Hne]; simpl.
      * tauto.
      * split; [tauto|]. intros [H|[H|H]]; [tauto|congruence|tauto].
Qed.

(** The returned map has the labs of the block map. *)
Lemma CreateCsvFiles_labs (blockMap : Dict.t (Dict.t RetMap)) cs lab :
  CreateCsvFiles blockMap = Ok cs ->
  Dict.mem lab (labMap cs) = Dict.mem lab blockMap.
Proof.
  unfold CreateCsvFiles. intros Hrun.
  destruct (lab_loop_returns blockMap (Dict.keys blockMap)
              (mkCsvState [] [] []))
    as (cs' & Hrun' & Hmem & _); [auto|discriminate|].
  assert (cs' = cs) as -> by congruence.
  specialize (Hmem lab). simpl in Hmem.
  destruct (Dict.mem lab blockMap) eqn:Hlab.
  - apply Hmem. right. apply key_of_mem, Hlab.
  - destruct (Dict.mem lab (labMap cs)); [|reflexivity].
    destruct (proj1 Hmem eq_refl) as [H|Hin]; [discriminate|].
    destruct (get_of_key lab blockMap Hin) as [v Hv].
    unfold Dict.mem in Hlab. rewrite Hv in Hlab. discriminate.
Qed.

(** X8.  [CreateCsvFiles] raises no exception of its own, whatever the
    block map holds: every key it reads has been written before.  The map it
    returns has an entry for every lab of the block map and for no other,
    and the entry of every lab has the key ["Duplicates"], also for a lab
    without any network or address. *)
Theorem CreateCsvFiles_returns (blockMap : Dict.t (Dict.t RetMap)) :
  exists cs,
    CreateCsvFiles blockMap = Ok cs /\
    (forall lab, Dict.mem lab (labMap cs) = Dict.mem lab blockMap) /\
    (forall lab byType, Dict.get lab (labMap cs) = Some byType ->
                        Dict.mem "Duplicates" byType = true).
Proof.
  destruct (lab_loop_returns blockMap (Dict.keys blockMap)
              (mkCsvState [] [] []))
    as (cs & Hrun & _ & Hall); [auto|discriminate|].
  exists cs. split; [exact Hrun|]. split; [|exact Hall].
  intros lab. apply CreateCsvFiles_labs, Hrun.
Qed.

End CreateCsvFilesReturns.

(** *** The lists of [CreateCsvFiles] *)

Section RoundsOfCreateCsvFiles.

Import MiceAndMenSpy Spec.

Implicit Types (vs vsL vsM : list visit) (h : Heap)
  (sm : Dict.t (Dict.t ref)) (lm : Dict.t ref).

Lemma addresses_met_snoc vs subnet type macAddr type' subnet' :
  addresses_met (vs ++ [(subnet, type, macAddr)]) type' subnet' =
  addresses_met vs type' subnet' ++
  (if String.eqb subnet subnet' && String.eqb type type' then [macAddr]
   else []).
Proof.
  unfold addresses_met. rewrite flat_map_app. cbn [flat_map].
  rewrite app_nil_r. reflexivity.
Qed.

Lemma networks_met_snoc vs subnet type macAddr macAddr' :
  networks_met (vs ++ [(subnet, type, macAddr)]) macAddr' =
  networks_met vs macAddr' ++
  (if String.eqb macAddr macAddr' then [subnet] else []).
Proof.
  unfold networks_met. rewrite flat_map_app. cbn [flat_map].
  rewrite app_nil_r. reflexivity.
Qed.

Lemma lookup_list_append r x h r' :
  list_append r x h !! r' =
  if decide (r = r') then (fun l => l ++ [x]) <$> h !! r else h !! r'.
Proof. unfold list_append, Heap in *. apply list_lookup_alter. Qed.

Lemma lookup_new_list (l : list string) h r :
  (h ++ [l]) !! r = if decide (r = length h) then Some l else h !! r.
Proof.
  unfold Heap in *. destruct (decide (r = length h)) as [->|Hne].
  - apply list_lookup_middle. reflexivity.
  - destruct (decide (r < length h)) as [Hlt|Hge].
    + apply lookup_app_l, Hlt.
    + rewrite !lookup_ge_None_2; [reflexivity|lia|rewrite length_app; simpl; lia].
Qed.

Lemma lookup_Some_lt h r (l : list string) : h !! r = Some l -> r < length h.
Proof. unfold Heap in *. intros H. apply lookup_lt_Some in H. exact H. Qed.

Lemma get2_set_entry {V} type subnet (r : V) byType (d : Dict.t (Dict.t V))
    type' subnet' :
  Dict.get type d = Some byType ->
  get2 type' subnet' (Dict.set type (Dict.set subnet r byType) d) =
  if String.eqb type' type && String.eqb subnet' subnet then Some r
  else get2 type' subnet' d.
Proof.
  intros Hget. unfold get2. rewrite get_set.
  destruct (String.eqb_spec type' type) as [->|Hne]; simpl; [|reflexivity].
  rewrite get_set, Hget. reflexivity.
Qed.

Lemma file_address_spec subnet type macAddr sm h sm' h' :
  file_address subnet type macAddr sm h = Ok (sm', h') ->
  exists byType,
    Dict.get type sm = Some byType /\
    match Dict.get subnet byType with
    | Some r => sm' = sm /\ h' = list_append r macAddr h
    | None =>
        sm' = Dict.set type (Dict.set subnet (length h) byType) sm /\
        h' = list_append (length h) macAddr (h ++ [[subnet]])
    end.
Proof.
  unfold file_address, Dict.item, Dict.mem.
  destruct (Dict.get type sm) as [byType|] eqn:HbyType; simpl; [|discriminate].
  intros Hstep. exists byType. split; [reflexivity|]. revert Hstep.
  destruct (Dict.get subnet byType) as [r|] eqn:Hr; simpl.
  - rewrite HbyType. simpl. rewrite Hr. simpl. intros [= <- <-]. auto.
  - rewrite get_set_eq. simpl. rewrite get_set_eq. simpl.
    intros [= <- <-]. auto.
Qed.

Lemma note_network_spec subnet macAddr sm lm h st' :
  note_network subnet macAddr sm lm h = Ok st' ->
  match Dict.get macAddr lm with
  | Some r =>
      exists dups,
        Dict.get "Duplicates" sm = Some dups /\
        st' = mkLabState (Dict.set "Duplicates" (Dict.set macAddr r dups) sm)
                         lm (list_append r subnet h)
  | None =>
      st' = mkLabState sm (Dict.set macAddr (length h) lm)
                       (list_append (length h) subnet (h ++ [[]]))
  end.
Proof.
  unfold note_network, Dict.item, Dict.mem.
  destruct (Dict.get macAddr lm) as [r|]; simpl.
  - destruct (Dict.get "Duplicates" sm) as [dups|]; simpl; [|discriminate].
    intros [= <-]. exists dups. auto.
  - intros [= <-]. reflexivity.
Qed.

Lemma macAddr_step_halves subnet type macAddr st :
  macAddr_step subnet type macAddr st =
  (file_address subnet type macAddr (subnetMap st) (heap st) ≫=
     fun '(subnetMap1, heap2) =>
       note_network subnet macAddr subnetMap1 (labMacs st) heap2).
Proof.
  unfold macAddr_step, file_address, note_network.
  destruct (Dict.item type (subnetMap st)) as [byType|e]; simpl;
    [|reflexivity].
  destruct (negb (Dict.mem subnet byType)); simpl.
  - destruct (Dict.item type _) as [byType1|e]; simpl; [|reflexivity].
    destruct (Dict.item subnet byType1) as [r|e]; reflexivity.
  - destruct (Dict.item type _) as [byType1|e]; simpl; [|reflexivity].
    destruct (Dict.item subnet byType1) as [r|e]; reflexivity.
Qed.

Lemma base_inv_length h0 h : base_inv h0 h -> length h0 <= length h.
Proof.
  unfold base_inv, Heap in *. intros Hbase.
  destruct (decide (length h0 <= length h)) as [|Hgt]; [assumption|].
  destruct (lookup_lt_is_Some_2 h0 (length h)) as [l Hl]; [lia|].
  apply Hbase, lookup_lt_Some in Hl. lia.
Qed.

Lemma base_inv_list_append h0 h r x :
  length h0 <= r -> base_inv h0 h -> base_inv h0 (list_append r x h).
Proof.
  intros Hr Hbase r0 l Hl. rewrite lookup_list_append.
  case_decide as Hd; [|apply Hbase, Hl].
  apply lookup_Some_lt in Hl. lia.
Qed.

Lemma base_inv_new h0 h (l : list string) :
  base_inv h0 h -> base_inv h0 (h ++ [l]).
Proof.
  intros Hbase r0 l0 Hl. rewrite lookup_new_list.
  case_decide as Hd; [|apply Hbase, Hl].
  apply Hbase, lookup_Some_lt in Hl. lia.
Qed.

(** The first half of a round keeps the invariant, with the round added to
    the rounds of the lists. *)
Lemma file_address_inv h0 vsL vsM subnet type macAddr sm lm h sm' h' :
  type <> "Duplicates"%string ->
  file_address subnet type macAddr sm h = Ok (sm', h') ->
  lab_inv h0 vsL vsM sm lm h ->
  lab_inv h0 (vsL ++ [(subnet, type, macAddr)]) vsM sm' lm h'.
Proof.
  intros Htype Hstep (Hlists & Hmacs & Hdups & (Hsep1 & Hsep2 & Hsep3) & Hbase).
  apply file_address_spec in Hstep as (byType & HbyType & Hcase).
  assert (Hget2 : get2 type subnet sm = Dict.get subnet byType)
    by (unfold get2; rewrite HbyType; reflexivity).
  pose proof (Hlists type subnet Htype) as Hhere. rewrite Hget2 in Hhere.
  destruct (Dict.get subnet byType) as [r|] eqn:Hr.
  - (* the network has its list *)
    destruct Hcase as [-> ->]. destruct Hhere as (Hbase_r & Hcontent & Hne).
    split; [|split; [|split; [|split]]].
    + intros type' subnet' Htype'. rewrite addresses_met_snoc.
      specialize (Hlists type' subnet' Htype').
      destruct (get2 type' subnet' sm) as [r'|] eqn:Hr'.
      * destruct Hlists as (Hbase' & Hcontent' & Hne').
        split; [exact Hbase'|]. rewrite lookup_list_append.
        case_decide as Hother; [subst r'|].
        -- destruct (Hsep1 type subnet type' subnet' r Htype Htype' Hget2 Hr')
             as [<- <-].
           rewrite !String.eqb_refl, Hcontent. simpl.
           split; [reflexivity|]. intros H. apply app_eq_nil in H as [_ H].
           discriminate.
        -- assert (String.eqb subnet subnet' && String.eqb type type' = false)
             as ->.
           { destruct (String.eqb_spec subnet subnet') as [<-|]; [|reflexivity].
             destruct (String.eqb_spec type type') as [<-|]; [|reflexivity].
             congruence. }
           rewrite app_nil_r. auto.
      * assert (String.eqb subnet subnet' && String.eqb type type' = false)
          as ->.
        { destruct (String.eqb_spec subnet subnet') as [<-|]; [|reflexivity].
          destruct (String.eqb_spec type type') as [<-|]; [|reflexivity].
          congruence. }
        rewrite app_nil_r. exact Hlists.
    + intros X. specialize (Hmacs X).
      destruct (Dict.get X lm) as [r'|] eqn:HX; [|exact Hmacs].
      destruct Hmacs as (Hbase' & Hcontent' & Hne').
      split; [exact Hbase'|]. split; [|exact Hne'].
      rewrite lookup_list_append.
      case_decide as Hother; [subst r'|exact Hcontent'].
      destruct (Hsep3 type subnet X r Htype Hget2 HX).
    + exact Hdups.
    + exact (conj Hsep1 (conj Hsep2 Hsep3)).
    + apply base_inv_list_append; assumption.
  - (* the network gets a new list *)
    destruct Hcase as [-> ->].
    pose proof (base_inv_length _ _ Hbase) as Hlen.
    assert (Hnew : forall type' subnet',
              get2 type' subnet'
                (Dict.set type (Dict.set subnet (length h) byType) sm) =
              if String.eqb subnet subnet' && String.eqb type type'
              then Some (length h) else get2 type' subnet' sm).
    { intros type' subnet'. rewrite (get2_set_entry _ _ _ _ _ _ _ HbyType).
      rewrite (String.eqb_sym type' type), (String.eqb_sym subnet' subnet).
      rewrite andb_comm. reflexivity. }
    assert (Hold : forall r' (l : list string), h !! r' = Some l ->
              list_append (length h) macAddr (h ++ [[subnet]]) !! r' = Some l).
    { intros r' l Hl. rewrite lookup_list_append.
      pose proof (lookup_Some_lt _ _ _ Hl).
      case_decide; [lia|].
      rewrite lookup_new_list. case_decide; [lia|].
      exact Hl. }
    split; [|split; [|split; [|split]]].
    + intros type' subnet' Htype'. rewrite addresses_met_snoc, Hnew.
      specialize (Hlists type' subnet' Htype').
      destruct (String.eqb_spec subnet subnet') as [<-|Hs]; simpl.
      * destruct (String.eqb_spec type type') as [<-|Ht].
        -- rewrite Hhere. simpl. split; [exact Hlen|].
           split; [|discriminate].
           rewrite lookup_list_append.
           case_decide; [|contradiction].
           rewrite lookup_new_list.
           case_decide; [|contradiction].
           reflexivity.
        -- rewrite app_nil_r.
           destruct (get2 type' subnet sm) as [r'|]; [|exact Hlists].
           destruct Hlists as (? & Hcontent' & ?). auto.
      * rewrite app_nil_r.
        destruct (get2 type' subnet' sm) as [r'|]; [|exact Hlists].
        destruct Hlists as (? & Hcontent' & ?). auto.
    + intros X. specialize (Hmacs X).
      destruct (Dict.get X lm) as [r'|]; [|exact Hmacs].
      destruct Hmacs as (? & Hcontent' & ?). auto.
    + destruct Hdups as (dups & Hget & Hall). exists dups.
      split; [|exact Hall]. rewrite get_set_ne by exact Htype. exact Hget.
    + assert (Hfresh : forall type' subnet' r', type' <> "Duplicates"%string ->
                get2 type' subnet' sm = Some r' -> r' <> length h).
      { intros type' subnet' r' Htype' Hr'.
        specialize (Hlists type' subnet' Htype'). rewrite Hr' in Hlists.
        destruct Hlists as (_ & Hcontent' & _).
        apply lookup_Some_lt in Hcontent'. lia. }
      split; [|split].
      * intros t1 s1 t2 s2 r0 Ht1 Ht2. rewrite !Hnew.
        destruct (String.eqb subnet s1 && String.eqb type t1) eqn:E1;
          destruct (String.eqb subnet s2 && String.eqb type t2) eqn:E2.
        -- apply andb_true_iff in E1 as [E1s E1t].
           apply andb_true_iff in E2 as [E2s E2t].
           apply String.eqb_eq in E1s, E1t, E2s, E2t. subst. auto.
        -- intros [= <-] H2. destruct (Hfresh _ _ _ Ht2 H2 eq_refl).
        -- intros H1 [= <-]. destruct (Hfresh _ _ _ Ht1 H1 eq_refl).
        -- apply Hsep1; assumption.
      * exact Hsep2.
      * intros t1 s1 X r0 Ht1. rewrite Hnew.
        destruct (String.eqb subnet s1 && String.eqb type t1);
          [|apply Hsep3; assumption].
        intros [= <-] HX. specialize (Hmacs X). rewrite HX in Hmacs.
        destruct Hmacs as (_ & Hcontent' & _).
        apply lookup_Some_lt in Hcontent'. lia.
    + apply base_inv_list_append; [exact Hlen|]. apply base_inv_new, Hbase.
Qed.


(** The second half of a round keeps the invariant, with the round added to
    the rounds of the addresses. *)
Lemma note_network_inv h0 vsL vsM subnet type macAddr sm lm h st' :
  note_network subnet macAddr sm lm h = Ok st' ->
  lab_inv h0 vsL vsM sm lm h ->
  lab_inv h0 vsL (vsM ++ [(subnet, type, macAddr)])
          (subnetMap st') (labMacs st') (heap st').
Proof.
  intros Hstep (Hlists & Hmacs & Hdups & (Hsep1 & Hsep2 & Hsep3) & Hbase).
  apply note_network_spec in Hstep.
  pose proof (Hmacs macAddr) as Hhere.
  destruct (Dict.get macAddr lm) as [r|] eqn:Hr.
  - (* the address has its list *)
    destruct Hstep as (dups & Hget & ->). cbn [subnetMap labMacs heap].
    destruct Hhere as (Hbase_r & Hcontent & Hne).
    assert (Hsame : forall type' subnet', type' <> "Duplicates"%string ->
              get2 type' subnet'
                (Dict.set "Duplicates" (Dict.set macAddr r dups) sm) =
              get2 type' subnet' sm).
    { intros type' subnet' Htype'. unfold get2.
      rewrite get_set_ne by congruence. reflexivity. }
    split; [|split; [|split; [|split]]].
    + intros type' subnet' Htype'. rewrite (Hsame _ _ Htype').
      specialize (Hlists type' subnet' Htype').
      destruct (get2 type' subnet' sm) as [r'|] eqn:Hr'; [|exact Hlists].
      destruct Hlists as (Hbase' & Hcontent' & Hne').
      split; [exact Hbase'|]. split; [|exact Hne'].
      rewrite lookup_list_append.
      case_decide as Hother; [subst r'|exact Hcontent'].
      destruct (Hsep3 type' subnet' macAddr r Htype' Hr' Hr).
    + intros X. rewrite networks_met_snoc. specialize (Hmacs X).
      destruct (Dict.get X lm) as [r'|] eqn:HX.
      * destruct Hmacs as (Hbase' & Hcontent' & Hne').
        split; [exact Hbase'|]. rewrite lookup_list_append.
        case_decide as Hother; [subst r'|].
        -- rewrite (Hsep2 macAddr X r Hr HX), String.eqb_refl, Hcontent.
           rewrite (Hsep2 macAddr X r Hr HX). split; [reflexivity|].
           intros H. apply app_eq_nil in H as [_ H]. discriminate.
        -- destruct (String.eqb_spec macAddr X) as [<-|_]; [congruence|].
           rewrite app_nil_r. auto.
      * destruct (String.eqb_spec macAddr X) as [<-|_]; [congruence|].
        rewrite app_nil_r. exact Hmacs.
    + destruct Hdups as (dups0 & Hget0 & Hall).
      assert (dups0 = dups) as -> by congruence.
      exists (Dict.set macAddr r dups). split; [apply get_set_eq|].
      intros X. rewrite networks_met_snoc, get_set, (String.eqb_sym X macAddr).
      destruct (String.eqb_spec macAddr X) as [<-|_].
      * rewrite Hr.
        destruct (networks_met vsM macAddr) as [|n ns]; [contradiction|].
        replace (2 <=? length ((n :: ns) ++ [subnet])) with true;
          [reflexivity|].
        symmetry. apply Nat.leb_le. rewrite length_app. simpl. lia.
      * rewrite app_nil_r. apply Hall.
    + split; [|split].
      * intros t1 s1 t2 s2 r0 Ht1 Ht2.
        rewrite (Hsame _ _ Ht1), (Hsame _ _ Ht2). apply Hsep1; assumption.
      * exact Hsep2.
      * intros t1 s1 X r0 Ht1. rewrite (Hsame _ _ Ht1). apply Hsep3, Ht1.
    + apply base_inv_list_append; assumption.
  - (* the address gets a new list *)
    subst st'. cbn [subnetMap labMacs heap].
    pose proof (base_inv_length _ _ Hbase) as Hlen.
    assert (Hold : forall r' (l : list string), h !! r' = Some l ->
              list_append (length h) subnet (h ++ [[]]) !! r' = Some l).
    { intros r' l Hl. rewrite lookup_list_append.
      pose proof (lookup_Some_lt _ _ _ Hl).
      case_decide; [lia|].
      rewrite lookup_new_list. case_decide; [lia|].
      exact Hl. }
    split; [|split; [|split; [|split]]].
    + intros type' subnet' Htype'. specialize (Hlists type' subnet' Htype').
      destruct (get2 type' subnet' sm) as [r'|]; [|exact Hlists].
      destruct Hlists as (? & Hcontent' & ?). auto.
    + intros X. rewrite networks_met_snoc, get_set, (String.eqb_sym X macAddr).
      specialize (Hmacs X).
      destruct (String.eqb_spec macAddr X) as [<-|_].
      * rewrite Hhere. simpl. split; [exact Hlen|]. split; [|discriminate].
        rewrite lookup_list_append. case_decide; [|contradiction].
        rewrite lookup_new_list. case_decide; [|contradiction].
        reflexivity.
      * rewrite app_nil_r.
        destruct (Dict.get X lm) as [r'|]; [|exact Hmacs].
        destruct Hmacs as (? & Hcontent' & ?). auto.
    + destruct Hdups as (dups & Hget & Hall). exists dups.
      split; [exact Hget|].
      intros X. rewrite networks_met_snoc, get_set, (String.eqb_sym X macAddr).
      destruct (String.eqb_spec macAddr X) as [<-|_].
      * rewrite Hall, Hhere. reflexivity.
      * rewrite app_nil_r. apply Hall.
    + assert (Hfresh : forall X r', Dict.get X lm = Some r' -> r' <> length h).
      { intros X r' HX. specialize (Hmacs X). rewrite HX in Hmacs.
        destruct Hmacs as (_ & Hcontent' & _).
        apply lookup_Some_lt in Hcontent'. lia. }
      split; [exact Hsep1|]. split.
      * intros X1 X2 r0. rewrite !get_set.
        destruct (String.eqb_spec X1 macAddr) as [->|];
          destruct (String.eqb_spec X2 macAddr) as [->|].
        -- auto.
        -- intros [= <-] H2. destruct (Hfresh _ _ H2 eq_refl).
        -- intros H1 [= <-]. destruct (Hfresh _ _ H1 eq_refl).
        -- apply Hsep2.
      * intros t1 s1 X r0 Ht1 H1. rewrite get_set.
        destruct (String.eqb X macAddr); [|apply (Hsep3 t1 s1 X r0 Ht1 H1)].
        intros [= <-]. specialize (Hlists t1 s1 Ht1). rewrite H1 in Hlists.
        destruct Hlists as (_ & Hcontent' & _).
        apply lookup_Some_lt in Hcontent'. lia.
    + apply base_inv_list_append; [exact Hlen|]. apply base_inv_new, Hbase.
Qed.

(** One round of the innermost loop adds itself to the rounds. *)
Lemma macAddr_step_inv h0 vs subnet type macAddr st st' :
  type <> "Duplicates"%string ->
  macAddr_step subnet type macAddr st = Ok st' ->
  lab_inv h0 vs vs (subnetMap st) (labMacs st) (heap st) ->
  lab_inv h0 (vs ++ [(subnet, type, macAddr)]) (vs ++ [(subnet, type, macAddr)])
          (subnetMap st') (labMacs st') (heap st').
Proof.
  intros Htype. rewrite macAddr_step_halves.
  destruct (file_address subnet type macAddr (subnetMap st) (heap st))
    as [[subnetMap1 heap2]|e] eqn:Hfirst; simpl; [|discriminate].
  intros Hsecond Hinv.
  apply (note_network_inv h0 _ vs subnet type macAddr _ _ _ _ Hsecond).
  apply (file_address_inv h0 vs vs subnet type macAddr _ _ _ _ _ Htype Hfirst).
  exact Hinv.
Qed.

(** A loop whose rounds each add their part to a sequence adds the parts of
    all its rounds, in order. *)
Lemma for_each_accumulates {A S G} (I : list G -> S -> Prop)
    (f : A -> list G) (xs : list A) (body : A -> S -> result S) :
  (forall x g s s', In x xs -> body x s = Ok s' -> I g s -> I (g ++ f x) s') ->
  forall g s s', for_each xs body s = Ok s' -> I g s ->
                 I (g ++ flat_map f xs) s'.
Proof.
  induction xs as [|x xs IH]; intros Hbody g s s'; simpl.
  - intros [= <-]. rewrite app_nil_r. auto.
  - destruct (body x s) as [s1|e] eqn:Hx; simpl; [|discriminate].
    intros Hrest Hs. rewrite app_assoc.
    apply (IH (fun y g0 t t' Hy => Hbody y g0 t t' (or_intror Hy)) _ s1 s'
              Hrest).
    apply (Hbody x g s s1); [left; reflexivity|exact Hx|exact Hs].
Qed.

Lemma type_step_inv h0 vs (info : RetMap) subnet type st st' :
  type <> "Duplicates"%string ->
  type_step info subnet type st = Ok st' ->
  lab_inv h0 vs vs (subnetMap st) (labMacs st) (heap st) ->
  lab_inv h0 (vs ++ visits_of_type subnet info type)
          (vs ++ visits_of_type subnet info type)
          (subnetMap st') (labMacs st') (heap st').
Proof.
  intros Htype. unfold type_step, visits_of_type, Dict.item.
  destruct (Dict.get type info) as [macs|]; simpl; [|discriminate].
  intros Hloop Hinv.
  assert (Hmap : forall l : list string,
            map (fun macAddr => (subnet, type, macAddr)) l =
            flat_map (fun macAddr => [(subnet, type, macAddr)]) l).
  { induction l as [|x l IHl]; simpl; [reflexivity|]. rewrite IHl.
    reflexivity. }
  rewrite Hmap.
  apply (for_each_accumulates
           (fun g s => lab_inv h0 g g (subnetMap s) (labMacs s) (heap s))
           (fun macAddr => [(subnet, type, macAddr)])
           (Dict.keys macs) (macAddr_step subnet type)
           ltac:(intros x g s s' _; apply macAddr_step_inv, Htype)
           vs _ st' Hloop).
  destruct (Dict.mem type (subnetMap st)) eqn:Hmem; simpl; [exact Hinv|].
  assert (Hsame : forall type' subnet',
            get2 type' subnet' (Dict.set type [] (subnetMap st)) =
            get2 type' subnet' (subnetMap st)).
  { intros type' subnet'. unfold get2. rewrite get_set.
    destruct (String.eqb_spec type' type) as [->|]; [|reflexivity].
    unfold Dict.mem in Hmem.
    destruct (Dict.get type (subnetMap st)); [discriminate|reflexivity]. }
  destruct Hinv as (Hlists & Hmacs & Hdups & (Hsep1 & Hsep2 & Hsep3) & Hbase).
  split; [|split; [|split; [|split]]].
  - intros type' subnet' Htype'. rewrite Hsame. apply Hlists, Htype'.
  - exact Hmacs.
  - destruct Hdups as (dups & Hget & Hall). exists dups.
    split; [|exact Hall]. rewrite get_set_ne by exact Htype. exact Hget.
  - split; [|split].
    + intros t1 s1 t2 s2 r0. rewrite !Hsame. apply Hsep1.
    + exact Hsep2.
    + intros t1 s1 X r0. rewrite Hsame. apply Hsep3.
  - exact Hbase.
Qed.

Lemma subnet_step_inv h0 vs (subnets : Dict.t RetMap) subnet st st' :
  (forall info : RetMap, Dict.get subnet subnets = Some info ->
                         Dict.mem "Duplicates" info = false) ->
  subnet_step subnets subnet st = Ok st' ->
  lab_inv h0 vs vs (subnetMap st) (labMacs st) (heap st) ->
  lab_inv h0 (vs ++ visits_of_subnet subnets subnet)
          (vs ++ visits_of_subnet subnets subnet)
          (subnetMap st') (labMacs st') (heap st').
Proof.
  intros Hnone. unfold subnet_step, visits_of_subnet, Dict.item.
  destruct (Dict.get subnet subnets) as [info|]; simpl; [|discriminate].
  specialize (Hnone info eq_refl).
  apply (for_each_accumulates
           (fun g s => lab_inv h0 g g (subnetMap s) (labMacs s) (heap s))
           (visits_of_type subnet info) (Dict.keys info)
           (type_step info subnet)).
  intros type g s s' Hin. apply type_step_inv. intros Heq. subst type.
  destruct (get_of_key _ _ Hin) as [macs Hmacs].
  unfold Dict.mem in Hnone. rewrite Hmacs in Hnone. discriminate.
Qed.

Lemma lab_inv_initial h0 :
  lab_inv h0 [] [] (Dict.set "Duplicates" [] []) [] h0.
Proof.
  split; [|split; [|split; [|split]]].
  - intros type subnet Htype. unfold get2. simpl.
    destruct (String.eqb_spec type "Duplicates"); [contradiction|reflexivity].
  - intros X. reflexivity.
  - exists []. split; [reflexivity|]. intros X. reflexivity.
  - split; [|split].
    + intros t1 s1 t2 s2 r0 Ht1 _. unfold get2. simpl.
      destruct (String.eqb_spec t1 "Duplicates"); [contradiction|discriminate].
    + intros X1 X2 r0. discriminate.
    + intros t1 s1 X r0 _ _. discriminate.
  - intros r l Hl. exact Hl.
Qed.

Lemma lab_report_of_inv h0 vs sm lm h :
  lab_inv h0 vs vs sm lm h -> lab_report h vs sm.
Proof.
  intros (Hlists & Hmacs & (dups & Hget & Hall) & _ & _). split.
  - intros type subnet Htype. specialize (Hlists type subnet Htype).
    destruct (get2 type subnet sm); [|exact Hlists]. tauto.
  - intros X. unfold get2. rewrite Hget, Hall. specialize (Hmacs X).
    destruct (2 <=? length (networks_met vs X)) eqn:Htwice.
    + apply Nat.leb_le in Htwice.
      destruct (Dict.get X lm) as [r|].
      * split; [tauto|exact Htwice].
      * rewrite Hmacs in Htwice. simpl in Htwice. lia.
    + apply Nat.leb_gt in Htwice. exact Htwice.
Qed.

Lemma lab_report_later h h' vs byType :
  base_inv h h' -> lab_report h vs byType -> lab_report h' vs byType.
Proof.
  intros Hbase [Hlists Hdups]. split.
  - intros type subnet Htype. specialize (Hlists type subnet Htype).
    destruct (get2 type subnet byType); [|exact Hlists].
    destruct Hlists as [Hcontent Hne]. split; [apply Hbase, Hcontent|exact Hne].
  - intros X. specialize (Hdups X).
    destruct (get2 "Duplicates" X byType); [|exact Hdups].
    destruct Hdups as [Hcontent Htwice].
    split; [apply Hbase, Hcontent|exact Htwice].
Qed.

(** The round of a lab leaves the report of the lab in the returned map,
    writes the files of the lab, and leaves the lists of the store as they
    were. *)
Lemma lab_step_report (blockMap : Dict.t (Dict.t RetMap)) lab subnets cs cs' :
  no_Duplicates_category blockMap ->
  Dict.get lab blockMap = Some subnets ->
  lab_step blockMap lab cs = Ok cs' ->
  base_inv (lists cs) (lists cs') /\
  exists st,
    cs' = mkCsvState (Dict.set lab (subnetMap st) (labMap cs))
                     (files cs ++ csv_files lab st) (heap st) /\
    lab_report (heap st) (visits_of_lab subnets) (subnetMap st).
Proof.
  intros Hnone Hlab. unfold lab_step, Dict.item. rewrite Hlab. simpl.
  destruct (for_each (Dict.keys subnets) (subnet_step subnets) _)
    as [st|e] eqn:Hloop; simpl; [|discriminate].
  intros [= <-]. simpl.
  assert (Hinv : lab_inv (lists cs) ([] ++ visits_of_lab subnets)
                   ([] ++ visits_of_lab subnets)
                   (subnetMap st) (labMacs st) (heap st)).
  { apply (for_each_accumulates
             (fun g s => lab_inv (lists cs) g g (subnetMap s) (labMacs s)
                                 (heap s))
             (visits_of_subnet subnets) (Dict.keys subnets)
             (subnet_step subnets)
             ltac:(intros subnet g s s' _;
                   apply subnet_step_inv; intros info; apply (Hnone lab), Hlab)
             [] _ st Hloop).
    apply lab_inv_initial. }
  simpl in Hinv. split.
  - apply Hinv.
  - exists st. split; [reflexivity|].
    apply (lab_report_of_inv _ _ _ _ _ Hinv).
Qed.

(** The entry of every lab in the returned map is the report of the rounds
    of the lab. *)
Lemma CreateCsvFiles_report (blockMap : Dict.t (Dict.t RetMap)) cs lab subnets :
  no_Duplicates_category blockMap ->
  CreateCsvFiles blockMap = Ok cs ->
  Dict.get lab blockMap = Some subnets ->
  exists byType,
    Dict.get lab (labMap cs) = Some byType /\
    lab_report (lists cs) (visits_of_lab subnets) byType.
Proof.
  intros Hnone Hrun Hlab. unfold CreateCsvFiles in Hrun.
  eapply (for_each_establishes (fun _ => True)
            (fun cs => exists byType,
               Dict.get lab (labMap cs) = Some byType /\
               lab_report (lists cs) (visits_of_lab subnets) byType)
            (Dict.keys blockMap) (lab_step blockMap) lab);
    [exact (key_of_get _ _ _ Hlab)| | | |exact Hrun|exact I].
  - intros cs1 cs2 Hstep _.
    destruct (lab_step_report _ _ _ _ _ Hnone Hlab Hstep)
      as (_ & st & -> & Hreport).
    exists (subnetMap st). simpl. rewrite get_set_eq. auto.
  - auto.
  - intros lab' cs1 cs2 Hin Hstep (byType & Hget & Hreport).
    destruct (get_of_key _ _ Hin) as [subnets' Hlab'].
    destruct (lab_step_report _ _ _ _ _ Hnone Hlab' Hstep)
      as (Hbase & st & Hcs2 & Hreport').
    subst cs2. simpl in *. rewrite get_set.
    destruct (String.eqb_spec lab lab') as [<-|Hother].
    + assert (subnets' = subnets) as -> by congruence.
      exists (subnetMap st). auto.
    + exists byType. split; [exact Hget|].
      apply (lab_report_later _ _ _ _ Hbase Hreport).
Qed.

End RoundsOfCreateCsvFiles.

(** *** What the report holds *)

Section ReportContents.

Import MiceAndMenSpy Spec.

Lemma get_map_values {V W} (f : V -> W) (k : string) (d : Dict.t V) :
  Dict.get k (map (fun '(k', v) => (k', f v)) d) = f <$> Dict.get k d.
Proof.
  induction d as [|[k' v] d IH]; simpl; [reflexivity|].
  destruct (String.eqb k k'); [reflexivity|exact IH].
Qed.

(** An entry of the report is the list that the returned map refers to. *)
Lemma get3_resolve cs lab type key :
  get3 lab type key (resolve cs) =
  match Dict.get lab (labMap cs) with
  | Some byType => deref (lists cs) <$> get2 type key byType
  | None => None
  end.
Proof.
  unfold get3, resolve.
  rewrite (get_map_values (V := Dict.t (Dict.t ref)) _ lab (labMap cs)).
  destruct (Dict.get lab (labMap cs)) as [byType|]; simpl; [|reflexivity].
  unfold get2. rewrite (get_map_values (V := Dict.t ref) _ type byType).
  destruct (Dict.get type byType) as [byKey|]; simpl; [|reflexivity].
  apply (get_map_values (V := ref)).
Qed.

Lemma flat_map_flat_map {A B C} (f : B -> list C) (g : A -> list B)
    (l : list A) :
  flat_map f (flat_map g l) = flat_map (fun x => flat_map f (g x)) l.
Proof.
  induction l as [|x l IH]; simpl; [reflexivity|].
  rewrite flat_map_app, IH. reflexivity.
Qed.

Lemma flat_map_none {A} (F : string -> list A) (k : string) (l : list string) :
  ~ In k l ->
  flat_map (fun x => if String.eqb x k then F x else []) l = [].
Proof.
  induction l as [|x l IH]; simpl; [reflexivity|].
  intros Hnot. destruct (String.eqb_spec x k) as [->|_]; [tauto|].
  apply IH. tauto.
Qed.

(** Among keys without repetition, one key is selected once. *)
Lemma flat_map_select {A} (F : string -> list A) (k : string)
    (l : list string) :
  List.NoDup l -> In k l ->
  flat_map (fun x => if String.eqb x k then F x else []) l = F k.
Proof.
  induction 1 as [|x l Hx _ IH]; simpl; [tauto|].
  intros [->|Hin].
  - rewrite String.eqb_refl, flat_map_none by exact Hx. apply app_nil_r.
  - destruct (String.eqb_spec x k) as [->|_]; [contradiction|]. apply IH, Hin.
Qed.

Lemma addresses_met_of_type subnet' (info : RetMap) type' type subnet :
  addresses_met (visits_of_type subnet' info type') type subnet =
  if String.eqb subnet' subnet && String.eqb type' type
  then Dict.keys (default [] (Dict.get type' info)) else [].
Proof.
  unfold addresses_met, visits_of_type.
  induction (Dict.keys (default [] (Dict.get type' info))) as [|x l IH];
    simpl.
  - destruct (_ && _); reflexivity.
  - rewrite IH. destruct (_ && _); reflexivity.
Qed.

(** With keys that do not repeat, the addresses met on a network under a
    category are the addresses the block map holds there. *)
Lemma addresses_met_of_lab (subnets : Dict.t RetMap) subnet (info : RetMap)
    type macs :
  List.NoDup (Dict.keys subnets) ->
  Dict.get subnet subnets = Some info ->
  List.NoDup (Dict.keys info) ->
  Dict.get type info = Some macs ->
  addresses_met (visits_of_lab subnets) type subnet = Dict.keys macs.
Proof.
  intros Hsubnets Hinfo Htypes Hmacs.
  unfold addresses_met, visits_of_lab. rewrite flat_map_flat_map.
  fold (addresses_met).
  transitivity
    (flat_map (fun subnet' => if String.eqb subnet' subnet
                              then Dict.keys macs else [])
              (Dict.keys subnets)).
  - apply flat_map_ext. intros subnet'.
    change (addresses_met (visits_of_subnet subnets subnet') type subnet =
            if String.eqb subnet' subnet then Dict.keys macs else []).
    unfold addresses_met, visits_of_subnet. rewrite flat_map_flat_map.
    destruct (String.eqb_spec subnet' subnet) as [->|Hother].
    + rewrite Hinfo. simpl.
      transitivity
        (flat_map (fun type' => if String.eqb type' type
                                then Dict.keys (default [] (Dict.get type' info))
                                else [])
                  (Dict.keys info)).
      * apply flat_map_ext. intros type'.
        change (addresses_met (visits_of_type subnet info type') type subnet =
                if String.eqb type' type
                then Dict.keys (default [] (Dict.get type' info)) else []).
        rewrite addresses_met_of_type, String.eqb_refl. reflexivity.
      * rewrite (flat_map_select
                   (fun type' => Dict.keys (default [] (Dict.get type' info))))
          by (try exact Htypes; apply (key_of_get _ _ _ Hmacs)).
        rewrite Hmacs. reflexivity.
    + induction (Dict.keys (default [] (Dict.get subnet' subnets)))
        as [|type' l IH]; simpl; [reflexivity|].
      rewrite IH, app_nil_r.
      change (addresses_met
                (visits_of_type subnet'
                   (default [] (Dict.get subnet' subnets)) type')
                type subnet = []).
      rewrite addresses_met_of_type.
      destruct (String.eqb_spec subnet' subnet); [contradiction|reflexivity].
  - rewrite (flat_map_select (fun _ => Dict.keys macs))
      by (try exact Hsubnets; apply (key_of_get _ _ _ Hinfo)).
    reflexivity.
Qed.


Lemma networks_met_In vs macAddr subnet :
  In subnet (networks_met vs macAddr) <->
  exists type, In (subnet, type, macAddr) vs.
Proof.
  unfold networks_met. rewrite in_flat_map. split.
  - intros ([[subnet' type] macAddr'] & Hin & Hhere).
    destruct (String.eqb_spec macAddr' macAddr) as [->|_]; [|destruct Hhere].
    destruct Hhere as [<-|[]]. eauto.
  - intros [type Hin]. exists (subnet, type, macAddr). split; [exact Hin|].
    rewrite String.eqb_refl. left. reflexivity.
Qed.

(** A round of a lab is an address that the block map holds on a network
    of the lab under a category. *)
Lemma visits_of_lab_In (subnets : Dict.t RetMap) subnet type macAddr :
  In (subnet, type, macAddr) (visits_of_lab subnets) ->
  exists (info : RetMap) macs,
    Dict.get subnet subnets = Some info /\
    Dict.get type info = Some macs /\ Dict.mem macAddr macs = true.
Proof.
  unfold visits_of_lab. rewrite in_flat_map.
  intros (subnet' & Hsubnet' & Hin). unfold visits_of_subnet in Hin.
  destruct (get_of_key _ _ Hsubnet') as [info Hinfo]. rewrite Hinfo in Hin.
  simpl in Hin. apply in_flat_map in Hin as (type' & Htype' & Hin).
  unfold visits_of_type in Hin.
  destruct (get_of_key _ _ Htype') as [macs Hmacs]. rewrite Hmacs in Hin.
  simpl in Hin. apply in_map_iff in Hin as (macAddr' & [= <- <- <-] & Hin).
  exists info, macs. split; [exact Hinfo|]. split; [exact Hmacs|].
  destruct (get_of_key _ _ Hin) as [v Hv]. unfold Dict.mem. rewrite Hv.
  reflexivity.
Qed.

Lemma In_visits_of_lab (subnets : Dict.t RetMap) subnet (info : RetMap)
    type macs macAddr :
  Dict.get subnet subnets = Some info ->
  Dict.get type info = Some macs -> Dict.mem macAddr macs = true ->
  In (subnet, type, macAddr) (visits_of_lab subnets).
Proof.
  intros Hinfo Hmacs Hmem. unfold visits_of_lab. apply in_flat_map.
  exists subnet. split; [apply (key_of_get _ _ _ Hinfo)|].
  unfold visits_of_subnet. rewrite Hinfo. simpl. apply in_flat_map.
  exists type. split; [apply (key_of_get _ _ _ Hmacs)|].
  unfold visits_of_type. rewrite Hmacs. simpl. apply in_map.
  apply key_of_mem, Hmem.
Qed.

(** X9.  What the docstring of [CreateCsvFiles] promises for a line.  When
    no category is called ["Duplicates"], the list that the report holds for
    a network under a category is the name of the network followed by the
    addresses of the block map there, in their order; a network without
    address under the category has no list. *)
Theorem network_list_is_name_then_addresses
    (blockMap : Dict.t (Dict.t RetMap)) (cs : CsvState)
    (lab subnet type : string) (subnets : Dict.t RetMap) (info : RetMap)
    (macs : Dict.t IpamRecord) :
  no_Duplicates_category blockMap ->
  CreateCsvFiles blockMap = Ok cs ->
  Dict.get lab blockMap = Some subnets ->
  List.NoDup (Dict.keys subnets) ->
  Dict.get subnet subnets = Some info ->
  List.NoDup (Dict.keys info) ->
  Dict.get type info = Some macs ->
  get3 lab type subnet (resolve cs) =
  match Dict.keys macs with
  | [] => None
  | addresses => Some (subnet :: addresses)
  end.
Proof.
  intros Hnone Hrun Hlab Hsubnets Hinfo Htypes Hmacs.
  destruct (CreateCsvFiles_report blockMap cs lab subnets Hnone Hrun Hlab)
    as (byType & HbyType & Hlists & _).
  assert (Htype : type <> "Duplicates"%string).
  { intros ->. specialize (Hnone lab subnets subnet info Hlab Hinfo).
    unfold Dict.mem in Hnone. rewrite Hmacs in Hnone. discriminate. }
  specialize (Hlists type subnet Htype).
  rewrite (addresses_met_of_lab subnets subnet info type macs) in Hlists
    by assumption.
  rewrite get3_resolve, HbyType.
  destruct (get2 type subnet byType) as [r|]; simpl.
  - destruct Hlists as [Hcontent Hne]. unfold deref. rewrite Hcontent. simpl.
    destruct (Dict.keys macs); [contradiction|reflexivity].
  - rewrite Hlists. reflexivity.
Qed.

(** X10.  When no category is called ["Duplicates"], the report lists an
    address under ["Duplicates"] exactly when the block map of the lab holds
    it twice or more, each category of each network counting for one; the
    list holds the network of each of these entries, in their order, so a
    network is there once for every category under which it has the
    address. *)
Theorem duplicates_list_is_networks_met
    (blockMap : Dict.t (Dict.t RetMap)) (cs : CsvState)
    (lab macAddr : string) (subnets : Dict.t RetMap) :
  no_Duplicates_category blockMap ->
  CreateCsvFiles blockMap = Ok cs ->
  Dict.get lab blockMap = Some subnets ->
  get3 lab "Duplicates" macAddr (resolve cs) =
  if (2 <=? length (networks_met (visits_of_lab subnets) macAddr))%nat
  then Some (networks_met (visits_of_lab subnets) macAddr)
  else None.
Proof.
  intros Hnone Hrun Hlab.
  destruct (CreateCsvFiles_report blockMap cs lab subnets Hnone Hrun Hlab)
    as (byType & HbyType & _ & Hdups).
  specialize (Hdups macAddr). rewrite get3_resolve, HbyType.
  destruct (get2 "Duplicates" macAddr byType) as [r|].
  - destruct Hdups as [Hcontent Htwice]. apply Nat.leb_le in Htwice.
    rewrite Htwice. simpl. unfold deref. rewrite Hcontent. reflexivity.
  - apply Nat.leb_gt in Hdups. rewrite Hdups. reflexivity.
Qed.

(** X11.  An address that the block map of a lab holds on two different
    networks is listed under ["Duplicates"] with both networks, and every
    network of its list is one on which the block map holds it. *)
Theorem address_on_two_networks_lists_both
    (blockMap : Dict.t (Dict.t RetMap)) (cs : CsvState)
    (lab macAddr : string) (subnets : Dict.t RetMap)
    (subnet1 subnet2 type1 type2 : string) (info1 info2 : RetMap)
    (macs1 macs2 : Dict.t IpamRecord) :
  no_Duplicates_category blockMap ->
  CreateCsvFiles blockMap = Ok cs ->
  Dict.get lab blockMap = Some subnets ->
  Dict.get subnet1 subnets = Some info1 ->
  Dict.get type1 info1 = Some macs1 -> Dict.mem macAddr macs1 = true ->
  Dict.get subnet2 subnets = Some info2 ->
  Dict.get type2 info2 = Some macs2 -> Dict.mem macAddr macs2 = true ->
  subnet1 <> subnet2 ->
  exists networks,
    get3 lab "Duplicates" macAddr (resolve cs) = Some networks /\
    In subnet1 networks /\ In subnet2 networks /\
    forall subnet, In subnet networks ->
      exists (info : RetMap) type macs,
        Dict.get subnet subnets = Some info /\
        Dict.get type info = Some macs /\ Dict.mem macAddr macs = true.
Proof.
  intros Hnone Hrun Hlab Hinfo1 Hmacs1 Hmem1 Hinfo2 Hmacs2 Hmem2 Hne.
  destruct (CreateCsvFiles_report blockMap cs lab subnets Hnone Hrun Hlab)
    as (byType & HbyType & _ & Hdups).
  specialize (Hdups macAddr).
  set (networks := networks_met (visits_of_lab subnets) macAddr) in *.
  assert (H1 : In subnet1 networks).
  { apply networks_met_In. exists type1.
    apply (In_visits_of_lab subnets subnet1 info1 type1 macs1); assumption. }
  assert (H2 : In subnet2 networks).
  { apply networks_met_In. exists type2.
    apply (In_visits_of_lab subnets subnet2 info2 type2 macs2); assumption. }
  assert (Htwice : 2 <= length networks).
  { destruct networks as [|a [|b l]]; simpl in *; [tauto| |lia].
    destruct H1 as [<-|[]], H2 as [<-|[]]. contradiction. }
  exists networks. rewrite get3_resolve, HbyType.
  destruct (get2 "Duplicates" macAddr byType) as [r|]; [|lia].
  destruct Hdups as [Hcontent _]. simpl. unfold deref. rewrite Hcontent.
  split; [reflexivity|]. split; [exact H1|]. split; [exact H2|].
  intros subnet Hin. apply networks_met_In in Hin as [type Hin].
  apply visits_of_lab_In in Hin as (info & macs & ? & ? & ?).
  exists info, type, macs. auto.
Qed.

(** X12.  When no category is called ["Duplicates"], every file that
    [CreateCsvFiles] writes is the file of a category of a lab and has at
    least one line.  A line of a category file is the name of a network and
    then the addresses met on it under the category, at least one, joined by
    commas; a line of the ["Duplicates"] file is the networks an address was
    met on, at least two, and does not name the address. *)
Theorem csv_lines_are_lists_of_the_report
    (blockMap : Dict.t (Dict.t RetMap)) (cs : CsvState) (name : string)
    (lines : list string) :
  no_Duplicates_category blockMap ->
  CreateCsvFiles blockMap = Ok cs ->
  In (name, lines) (files cs) ->
  exists lab subnets type,
    Dict.get lab blockMap = Some subnets /\
    name = ("DHCP_" ++ lab ++ "_" ++ type ++ ".csv")%string /\
    lines <> [] /\
    forall line, In line lines ->
      exists key content,
        line = (String.concat "," content ++ String (ascii_of_nat 10) "")%string /\
        if String.eqb type "Duplicates"
        then content = networks_met (visits_of_lab subnets) key /\
             2 <= length content
        else content = key :: addresses_met (visits_of_lab subnets) type key /\
             addresses_met (visits_of_lab subnets) type key <> [].
Proof.
  intros Hnone Hrun. unfold CreateCsvFiles in Hrun. revert name lines.
  match goal with
  | |- forall name lines, _ -> @?P name lines =>
      apply (for_each_invariant
               (fun cs => forall name lines,
                  In (name, lines) (files cs) -> P name lines)
               (Dict.keys blockMap) (lab_step blockMap)
               (mkCsvState [] [] []) cs)
  end; [|exact Hrun|intros name lines []].
  intros lab cs1 cs2 Hin Hstep Hbefore name lines Hfile.
  destruct (get_of_key _ _ Hin) as [subnets Hlab].
  destruct (lab_step_report _ _ _ _ _ Hnone Hlab Hstep)
    as (_ & st & -> & Hlists & Hdups).
  simpl in Hfile. apply in_app_or in Hfile as [Hold|Hnew];
    [apply Hbefore, Hold|].
  unfold csv_files in Hnew. apply in_flat_map in Hnew as (type & Htype & Hnew).
  destruct (get_of_key _ _ Htype) as [bySubnet HbySubnet].
  rewrite HbySubnet in Hnew. simpl in Hnew.
  destruct (0 <? Dict.len bySubnet) eqn:Hlen; [|destruct Hnew].
  destruct Hnew as [[= <- <-]|[]].
  exists lab, subnets, type. split; [exact Hlab|]. split; [reflexivity|].
  split.
  { unfold csv_lines, Dict.keys, Dict.len in *.
    destruct bySubnet; [discriminate|discriminate]. }
  intros line Hline. unfold csv_lines in Hline.
  apply in_map_iff in Hline as (key & <- & Hkey).
  destruct (get_of_key _ _ Hkey) as [r Hr]. rewrite Hr. simpl.
  assert (Hget2 : get2 type key (subnetMap st) = Some r)
    by (unfold get2; rewrite HbySubnet; exact Hr).
  exists key, (deref (heap st) r). split; [reflexivity|].
  destruct (String.eqb_spec type "Duplicates") as [->|Hother].
  - specialize (Hdups key). rewrite Hget2 in Hdups.
    destruct Hdups as [Hcontent Htwice]. unfold deref. rewrite Hcontent. auto.
  - specialize (Hlists type key Hother). rewrite Hget2 in Hlists.
    destruct Hlists as [Hcontent Hne]. unfold deref. rewrite Hcontent. auto.
Qed.

Lemma no_Duplicates_category_blockMap_two :
  no_Duplicates_category Sample.blockMap_two.
Proof.
  intros lab subnets subnet info. unfold Sample.blockMap_two. simpl.
  destruct (String.eqb lab "lab1"); [|discriminate]. intros [= <-]. simpl.
  destruct (String.eqb subnet Sample.N1); [intros [= <-]; reflexivity|].
  destruct (String.eqb subnet Sample.N2); [intros [= <-]; reflexivity|].
  discriminate.
Qed.

Lemma network_list_is_name_then_addresses_witness :
  match CreateCsvFiles Sample.blockMap_two with
  | Ok cs =>
      get3 "lab1" "Other" Sample.N2 (resolve cs) = Some [Sample.N2; Sample.X]
  | Raise _ => False
  end.
Proof.
  destruct (CreateCsvFiles Sample.blockMap_two) as [cs|e] eqn:Hrun.
  - apply (network_list_is_name_then_addresses Sample.blockMap_two cs
             "lab1" Sample.N2 "Other" [(Sample.N1, Sample.info_X);
                                       (Sample.N2, Sample.info_X)]
             Sample.info_X [(Sample.X, Sample.seen_recently Sample.X)]
             no_Duplicates_category_blockMap_two Hrun eq_refl).
    + repeat constructor; simpl; intuition discriminate.
    + reflexivity.
    + repeat constructor; simpl; intuition discriminate.
    + reflexivity.
  - vm_compute in Hrun. discriminate.
Defined.

Lemma duplicates_list_is_networks_met_witness :
  match CreateCsvFiles Sample.blockMap_two with
  | Ok cs =>
      get3 "lab1" "Duplicates" Sample.X (resolve cs) =
        Some [Sample.N1; Sample.N1; Sample.N2; Sample.N2]
  | Raise _ => False
  end.
Proof.
  destruct (CreateCsvFiles Sample.blockMap_two) as [cs|e] eqn:Hrun.
  - apply (duplicates_list_is_networks_met Sample.blockMap_two cs
             "lab1" Sample.X [(Sample.N1, Sample.info_X);
                              (Sample.N2, Sample.info_X)]
             no_Duplicates_category_blockMap_two Hrun eq_refl).
  - vm_compute in Hrun. discriminate.
Defined.

Lemma address_on_two_networks_lists_both_witness :
  match CreateCsvFiles Sample.blockMap_two with
  | Ok cs =>
      exists networks,
        get3 "lab1" "Duplicates" Sample.X (resolve cs) = Some networks /\
        In Sample.N1 networks /\ In Sample.N2 networks
  | Raise _ => False
  end.
Proof.
  destruct (CreateCsvFiles Sample.blockMap_two) as [cs|e] eqn:Hrun.
  - destruct (address_on_two_networks_lists_both Sample.blockMap_two cs
                "lab1" Sample.X [(Sample.N1, Sample.info_X);
                                 (Sample.N2, Sample.info_X)]
                Sample.N1 Sample.N2 "Other" "All" Sample.info_X Sample.info_X
                [(Sample.X, Sample.seen_recently Sample.X)]
                [(Sample.X, Sample.seen_recently Sample.X)]
                no_Duplicates_category_blockMap_two Hrun eq_refl
                eq_refl eq_refl eq_refl eq_refl eq_refl eq_refl
                ltac:(discriminate))
      as (networks & Hlist & H1 & H2 & _).
    exists networks. auto.
  - vm_compute in Hrun. discriminate.
Defined.

Lemma csv_lines_are_lists_of_the_report_witness :
  match CreateCsvFiles Sample.blockMap_two with
  | Ok cs =>
      exists lab subnets type,
        Dict.get lab Sample.blockMap_two = Some subnets /\
        "DHCP_lab1_Duplicates.csv"%string
          = ("DHCP_" ++ lab ++ "_" ++ type ++ ".csv")%string /\
        ["10.0.0.0/24,10.0.0.0/24,10.0.1.0/24,10.0.1.0/24"
           ++ String (ascii_of_nat 10) ""]%string <> [] /\
        forall line,
          In line ["10.0.0.0/24,10.0.0.0/24,10.0.1.0/24,10.0.1.0/24"
                     ++ String (ascii_of_nat 10) ""]%string ->
          exists key content,
            line = (String.concat "," content
                      ++ String (ascii_of_nat 10) "")%string /\
            if String.eqb type "Duplicates"
            then content = networks_met (visits_of_lab subnets) key /\
                 2 <= length content
            else content
                 = key :: addresses_met (visits_of_lab subnets) type key /\
                 addresses_met (visits_of_lab subnets) type key <> []
  | Raise _ => False
  end.
Proof.
  destruct (CreateCsvFiles Sample.blockMap_two) as [cs|e] eqn:Hrun.
  - pose proof Hrun as Hvalue. vm_compute in Hvalue.
    injection Hvalue as Hvalue. subst cs.
    apply (csv_lines_are_lists_of_the_report Sample.blockMap_two _
             "DHCP_lab1_Duplicates.csv" _
             no_Duplicates_category_blockMap_two Hrun).
    left. reflexivity.
  - vm_compute in Hrun. discriminate.
Defined.

End ReportContents.

(** *** The labs of the report *)

Section LabsOfTheReport.

Import MiceAndMenSpy Spec.

Variable strptime : string -> result datetime.

Lemma mem_map_values {V W} (f : V -> W) (k : string) (d : Dict.t V) :
  Dict.mem k (map (fun '(k', v) => (k', f v)) d) = Dict.mem k d.
Proof.
  unfold Dict.mem. induction d as [|[k' v] d IH]; simpl; [reflexivity|].
  destruct (String.eqb k k'); [reflexivity|exact IH].
Qed.

(** The round of a network enters its lab in the block map. *)
Lemma network_step_labs OUI_MAP cache lab network st st' l :
  network_step strptime OUI_MAP cache lab network st = Ok st' ->
  Dict.mem l st'.1 = String.eqb l lab || Dict.mem l st.1.
Proof.
  unfold network_step.
  destruct (getInfoBlockForNetwork strptime OUI_MAP network cache true st.2)
    as [[reservationBlockInfo w]|e]; simpl; [|discriminate].
  destruct (Dict.mem lab st.1) eqn:Hlab; simpl.
  - unfold Dict.item.
    match goal with
    | |- context [match ?found with Some _ => _ | None => _ end] =>
        destruct found as [byNetwork|]
    end; simpl; [|discriminate].
    intros [= <-]. simpl. apply mem_set.
  - unfold Dict.item. rewrite get_set_eq. simpl.
    intros [= <-]. simpl. rewrite !mem_set.
    destruct (String.eqb l lab); reflexivity.
Qed.

Lemma network_loop_labs OUI_MAP cache lab networkList st st' l :
  for_each networkList (network_step strptime OUI_MAP cache lab) st = Ok st' ->
  Dict.mem l st'.1 = true <->
  Dict.mem l st.1 = true \/ (l = lab /\ networkList <> []).
Proof.
  revert st. induction networkList as [|network networkList IH]; intros st.
  - simpl. intros [= <-]. tauto.
  - cbn [for_each].
    destruct (network_step strptime OUI_MAP cache lab network st)
      as [st1|e] eqn:Hstep; simpl; [|discriminate].
    intros Hrest. rewrite (IH st1 Hrest).
    rewrite (network_step_labs _ _ _ _ _ _ l Hstep).
    destruct (String.eqb_spec l lab) as [->|Hne]; simpl.
    + split; [intros _; right; split; [reflexivity|discriminate]|auto].
    + split; [tauto|]. intros [H|[H _]]; [auto|contradiction].
Qed.

(** X13.  The report has an entry for a lab exactly when the networks file
    lists at least one network for it: the lab enters the block map in the
    round of its first network, so a lab with an empty list of networks is
    absent from the report, and so from the summary. *)
Theorem report_has_the_labs_with_a_network
    (networks_arg cache_arg oui_arg : string) (w : World) (out : Output) :
  main strptime networks_arg cache_arg oui_arg w = Ok (Some out) ->
  forall lab,
    Dict.mem lab (report out) = true <->
    exists networkList,
      In (lab, networkList)
         (readMapFromJsonFile (network_files w networks_arg)) /\
      networkList <> [].
Proof.
  unfold main.
  destruct (getenv w "ddi_username"); [|simpl; discriminate].
  destruct (getenv w "ddi_password"); [|simpl; discriminate].
  set (networks := readMapFromJsonFile (network_files w networks_arg)).
  set (OUI_MAP := readMapFromJsonFile (oui_files w oui_arg)).
  destruct (for_each networks _ _) as [st|e] eqn:Hloop; simpl; [|discriminate].
  destruct (CreateCsvFiles st.1) as [retMap|e] eqn:Hrun; simpl; [|discriminate].
  intros [= <-] lab. cbn [report]. unfold resolve.
  rewrite mem_map_values, (CreateCsvFiles_labs _ _ _ Hrun).
  clear Hrun retMap. revert Hloop.
  assert (Hgen : forall (start : Dict.t (Dict.t RetMap) * World),
            for_each networks
              (fun '(lab, networkList) st =>
                 for_each networkList
                   (network_step strptime OUI_MAP cache_arg lab) st)
              start = Ok st ->
            Dict.mem lab st.1 = true <->
            Dict.mem lab start.1 = true \/
            exists networkList, In (lab, networkList) networks /\
                                networkList <> []).
  { clearbody networks. induction networks as [|[lab' networkList] networks IH];
      intros start.
    - simpl. intros [= <-]. split; [auto|]. intros [H|(? & [] & _)]. exact H.
    - cbn [for_each].
      destruct (for_each networkList _ start) as [st1|e] eqn:Hinner; simpl;
        [|discriminate].
      intros Hrest. rewrite (IH st1 Hrest).
      rewrite (network_loop_labs _ _ _ _ _ _ lab Hinner). split.
      + intros [[H|[-> Hne]]|(nl & Hin & Hne)].
        * auto.
        * right. exists networkList. split; [left; reflexivity|exact Hne].
        * right. exists nl. split; [right; exact Hin|exact Hne].
      + intros [H|(nl & [[= <- <-]|Hin] & Hne)].
        * auto.
        * left. right. auto.
        * right. exists nl. auto. }
  intros Hloop. rewrite (Hgen _ Hloop). simpl. split; [|auto].
  intros [H|H]; [discriminate|exact H].
Qed.

End LabsOfTheReport.

(** A run in which two labs list the same network and a third lab lists
    none: the second call for the network is served from the files that the
    first call wrote. *)
Lemma report_has_the_labs_with_a_network_witness :
  exists out,
    MiceAndMenSpy.main Sample.strptime "NetworkList.json" "cache.json"
      "oui.json"
      (Sample.world [("lab1"%string, [Sample.N1]);
                     ("lab2"%string, [Sample.N1]); ("lab3"%string, [])]
         MiceAndMenSpy.LoadError
         (fun _ => [Sample.seen_recently Sample.X]) Sample.now)
    = Ok (Some out) /\
    forall lab,
      Dict.mem lab (MiceAndMenSpy.report out) = true <->
      exists networkList,
        In (lab, networkList)
           [("lab1"%string, [Sample.N1]); ("lab2"%string, [Sample.N1]);
            ("lab3"%string, [])] /\
        networkList <> [].
Proof.
  destruct (MiceAndMenSpy.main _ _ _ _ _) as [[out|]|e] eqn:Hrun.
  - exists out. split; [reflexivity|].
    apply (report_has_the_labs_with_a_network Sample.strptime _ _ _ _ out Hrun).
  - vm_compute in Hrun. discriminate.
  - vm_compute in Hrun. discriminate.
Defined.

(** *** Two general facts about the report, on a sample *)

Section ReportFactsOnASample.

Import MiceAndMenSpy Spec.

Lemma total_counts_addresses_and_networks_witness :
  match CreateCsvFiles Sample.blockMap_two with
  | Ok cs =>
      exists byType bySubnet,
        Dict.get "lab1" (labMap cs) = Some byType /\
        Dict.get "Other" byType = Some bySubnet /\
        type_total (lists cs) "Other" bySubnet =
        Dict.len bySubnet + addresses_listed (lists cs) bySubnet
  | Raise _ => False
  end.
Proof.
  destruct (CreateCsvFiles Sample.blockMap_two) as [cs|e] eqn:Hrun.
  - pose proof Hrun as Hvalue. vm_compute in Hvalue.
    injection Hvalue as Hvalue. subst cs.
    eexists _, _. split; [reflexivity|]. split; [reflexivity|].
    apply (total_counts_addresses_and_networks Sample.blockMap_two _ "lab1"
             _ "Other" _ Hrun eq_refl ltac:(discriminate) eq_refl).
  - vm_compute in Hrun. discriminate.
Defined.

Lemma passing_address_is_listed_as_duplicate_witness :
  match CreateCsvFiles Sample.blockMap_two with
  | Ok cs =>
      exists byType,
        Dict.get "lab1" (labMap cs) = Some byType /\
        listed_as_duplicate Sample.X byType
  | Raise _ => False
  end.
Proof.
  destruct (CreateCsvFiles Sample.blockMap_two) as [cs|e] eqn:Hrun.
  - apply (passing_address_is_listed_as_duplicate Sample.strptime []
             (mkdatetime 2023 7 1 12 0 0 0) [Sample.seen_recently Sample.X]
             (Sample.seen_recently Sample.X) Sample.info_X
             Sample.blockMap_two cs "lab1"
             [(Sample.N1, Sample.info_X); (Sample.N2, Sample.info_X)]
             Sample.N1 eq_refl (or_introl eq_refl) eq_refl
             ltac:(discriminate) Hrun eq_refl eq_refl).
  - vm_compute in Hrun. discriminate.
Defined.

End ReportFactsOnASample.

(** ** dhcpspy.py: further properties of the polling loop *)

Section MonitorRuns.

Import DhcpSpy Spec.

Implicit Types (dhcpLeases previousLeases : gmap string LeaseObject).

Lemma not_new_or_changed previousLeases macAddr lease :
  ~ new_or_changed previousLeases macAddr lease ->
  exists previous, previousLeases !! macAddr = Some previous /\
                   start previous = start lease.
Proof.
  intros Hnot. destruct (previousLeases !! macAddr) as [previous|] eqn:E.
  - exists previous. split; [reflexivity|].
    destruct (decide (start lease = start previous)) as [H|H]; [auto|].
    exfalso. apply Hnot. right. eauto.
  - exfalso. apply Hnot. left. exact E.
Qed.

(** X16.  A steady round never drops an address from the retained map: every
    address it held is still held, every address of the current snapshot is
    held with the [start] the snapshot has for it, and no other address
    comes in. *)
Theorem steady_round_retains_and_synchronises
    (interval : float) dhcpLeases previousLeases
    (events : list event) (next : gmap string LeaseObject) :
  size previousLeases <> 0 ->
  round interval false dhcpLeases previousLeases = (events, Some next) ->
  (forall macAddr, is_Some (previousLeases !! macAddr) ->
                   is_Some (next !! macAddr)) /\
  (forall macAddr lease, dhcpLeases !! macAddr = Some lease ->
     exists kept, next !! macAddr = Some kept /\ start kept = start lease) /\
  (forall macAddr, previousLeases !! macAddr = None ->
                   dhcpLeases !! macAddr = None -> next !! macAddr = None).
Proof.
  intros Hprev Hround.
  destruct (steady_round_spec interval dhcpLeases previousLeases Hprev)
    as (partial & next' & Hround' & Hpartial & Hnext).
  rewrite Hround in Hround'. injection Hround' as -> ->.
  split; [|split].
  - intros macAddr Hheld. rewrite Hnext.
    destruct (partial !! macAddr); [eauto|exact Hheld].
  - intros macAddr lease Hcur. rewrite Hnext.
    destruct (partial !! macAddr) as [sent|] eqn:Hsent.
    + apply Hpartial in Hsent as [Hsent _].
      exists sent. split; [reflexivity|congruence].
    + apply not_new_or_changed. intros Hnew.
      assert (partial !! macAddr = Some lease) by (apply Hpartial; auto).
      congruence.
  - intros macAddr Hold Hcur. rewrite Hnext.
    destruct (partial !! macAddr) as [sent|] eqn:Hsent; [|exact Hold].
    apply Hpartial in Hsent as [Hsent _]. congruence.
Qed.

Lemma steady_round_retains_and_synchronises_witness :
  exists events next,
    round 60 false Sample.snapshot_A_moved Sample.snapshot_A_B
      = (events, Some next) /\
    (forall macAddr, is_Some (Sample.snapshot_A_B !! macAddr) ->
                     is_Some (next !! macAddr)) /\
    (forall macAddr lease, Sample.snapshot_A_moved !! macAddr = Some lease ->
       exists kept, next !! macAddr = Some kept /\ start kept = start lease) /\
    (forall macAddr, Sample.snapshot_A_B !! macAddr = None ->
                     Sample.snapshot_A_moved !! macAddr = None ->
                     next !! macAddr = None).
Proof.
  eexists _, _. split; [reflexivity|].
  eapply (steady_round_retains_and_synchronises 60 Sample.snapshot_A_moved
            Sample.snapshot_A_B).
  - apply Nat.eqb_neq. reflexivity.
  - reflexivity.
Defined.

(** X17.  A steady round in which every lease of the current snapshot is
    retained with the same [start] calls no handler and leaves the retained
    map as it is; leases that have left the file, and changes of [ip] or
    [binding_state], go unnoticed. *)
Theorem unchanged_starts_cause_no_call
    (interval : float) dhcpLeases previousLeases :
  size previousLeases <> 0 ->
  (forall macAddr lease, dhcpLeases !! macAddr = Some lease ->
     exists previous, previousLeases !! macAddr = Some previous /\
                      start previous = start lease) ->
  round interval false dhcpLeases previousLeases =
    ([Sleep interval], Some previousLeases).
Proof.
  intros Hprev Hsame.
  destruct (steady_round_spec interval dhcpLeases previousLeases Hprev)
    as (partial & next & -> & Hpartial & Hnext).
  assert (partial = ∅) as ->.
  { apply map_eq. intros macAddr. rewrite lookup_empty.
    destruct (partial !! macAddr) as [lease|] eqn:E; [|reflexivity].
    apply Hpartial in E as [Hcur Hnew].
    destruct (Hsame macAddr lease Hcur) as (previous & Hp & Hstart).
    destruct Hnew as [Hnone|(p & Hp' & Hne)]; [congruence|].
    rewrite Hp in Hp'. injection Hp' as <-. congruence. }
  assert (next = previousLeases) as ->.
  { apply map_eq. intros macAddr. rewrite Hnext, lookup_empty. reflexivity. }
  rewrite bool_decide_eq_true_2 by reflexivity. reflexivity.
Qed.

Lemma unchanged_starts_cause_no_call_witness :
  round 60 false Sample.snapshot_A_moved Sample.snapshot_A_B =
    ([Sleep 60], Some Sample.snapshot_A_B).
Proof.
  apply (unchanged_starts_cause_no_call 60 Sample.snapshot_A_moved
           Sample.snapshot_A_B).
  - apply Nat.eqb_neq. reflexivity.
  - intros macAddr lease Hcur. unfold Sample.snapshot_A_moved in Hcur.
    apply lookup_singleton_Some in Hcur as [<- <-].
    exists Sample.object_A. split; reflexivity.
Defined.

Lemma last_cons_default {A} (l : list A) (x d : A) :
  List.last (x :: l) d = List.last l x.
Proof.
  revert x d. induction l as [|y l IH]; intros x d; [reflexivity|].
  change (List.last (x :: y :: l) d) with (List.last (y :: l) d).
  change (List.last (y :: l) x) with (List.last (y :: l) x).
  rewrite (IH y d), (IH y x). reflexivity.
Qed.

(** X18.  With [alwaysSendAllData] and [interval >= 1] every poll of a readable
    lease file is answered by one call of the handler with the whole snapshot
    and [isDelta = False], followed by one sleep; the loop never returns, and
    retains the last snapshot. *)
Theorem always_send_all_data_run
    (polls : list (option LeaseFile))
    (snapshots : list (gmap string LeaseObject))
    (interval : float) previousLeases :
  PrimFloat.ltb interval 1 = false ->
  Forall2 (fun inputFile snapshot => getLeases inputFile = Ok snapshot)
          polls snapshots ->
  monitor_loop polls interval true previousLeases =
    (flat_map (fun snapshot => [Handle snapshot false; Sleep interval])
              snapshots,
     Polling (List.last snapshots previousLeases)).
Proof.
  intros Hlong Hpolls. revert previousLeases.
  induction Hpolls as [|inputFile snapshot polls snapshots Hget _ IH];
    intros previousLeases.
  - reflexivity.
  - cbn [monitor_loop]. rewrite Hget. unfold round.
    rewrite orb_true_r, Hlong, (IH snapshot).
    cbn [flat_map app]. rewrite last_cons_default. reflexivity.
Qed.

Lemma always_send_all_data_run_witness :
  monitor_loop [Some Sample.file_A; Some Sample.file_A] 60 true ∅ =
    (flat_map (fun snapshot => [Handle snapshot false; Sleep 60])
              [Sample.snapshot_A; Sample.snapshot_A],
     Polling (List.last [Sample.snapshot_A; Sample.snapshot_A] ∅)).
Proof.
  apply (always_send_all_data_run [Some Sample.file_A; Some Sample.file_A]
           [Sample.snapshot_A; Sample.snapshot_A] 60 ∅).
  - reflexivity.
  - repeat constructor.
Defined.

(** A run over a longer sequence of file states extends the run over its
    beginning, and reads the rest of the sequence only if the loop is still
    polling. *)
Lemma monitor_loop_app
    (polls more : list (option LeaseFile)) (interval : float)
    (alwaysSendAllData : bool) previousLeases :
  monitor_loop (polls ++ more) interval alwaysSendAllData previousLeases =
    let '(events, st) :=
      monitor_loop polls interval alwaysSendAllData previousLeases in
    match st with
    | Polling retained =>
        let '(events', st') :=
          monitor_loop more interval alwaysSendAllData retained in
        (events ++ events', st')
    | _ => (events, st)
    end.
Proof.
  revert previousLeases.
  induction polls as [|inputFile polls IH]; intros previousLeases.
  - simpl. destruct (monitor_loop more _ _ _). reflexivity.
  - cbn [app monitor_loop].
    destruct (getLeases inputFile) as [dhcpLeases|e]; [|reflexivity].
    destruct (round _ _ _ _) as [events [retained|]]; [|reflexivity].
    rewrite IH.
    destruct (monitor_loop polls _ _ retained) as [events1 [| |retained1]];
      try reflexivity.
    destruct (monitor_loop more _ _ retained1) as [events2 st2].
    rewrite app_assoc. reflexivity.
Qed.

(** X19.  The loop handles no exception: when a call of [getLeases] raises,
    because the lease file is gone or a lease has no end, the run ends with
    that exception, after the events of the rounds before. *)
Theorem failed_read_ends_the_run
    (polls more : list (option LeaseFile)) (inputFile : option LeaseFile)
    (e : exn) (interval : float) (alwaysSendAllData : bool) previousLeases
    (events : list event) (retained : gmap string LeaseObject) :
  monitor_loop polls interval alwaysSendAllData previousLeases =
    (events, Polling retained) ->
  getLeases inputFile = Raise e ->
  monitor_loop (polls ++ inputFile :: more) interval alwaysSendAllData
               previousLeases = (events, Raised e).
Proof.
  intros Hrun Hread. rewrite monitor_loop_app, Hrun.
  cbn [monitor_loop]. rewrite Hread, app_nil_r. reflexivity.
Qed.

Lemma failed_read_ends_the_run_witness :
  monitor_loop ([Some Sample.file_A] ++ None :: [Some Sample.file_A_B])
               60 false ∅ =
    ([Handle Sample.snapshot_A false; Sleep 60], Raised FileNotFoundError).
Proof.
  apply (failed_read_ends_the_run [Some Sample.file_A] [Some Sample.file_A_B]
           None FileNotFoundError 60 false ∅
           [Handle Sample.snapshot_A false; Sleep 60] Sample.snapshot_A);
    reflexivity.
Defined.

(** X20.  Once the retained map is not empty, a run without
    [alwaysSendAllData] only ever hands deltas to the handler, none of them
    empty; it never returns, and the retained map never becomes empty
    again. *)
Theorem only_deltas_once_steady
    (polls : list (option LeaseFile)) (interval : float) previousLeases
    (events : list event) (st : status) :
  size previousLeases <> 0 ->
  monitor_loop polls interval false previousLeases = (events, st) ->
  (forall leaseMap isDelta, In (Handle leaseMap isDelta) events ->
     isDelta = true /\ leaseMap <> ∅) /\
  st <> Returned /\
  (forall retained, st = Polling retained -> size retained <> 0).
Proof.
  revert previousLeases events st.
  induction polls as [|inputFile polls IH];
    intros previousLeases events st Hprev.
  - simpl. intros [= <- <-]. split; [intros ? ? []|].
    split; [discriminate|]. intros retained [= <-]. exact Hprev.
  - cbn [monitor_loop].
    destruct (getLeases inputFile) as [dhcpLeases|e].
    2: { intros [= <- <-]. split; [intros ? ? []|].
         split; discriminate. }
    destruct (steady_round_spec interval dhcpLeases previousLeases Hprev)
      as (partial & next & -> & Hpartial & Hnext).
    assert (Hnext_size : size next <> 0).
    { intros Hsize. apply map_size_empty_iff in Hsize. subst next.
      apply Hprev. apply map_size_empty_iff. apply map_eq. intros macAddr.
      specialize (Hnext macAddr). rewrite lookup_empty in *.
      destruct (partial !! macAddr); [discriminate|]. auto. }
    destruct (monitor_loop polls interval false next) as [events' st'] eqn:Hrest.
    destruct (IH next events' st' Hnext_size Hrest) as (Hev & Hret & Hpoll).
    intros [= <- <-]. split; [|auto].
    intros leaseMap isDelta Hin.
    apply in_app_or in Hin as [Hin|Hin]; [|eauto].
    apply in_app_or in Hin as [Hin|Hin].
    + destruct (decide (partial = ∅)) as [Hempty|Hne].
      * rewrite bool_decide_eq_true_2 in Hin by exact Hempty. destruct Hin.
      * rewrite bool_decide_eq_false_2 in Hin by exact Hne.
        destruct Hin as [[= <- <-]|[]]. auto.
    + destruct Hin as [Hin|[]]. discriminate.
Qed.

Lemma only_deltas_once_steady_witness :
  exists events st,
    monitor_loop [Some Sample.file_A_B; Some Sample.file_A_moved] 60 false
                 Sample.snapshot_A = (events, st) /\
    (forall leaseMap isDelta, In (Handle leaseMap isDelta) events ->
       isDelta = true /\ leaseMap <> ∅) /\
    st <> Returned /\
    (forall retained, st = Polling retained -> size retained <> 0).
Proof.
  eexists _, _. split; [reflexivity|].
  apply (only_deltas_once_steady
           [Some Sample.file_A_B; Some Sample.file_A_moved] 60
           Sample.snapshot_A).
  - apply Nat.eqb_neq. reflexivity.
  - reflexivity.
Defined.

(** X21.  [getLeases] reads the end of every lease of the file, current or
    not: one lease without an end makes it raise [AttributeError], whatever
    the current leases are. *)
Theorem getLeases_needs_the_end_of_every_lease
    (leases : LeaseFile) (lease : IscLease) :
  In lease (all_leases leases) ->
  lease_end lease = None ->
  getLeases (Some leases) = Raise AttributeError.
Proof.
  intros Hin Hend. unfold getLeases.
  destruct (forallb _ (all_leases leases)) eqn:Hall; [|reflexivity].
  rewrite forallb_forall in Hall. specialize (Hall lease Hin).
  apply bool_decide_eq_true in Hall as [? Hsome]. congruence.
Qed.

Lemma getLeases_needs_the_end_of_every_lease_witness :
  getLeases (Some Sample.file_A_C) = Raise AttributeError.
Proof.
  apply (getLeases_needs_the_end_of_every_lease Sample.file_A_C Sample.lease_C).
  - right. left. reflexivity.
  - reflexivity.
Defined.

End MonitorRuns.
